(** * AthleteChain: the on-chain sponsorship core

    A shallow embedding of the four Solidity contracts of the repository
    ([AthleteContract] in its two variants, [DisputeResolution] and
    [SponsorshipNFT]) together with the properties of the specification
    that are checked against them.

    Conventions.
    - A [uint256] is an [N]; Solidity 0.8 arithmetic is checked, so an
      overflowing [+] is a [Panic 0x11] and an out-of-range array access a
      [Panic 0x32].  The one unchecked addition (OpenZeppelin's
      [Counters.increment]) is written with its wrap-around.
    - A [mapping] is a [gmap] read through a default: a key never written
      holds the zero-initialised record.
    - A call either returns [Ok] with the new storage or fails; a failed
      call reverts, so the storage that remains is the one before the call
      (see [commit]).
    - External value transfers (native send, ERC20 [transferFrom] and
      [allowance]) are answers of the environment [Env] of the call; the
      callee does not call back into the ledger.  Value is attached only to
      the one payable entry point, [releaseMilestonePayment]. *)

From Stdlib Require Import NArith String.
From stdpp Require Import gmap list.

Local Open Scope N_scope.

(** ** EVM preliminaries *)

Definition address := N.
Definition uint256 := N.

Definition MAX_UINT256 : N := 2 ^ 256 - 1.

Inductive Failure :=
| Revert (reason : string)   (* require(cond, reason) / revert *)
| Panic (code : N).          (* 0x11 arithmetic overflow, 0x32 index out of range *)

Inductive Result (A : Type) :=
| Ok (a : A)
| Err (f : Failure).
Arguments Ok {A} a.
Arguments Err {A} f.

#[global] Instance Result_ret : MRet Result := λ A a, Ok a.
#[global] Instance Result_bind : MBind Result := λ A B f r,
  match r with Ok a => f a | Err e => Err e end.

Definition require (cond : bool) (reason : string) : Result unit :=
  if cond then Ok tt else Err (Revert reason).

Definition checked_add (a b : uint256) : Result uint256 :=
  if a + b <=? MAX_UINT256 then Ok (a + b) else Err (Panic 0x11).

(** Storage after a transaction: a failed call changes nothing. *)
Definition commit {S A} (before : S) (after : A → S) (r : Result A) : S :=
  match r with Ok a => after a | Err _ => before end.

(** The error taxonomy of the specification (section 7). *)
Inductive ErrorKind :=
| Unauthorized | InvalidState | InvalidInput | AlreadyExists | NotFound
| TransferFailed.

(** ** Roles (OpenZeppelin AccessControl, role tags are keccak256 of the name) *)

Inductive Role :=
| DEFAULT_ADMIN_ROLE | ATHLETE_ROLE | SPONSOR_ROLE | AGENT_ROLE | TEAM_ROLE
| ARBITRATOR_ROLE | MINTER_ROLE.

#[global] Instance Role_eq_dec : EqDecision Role.
Proof. solve_decision. Defined.

Definition RoleTable := Role → address → bool.

Definition noRoles : RoleTable := λ _ _, false.

Definition setRole (t : RoleTable) (r : Role) (a : address) (b : bool) : RoleTable :=
  λ r' a', if decide (r' = r) then (if a' =? a then b else t r' a') else t r' a'.

(** ** Data model of the ledger (AthleteContract) *)

Module ContractState.
Inductive t := Draft | Active | Completed | Disputed | Terminated.
Definition eqb (a b : t) : bool :=
  match a, b with
  | Draft, Draft | Active, Active | Completed, Completed
  | Disputed, Disputed | Terminated, Terminated => true
  | _, _ => false
  end.
End ContractState.

Module MilestoneStatus.
Inductive t := Pending | Completed | Disputed | Rejected.
Definition eqb (a b : t) : bool :=
  match a, b with
  | Pending, Pending | Completed, Completed
  | Disputed, Disputed | Rejected, Rejected => true
  | _, _ => false
  end.
End MilestoneStatus.

Record Milestone := {
  description : string;
  amount : uint256;
  deadline : uint256;
  status : MilestoneStatus.t;
  evidence : string;
  paid : bool
}.

Record SponsorshipContract := {
  athlete : address;
  sponsor : address;
  contractIPFSHash : string;
  totalValue : uint256;
  startDate : uint256;
  endDate : uint256;
  state : ContractState.t;
  paymentToken : address;
  milestones : list Milestone;
  arbitrators : list address;
  updateHistory : list string
}.

(** The zero-initialised storage slot. *)
Definition emptyContract : SponsorshipContract := {|
  athlete := 0; sponsor := 0; contractIPFSHash := EmptyString;
  totalValue := 0; startDate := 0; endDate := 0;
  state := ContractState.Draft; paymentToken := 0;
  milestones := []; arbitrators := []; updateHistory := []
|}.

Definition set_state (c : SponsorshipContract) (st : ContractState.t) := {|
  athlete := athlete c; sponsor := sponsor c;
  contractIPFSHash := contractIPFSHash c; totalValue := totalValue c;
  startDate := startDate c; endDate := endDate c; state := st;
  paymentToken := paymentToken c; milestones := milestones c;
  arbitrators := arbitrators c; updateHistory := updateHistory c
|}.

Definition set_milestones (c : SponsorshipContract) (ms : list Milestone) := {|
  athlete := athlete c; sponsor := sponsor c;
  contractIPFSHash := contractIPFSHash c; totalValue := totalValue c;
  startDate := startDate c; endDate := endDate c; state := state c;
  paymentToken := paymentToken c; milestones := ms;
  arbitrators := arbitrators c; updateHistory := updateHistory c
|}.

Definition set_document (c : SponsorshipContract) (doc : string)
    (history : list string) := {|
  athlete := athlete c; sponsor := sponsor c;
  contractIPFSHash := doc; totalValue := totalValue c;
  startDate := startDate c; endDate := endDate c; state := state c;
  paymentToken := paymentToken c; milestones := milestones c;
  arbitrators := arbitrators c; updateHistory := history
|}.

Definition set_status (m : Milestone) (st : MilestoneStatus.t) (ev : string) := {|
  description := description m; amount := amount m; deadline := deadline m;
  status := st; evidence := ev; paid := paid m
|}.

Definition set_paid (m : Milestone) := {|
  description := description m; amount := amount m; deadline := deadline m;
  status := status m; evidence := evidence m; paid := true
|}.

(** One [PaymentReleased(contractId, milestoneIndex, amount)] event. *)
Record PaymentReleased := {
  pr_contractId : uint256; pr_milestoneIndex : uint256; pr_amount : uint256
}.

(** Storage of one deployed AthleteContract.  [acl] is the AccessControl
    table of the role-gated variant; the basic variant does not inherit
    AccessControl and never reads it. *)
Record Ledger := {
  contracts : gmap N SponsorshipContract;
  contractCount : uint256;
  acl : RoleTable;
  released : list PaymentReleased
}.

Definition contractAt (L : Ledger) (contractId : uint256) : SponsorshipContract :=
  default emptyContract (contracts L !! contractId).

Definition store (L : Ledger) (contractId : uint256) (c : SponsorshipContract) := {|
  contracts := <[contractId := c]> (contracts L);
  contractCount := contractCount L; acl := acl L; released := released L
|}.

Definition hasRole (L : Ledger) (r : Role) (a : address) : bool := acl L r a.

(** What the chain answers during one call. *)
Record Env := {
  msg_value : uint256;        (* wei sent with the call *)
  send_ok : bool;             (* the native transfer to the athlete succeeds *)
  transferFrom_ok : bool;     (* the ERC20 transferFrom returns true *)
  allowance : uint256         (* token.allowance(sponsor, ledger) *)
}.

(** ** Code shared by the two variants of AthleteContract *)

Definition newMilestone (d : string) (a t : uint256) : Milestone := {|
  description := d; amount := a; deadline := t;
  status := MilestoneStatus.Pending; evidence := EmptyString; paid := false
|}.

(** The loop of [addMilestones]: it runs over the three arrays in step (their
    lengths were compared before), adds each amount to the running total with
    checked arithmetic and pushes one milestone. *)
Fixpoint pushMilestones (descriptions : list string) (amounts deadlines : list uint256)
    (totalMilestoneAmount : uint256) (ms : list Milestone)
    : Result (uint256 * list Milestone) :=
  match descriptions, amounts, deadlines with
  | d :: ds, a :: amts, t :: ts =>
      total ← checked_add totalMilestoneAmount a;
      pushMilestones ds amts ts total (ms ++ [newMilestone d a t])
  | _, _, _ => Ok (totalMilestoneAmount, ms)
  end.

(** The loop of [resolveDispute] over the contract's arbitrator list. *)
Definition isArbitrator (sender : address) (c : SponsorshipContract) : bool :=
  existsb (N.eqb sender) (arbitrators c).

(** The closing loop of [approveMilestone]. *)
Definition allCompleted (c : SponsorshipContract) : bool :=
  forallb paid (milestones c).

Definition emitPaymentReleased (L : Ledger) (contractId milestoneIndex amt : uint256) := {|
  contracts := contracts L; contractCount := contractCount L; acl := acl L;
  released := released L ++
    [{| pr_contractId := contractId; pr_milestoneIndex := milestoneIndex;
        pr_amount := amt |}]
|}.

Definition set_contractCount (L : Ledger) (n : uint256) := {|
  contracts := contracts L; contractCount := n; acl := acl L;
  released := released L
|}.

Definition set_acl (L : Ledger) (t : RoleTable) := {|
  contracts := contracts L; contractCount := contractCount L; acl := t;
  released := released L
|}.

(** The record returned by [getContractDetails] (same in both variants). *)
Record ContractDetails := {
  d_athlete : address;
  d_sponsor : address;
  d_contractIPFSHash : string;
  d_totalValue : uint256;
  d_startDate : uint256;
  d_endDate : uint256;
  d_state : ContractState.t;
  d_paymentToken : address
}.

Definition getContractDetails (L : Ledger) (contractId : uint256) : ContractDetails :=
  let sponsorshipContract := contractAt L contractId in
  {| d_athlete := athlete sponsorshipContract;
     d_sponsor := sponsor sponsorshipContract;
     d_contractIPFSHash := contractIPFSHash sponsorshipContract;
     d_totalValue := totalValue sponsorshipContract;
     d_startDate := startDate sponsorshipContract;
     d_endDate := endDate sponsorshipContract;
     d_state := state sponsorshipContract;
     d_paymentToken := paymentToken sponsorshipContract |}.

(** [getMilestoneCount] (role-gated variant) / [getMilestonesCount] (basic). *)
Definition getMilestoneCount (L : Ledger) (contractId : uint256) : uint256 :=
  N.of_nat (length (milestones (contractAt L contractId))).

(** [getMilestoneDetails]: the only read that can fail (index out of range). *)
Definition getMilestoneDetails (L : Ledger) (contractId milestoneIndex : uint256)
    : Result Milestone :=
  match milestones (contractAt L contractId) !! N.to_nat milestoneIndex with
  | Some m => Ok m
  | None => Err (Panic 0x32)
  end.

(** ** AthleteContract, basic variant (addresses only, no roles) *)

Module Basic.

Definition createContract (L : Ledger) (athlete sponsor : address)
    (contractIPFSHash : string) (totalValue startDate endDate : uint256)
    (paymentToken : address) (arbitrators : list address)
    : Result (Ledger * uint256) :=
  require (startDate <? endDate) "End date must be after start date";;
  require (negb (athlete =? 0) && negb (sponsor =? 0)) "Invalid addresses";;
  let contractId := contractCount L in
  next ← checked_add (contractCount L) 1;
  let newContract := contractAt L contractId in
  Ok (store (set_contractCount L next) contractId
        {| athlete := athlete; sponsor := sponsor;
           contractIPFSHash := contractIPFSHash; totalValue := totalValue;
           startDate := startDate; endDate := endDate;
           state := ContractState.Draft; paymentToken := paymentToken;
           milestones := milestones newContract; arbitrators := arbitrators;
           updateHistory := updateHistory newContract |},
      contractId).

Definition addMilestones (L : Ledger) (sender : address) (contractId : uint256)
    (descriptions : list string) (amounts deadlines : list uint256)
    : Result Ledger :=
  let c := contractAt L contractId in
  require ((sender =? athlete c) || (sender =? sponsor c))
    "Only athlete or sponsor can modify";;
  require (ContractState.eqb (state c) ContractState.Draft)
    "Contract not in draft state";;
  require ((length descriptions =? length amounts)%nat
           && (length amounts =? length deadlines)%nat)
    "Arrays length mismatch";;
  '(totalMilestoneAmount, ms) ← pushMilestones descriptions amounts deadlines 0 (milestones c);
  require (totalMilestoneAmount =? totalValue c)
    "Total milestone amounts must match contract value";;
  Ok (store L contractId (set_milestones c ms)).

Definition activateContract (L : Ledger) (sender : address) (contractId : uint256)
    : Result Ledger :=
  let c := contractAt L contractId in
  require ((sender =? athlete c) || (sender =? sponsor c))
    "Only athlete or sponsor can activate";;
  require (ContractState.eqb (state c) ContractState.Draft)
    "Contract not in draft state";;
  require (0 <? length (milestones c))%nat "No milestones defined";;
  Ok (store L contractId (set_state c ContractState.Active)).

Definition completeMilestone (L : Ledger) (sender : address)
    (contractId milestoneIndex : uint256) (evidence : string) : Result Ledger :=
  let c := contractAt L contractId in
  require (sender =? athlete c) "Only athlete can complete milestone";;
  require (ContractState.eqb (state c) ContractState.Active) "Contract not active";;
  match milestones c !! N.to_nat milestoneIndex with
  | None => Err (Panic 0x32)
  | Some milestone =>
      require (MilestoneStatus.eqb (status milestone) MilestoneStatus.Pending)
        "Invalid milestone status";;
      Ok (store L contractId
            (set_milestones c
               (<[N.to_nat milestoneIndex :=
                    set_status milestone MilestoneStatus.Completed evidence]>
                  (milestones c))))
  end.

Definition releaseMilestonePayment (e : Env) (L : Ledger) (sender : address)
    (contractId milestoneIndex : uint256) : Result Ledger :=
  let c := contractAt L contractId in
  require (sender =? sponsor c) "Only sponsor can release payment";;
  require (ContractState.eqb (state c) ContractState.Active) "Contract not active";;
  match milestones c !! N.to_nat milestoneIndex with
  | None => Err (Panic 0x32)
  | Some milestone =>
      require (MilestoneStatus.eqb (status milestone) MilestoneStatus.Completed)
        "Milestone not completed";;
      require (negb (paid milestone)) "Payment already released";;
      let amt := amount milestone in
      (if paymentToken c =? 0 then
         require (msg_value e =? amt) "Incorrect payment amount";;
         require (send_ok e) "ETH transfer failed"
       else
         require (transferFrom_ok e) "Token transfer failed");;
      Ok (emitPaymentReleased
            (store L contractId
               (set_milestones c
                  (<[N.to_nat milestoneIndex := set_paid milestone]> (milestones c))))
            contractId milestoneIndex amt)
  end.

Definition raiseDispute (L : Ledger) (sender : address) (contractId : uint256)
    (reason : string) : Result Ledger :=
  let c := contractAt L contractId in
  require ((sender =? athlete c) || (sender =? sponsor c))
    "Only athlete or sponsor can raise dispute";;
  require (ContractState.eqb (state c) ContractState.Active) "Contract not active";;
  Ok (store L contractId (set_state c ContractState.Disputed)).

Definition resolveDispute (L : Ledger) (sender : address) (contractId : uint256)
    (athleteFavor : bool) : Result Ledger :=
  let c := contractAt L contractId in
  require (isArbitrator sender c) "Only arbitrator can resolve dispute";;
  require (ContractState.eqb (state c) ContractState.Disputed) "Contract not disputed";;
  Ok (store L contractId
        (set_state c (if athleteFavor then ContractState.Active
                      else ContractState.Terminated))).

Definition updateContract (L : Ledger) (sender : address) (contractId : uint256)
    (newContractIPFSHash : string) : Result Ledger :=
  let c := contractAt L contractId in
  require ((sender =? athlete c) || (sender =? sponsor c))
    "Only athlete or sponsor can update";;
  Ok (store L contractId
        (set_document c newContractIPFSHash
           (updateHistory c ++ [contractIPFSHash c]))).

End Basic.

(** ** AthleteContract, role-gated variant (AccessControl) *)

Module RoleGated.

(** The constructor grants the deployer the admin role. *)
Definition deploy (deployer : address) : Ledger := {|
  contracts := ∅; contractCount := 0;
  acl := setRole noRoles DEFAULT_ADMIN_ROLE deployer true; released := []
|}.

(** AccessControl: every role is administered by [DEFAULT_ADMIN_ROLE].  The
    library's reason string spells out the account and the role. *)
Definition onlyAdmin (L : Ledger) (sender : address) : Result unit :=
  require (hasRole L DEFAULT_ADMIN_ROLE sender) "AccessControl: account is missing role".

Definition grantRole (L : Ledger) (sender : address) (role : Role)
    (account : address) : Result Ledger :=
  onlyAdmin L sender;;
  Ok (set_acl L (setRole (acl L) role account true)).

Definition revokeRole (L : Ledger) (sender : address) (role : Role)
    (account : address) : Result Ledger :=
  onlyAdmin L sender;;
  Ok (set_acl L (setRole (acl L) role account false)).

Definition renounceRole (L : Ledger) (sender : address) (role : Role)
    (account : address) : Result Ledger :=
  require (account =? sender) "AccessControl: can only renounce roles for self";;
  Ok (set_acl L (setRole (acl L) role account false)).

Definition createContract (L : Ledger) (sender : address) (athlete sponsor : address)
    (contractIPFSHash : string) (totalValue startDate endDate : uint256)
    (paymentToken : address) (arbitrators : list address)
    : Result (Ledger * uint256) :=
  require (hasRole L ATHLETE_ROLE athlete || hasRole L AGENT_ROLE sender)
    "Unauthorized: Only athlete or agent can create";;
  require (hasRole L SPONSOR_ROLE sponsor) "Sponsor must have SPONSOR_ROLE";;
  require (startDate <? endDate) "End date must be after start date";;
  let contractId := contractCount L in
  next ← checked_add (contractCount L) 1;
  let newContract := contractAt L contractId in
  Ok (store (set_contractCount L next) contractId
        {| athlete := athlete; sponsor := sponsor;
           contractIPFSHash := contractIPFSHash; totalValue := totalValue;
           startDate := startDate; endDate := endDate;
           state := ContractState.Draft; paymentToken := paymentToken;
           milestones := milestones newContract; arbitrators := arbitrators;
           updateHistory := updateHistory newContract |},
      contractId).

Definition addMilestones (L : Ledger) (sender : address) (contractId : uint256)
    (descriptions : list string) (amounts deadlines : list uint256)
    : Result Ledger :=
  let c := contractAt L contractId in
  require ((sender =? athlete c) || (sender =? sponsor c)
           || hasRole L AGENT_ROLE sender)
    "Unauthorized";;
  require (ContractState.eqb (state c) ContractState.Draft)
    "Contract not in draft state";;
  require ((length descriptions =? length amounts)%nat
           && (length amounts =? length deadlines)%nat)
    "Arrays length mismatch";;
  '(totalMilestoneAmount, ms) ← pushMilestones descriptions amounts deadlines 0 (milestones c);
  require (totalMilestoneAmount =? totalValue c)
    "Total milestone amounts must match contract value";;
  Ok (store L contractId (set_milestones c ms)).

Definition activateContract (e : Env) (L : Ledger) (sender : address)
    (contractId : uint256) : Result Ledger :=
  let c := contractAt L contractId in
  require (sender =? sponsor c) "Only sponsor can activate contract";;
  require (ContractState.eqb (state c) ContractState.Draft)
    "Contract not in draft state";;
  require (0 <? length (milestones c))%nat "Contract must have milestones";;
  (if negb (paymentToken c =? 0) then
     require (totalValue c <=? allowance e) "Insufficient token allowance"
   else Ok tt);;
  Ok (store L contractId (set_state c ContractState.Active)).

Definition submitMilestone (L : Ledger) (sender : address)
    (contractId milestoneIndex : uint256) (evidenceIPFSHash : string)
    : Result Ledger :=
  let c := contractAt L contractId in
  require (sender =? athlete c) "Only athlete can submit milestone";;
  require (ContractState.eqb (state c) ContractState.Active) "Contract not active";;
  match milestones c !! N.to_nat milestoneIndex with
  | None => Err (Revert "Invalid milestone index")
  | Some milestone =>
      require (MilestoneStatus.eqb (status milestone) MilestoneStatus.Pending)
        "Milestone not pending";;
      Ok (store L contractId
            (set_milestones c
               (<[N.to_nat milestoneIndex :=
                    set_status milestone MilestoneStatus.Completed evidenceIPFSHash]>
                  (milestones c))))
  end.

Definition approveMilestone (e : Env) (L : Ledger) (sender : address)
    (contractId milestoneIndex : uint256) : Result Ledger :=
  let c := contractAt L contractId in
  require (sender =? sponsor c) "Only sponsor can approve milestone";;
  require (ContractState.eqb (state c) ContractState.Active) "Contract not active";;
  match milestones c !! N.to_nat milestoneIndex with
  | None => Err (Revert "Invalid milestone index")
  | Some milestone =>
      require (MilestoneStatus.eqb (status milestone) MilestoneStatus.Completed)
        "Milestone not completed";;
      require (negb (paid milestone)) "Payment already released";;
      let c1 := set_milestones c
                  (<[N.to_nat milestoneIndex := set_paid milestone]> (milestones c)) in
      (* Transfer payment *)
      (if paymentToken c =? 0 then
         (* [transfer] reverts without a reason string when the send fails *)
         require (send_ok e) EmptyString
       else
         require (transferFrom_ok e) "Token transfer failed");;
      (* Check if all milestones are completed and paid *)
      let c2 := if allCompleted c1 then set_state c1 ContractState.Completed else c1 in
      Ok (emitPaymentReleased (store L contractId c2)
            contractId milestoneIndex (amount milestone))
  end.

Definition rejectMilestone (L : Ledger) (sender : address)
    (contractId milestoneIndex : uint256) (reason : string) : Result Ledger :=
  let c := contractAt L contractId in
  require (sender =? sponsor c) "Only sponsor can reject milestone";;
  require (ContractState.eqb (state c) ContractState.Active) "Contract not active";;
  match milestones c !! N.to_nat milestoneIndex with
  | None => Err (Revert "Invalid milestone index")
  | Some milestone =>
      require (MilestoneStatus.eqb (status milestone) MilestoneStatus.Completed)
        "Milestone not completed";;
      require (negb (paid milestone)) "Payment already released";;
      Ok (store L contractId
            (set_milestones c
               (<[N.to_nat milestoneIndex :=
                    set_status milestone MilestoneStatus.Rejected (evidence milestone)]>
                  (milestones c))))
  end.

Definition raiseDispute (L : Ledger) (sender : address) (contractId : uint256)
    (reason : string) : Result Ledger :=
  let c := contractAt L contractId in
  require ((sender =? athlete c) || (sender =? sponsor c))
    "Only athlete or sponsor can raise dispute";;
  require (ContractState.eqb (state c) ContractState.Active) "Contract not active";;
  Ok (store L contractId (set_state c ContractState.Disputed)).

Definition resolveDispute (L : Ledger) (sender : address) (contractId : uint256)
    (athleteFavor : bool) : Result Ledger :=
  let c := contractAt L contractId in
  require (isArbitrator sender c || hasRole L ARBITRATOR_ROLE sender)
    "Only arbitrator can resolve dispute";;
  require (ContractState.eqb (state c) ContractState.Disputed) "Contract not disputed";;
  Ok (store L contractId
        (set_state c (if athleteFavor then ContractState.Active
                      else ContractState.Terminated))).

Definition updateContract (L : Ledger) (sender : address) (contractId : uint256)
    (newContractIPFSHash : string) : Result Ledger :=
  let c := contractAt L contractId in
  require ((sender =? athlete c) || (sender =? sponsor c)
           || hasRole L AGENT_ROLE sender)
    "Unauthorized";;
  Ok (store L contractId
        (set_document c newContractIPFSHash
           (updateHistory c ++ [contractIPFSHash c]))).

End RoleGated.

(** ** Transactions on a deployed ledger *)

Inductive Variant := BasicVariant | RoleGatedVariant.

(** The external entry points.  [SubmitMilestone] is [completeMilestone] in the
    basic variant and [submitMilestone] in the role-gated one; [ReleasePayment]
    is [releaseMilestonePayment], respectively [approveMilestone]. *)
Inductive LedgerCall :=
| CreateContract (athlete sponsor : address) (contractIPFSHash : string)
    (totalValue startDate endDate : uint256) (paymentToken : address)
    (arbitrators : list address)
| AddMilestones (contractId : uint256) (descriptions : list string)
    (amounts deadlines : list uint256)
| ActivateContract (contractId : uint256)
| SubmitMilestone (contractId milestoneIndex : uint256) (evidence : string)
| ReleasePayment (contractId milestoneIndex : uint256)
| RejectMilestone (contractId milestoneIndex : uint256) (reason : string)
| RaiseDispute (contractId : uint256) (reason : string)
| ResolveDispute (contractId : uint256) (athleteFavor : bool)
| UpdateContract (contractId : uint256) (newContractIPFSHash : string)
| GrantRole (role : Role) (account : address)
| RevokeRole (role : Role) (account : address)
| RenounceRole (role : Role) (account : address).

(** A selector the contract does not have: the call reverts with no data. *)
Definition noSuchFunction {A} : Result A := Err (Revert EmptyString).

Definition deploy (v : Variant) (deployer : address) : Ledger :=
  match v with
  | BasicVariant =>
      {| contracts := ∅; contractCount := 0; acl := noRoles; released := [] |}
  | RoleGatedVariant => RoleGated.deploy deployer
  end.

(** One call; the second component is the returned contract id, if any. *)
Definition exec (v : Variant) (e : Env) (L : Ledger) (sender : address)
    (c : LedgerCall) : Result (Ledger * option uint256) :=
  let noValue (r : Result Ledger) := L' ← r; Ok (L', None) in
  match v, c with
  | BasicVariant, CreateContract a s h tv sd ed pt arbs =>
      '(L', id) ← Basic.createContract L a s h tv sd ed pt arbs; Ok (L', Some id)
  | RoleGatedVariant, CreateContract a s h tv sd ed pt arbs =>
      '(L', id) ← RoleGated.createContract L sender a s h tv sd ed pt arbs;
      Ok (L', Some id)
  | BasicVariant, AddMilestones id ds amts ts =>
      noValue (Basic.addMilestones L sender id ds amts ts)
  | RoleGatedVariant, AddMilestones id ds amts ts =>
      noValue (RoleGated.addMilestones L sender id ds amts ts)
  | BasicVariant, ActivateContract id => noValue (Basic.activateContract L sender id)
  | RoleGatedVariant, ActivateContract id =>
      noValue (RoleGated.activateContract e L sender id)
  | BasicVariant, SubmitMilestone id i ev =>
      noValue (Basic.completeMilestone L sender id i ev)
  | RoleGatedVariant, SubmitMilestone id i ev =>
      noValue (RoleGated.submitMilestone L sender id i ev)
  | BasicVariant, ReleasePayment id i =>
      noValue (Basic.releaseMilestonePayment e L sender id i)
  | RoleGatedVariant, ReleasePayment id i =>
      noValue (RoleGated.approveMilestone e L sender id i)
  | BasicVariant, RejectMilestone _ _ _ => noSuchFunction
  | RoleGatedVariant, RejectMilestone id i r =>
      noValue (RoleGated.rejectMilestone L sender id i r)
  | BasicVariant, RaiseDispute id r => noValue (Basic.raiseDispute L sender id r)
  | RoleGatedVariant, RaiseDispute id r =>
      noValue (RoleGated.raiseDispute L sender id r)
  | BasicVariant, ResolveDispute id f => noValue (Basic.resolveDispute L sender id f)
  | RoleGatedVariant, ResolveDispute id f =>
      noValue (RoleGated.resolveDispute L sender id f)
  | BasicVariant, UpdateContract id h => noValue (Basic.updateContract L sender id h)
  | RoleGatedVariant, UpdateContract id h =>
      noValue (RoleGated.updateContract L sender id h)
  | BasicVariant, (GrantRole _ _ | RevokeRole _ _ | RenounceRole _ _) => noSuchFunction
  | RoleGatedVariant, GrantRole r a => noValue (RoleGated.grantRole L sender r a)
  | RoleGatedVariant, RevokeRole r a => noValue (RoleGated.revokeRole L sender r a)
  | RoleGatedVariant, RenounceRole r a => noValue (RoleGated.renounceRole L sender r a)
  end.

Record Tx := { tx_env : Env; tx_sender : address; tx_call : LedgerCall }.

(** A transaction is sent by an account; no account has the zero address. *)
Definition validTx (t : Tx) : Prop := tx_sender t ≠ 0.

Definition step (v : Variant) (L : Ledger) (t : Tx) : Result (Ledger * option uint256) :=
  exec v (tx_env t) L (tx_sender t) (tx_call t).

(** Run a list of transactions in order; a reverted one leaves the storage as
    it was.  The second component lists the contract ids returned by the
    successful [createContract] calls, oldest first. *)
Fixpoint run (v : Variant) (L : Ledger) (txs : list Tx) : Ledger * list uint256 :=
  match txs with
  | [] => (L, [])
  | t :: rest =>
      match step v L t with
      | Ok (L', ret) =>
          let '(Lf, ids) := run v L' rest in (Lf, option_list ret ++ ids)
      | Err _ => run v L rest
      end
  end.

(** Storages that a deployed ledger can be in. *)
Inductive reachable (v : Variant) : Ledger → Prop :=
| reachable_deploy deployer : deployer ≠ 0 → reachable v (deploy v deployer)
| reachable_step L t L' ret :
    reachable v L → validTx t → step v L t = Ok (L', ret) → reachable v L'.

(** Reading one milestone's [paid] flag ([false] where there is no milestone). *)
Definition paidIn (ms : list Milestone) (i : nat) : bool :=
  match ms !! i with
  | Some m => paid m
  | None => false
  end.

Definition isPaid (L : Ledger) (contractId milestoneIndex : uint256) : bool :=
  paidIn (milestones (contractAt L contractId)) (N.to_nat milestoneIndex).

(** The milestone that a [PaymentReleased] event is about. *)
Definition paidMilestone (ev : PaymentReleased) : uint256 * uint256 :=
  (pr_contractId ev, pr_milestoneIndex ev).

(** How one successful call changes the milestone list of contract [id]. *)
Inductive MilestonesChange (c : LedgerCall) (id : uint256)
    (ms ms' : list Milestone) : Prop :=
| unchanged : ms' = ms → MilestonesChange c id ms ms'
| pushed (new : list Milestone) :
    (∃ ds amts ts, c = AddMilestones id ds amts ts) →
    ms' = ms ++ new →
    Forall (λ m, paid m = false ∧ status m = MilestoneStatus.Pending) new →
    MilestonesChange c id ms ms'
| restatused (j : nat) (m : Milestone) (st : MilestoneStatus.t) (ev : string) :
    ms !! j = Some m → ms' = <[j := set_status m st ev]> ms →
    MilestonesChange c id ms ms'
| paidOut (i : uint256) (m : Milestone) :
    c = ReleasePayment id i →
    ms !! N.to_nat i = Some m → paid m = false →
    status m = MilestoneStatus.Completed →
    ms' = <[N.to_nat i := set_paid m]> ms →
    MilestonesChange c id ms ms'.

(** How one successful call changes the lifecycle state of contract [id]. *)
Inductive StateChange (v : Variant) (L : Ledger) (c : LedgerCall) (id : uint256)
    (st st' : ContractState.t) : Prop :=
| state_kept : st' = st → StateChange v L c id st st'
| state_created :
    id = contractCount L → st' = ContractState.Draft → StateChange v L c id st st'
| state_activated :
    c = ActivateContract id → st = ContractState.Draft →
    st' = ContractState.Active → StateChange v L c id st st'
| state_disputed :
    st = ContractState.Active → st' = ContractState.Disputed →
    StateChange v L c id st st'
| state_resolved :
    st = ContractState.Disputed →
    st' = ContractState.Active ∨ st' = ContractState.Terminated →
    StateChange v L c id st st'
| state_completed (i : uint256) :
    v = RoleGatedVariant → c = ReleasePayment id i →
    st = ContractState.Active → st' = ContractState.Completed →
    StateChange v L c id st st'.

(** A quiet call: no value attached, transfers succeed, and the sponsor has
    approved 1000 tokens to the ledger. *)
Definition env0 : Env :=
  {| msg_value := 0; send_ok := true; transferFrom_ok := true; allowance := 1000 |}.

(** The same with [value] wei attached, for the payable
    [releaseMilestonePayment]. *)
Definition sending (value : uint256) : Env :=
  {| msg_value := value; send_ok := true; transferFrom_ok := true;
     allowance := 1000 |}.

(** ** DisputeResolution *)

Module DisputeResolution.

Record Dispute := {
  contractId : uint256;
  initiator : address;
  evidenceIPFSHash : string;
  reason : string;
  timestamp : uint256;
  resolved : bool;
  athleteFavor : bool;
  votedArbitrators : list address;
  arbitratorVotes : gmap N bool;  (* true for athlete favor, false for sponsor favor *)
  athleteVotes : uint256;
  sponsorVotes : uint256
}.

Definition emptyDispute : Dispute := {|
  contractId := 0; initiator := 0; evidenceIPFSHash := EmptyString;
  reason := EmptyString; timestamp := 0; resolved := false;
  athleteFavor := false; votedArbitrators := []; arbitratorVotes := ∅;
  athleteVotes := 0; sponsorVotes := 0
|}.

Record Storage := {
  disputes : gmap N Dispute;
  disputeCount : uint256;
  disputeIdOf : gmap N N;
  roles : RoleTable
}.

Definition disputeAt (D : Storage) (disputeId : uint256) : Dispute :=
  default emptyDispute (disputes D !! disputeId).

Definition storeDispute (D : Storage) (disputeId : uint256) (d : Dispute) := {|
  disputes := <[disputeId := d]> (disputes D);
  disputeCount := disputeCount D; disputeIdOf := disputeIdOf D; roles := roles D
|}.

Definition set_roles (D : Storage) (t : RoleTable) := {|
  disputes := disputes D; disputeCount := disputeCount D;
  disputeIdOf := disputeIdOf D; roles := t
|}.

(** The constructor: the deployer becomes admin. *)
Definition deploy (deployer : address) : Storage := {|
  disputes := ∅; disputeCount := 0; disputeIdOf := ∅;
  roles := setRole noRoles DEFAULT_ADMIN_ROLE deployer true
|}.

Section Deployment.
(** The variant of the ledger this engine was deployed against, and the
    engine's own address: it is the [msg.sender] of its calls into the
    ledger. *)
Context (v : Variant) (this : address).

Definition ledger_raiseDispute (L : Ledger) (id : uint256) (why : string)
    : Result Ledger :=
  match v with
  | BasicVariant => Basic.raiseDispute L this id why
  | RoleGatedVariant => RoleGated.raiseDispute L this id why
  end.

Definition ledger_resolveDispute (L : Ledger) (id : uint256) (favor : bool)
    : Result Ledger :=
  match v with
  | BasicVariant => Basic.resolveDispute L this id favor
  | RoleGatedVariant => RoleGated.resolveDispute L this id favor
  end.

Definition createDispute (L : Ledger) (D : Storage) (sender : address)
    (now : uint256) (id : uint256) (evidence why : string)
    : Result (Ledger * Storage * uint256) :=
  let details := getContractDetails L id in
  require ((sender =? d_athlete details) || (sender =? d_sponsor details))
    "Only athlete or sponsor can create dispute";;
  require (negb (ContractState.eqb (d_state details) ContractState.Disputed))
    "Dispute already exists";;
  require (negb (ContractState.eqb (d_state details) ContractState.Terminated))
    "Contract already terminated";;
  (* Raise dispute in athlete contract *)
  L' ← ledger_raiseDispute L id why;
  let disputeId := disputeCount D in
  next ← checked_add (disputeCount D) 1;
  let dispute := disputeAt D disputeId in
  let D' := {|
    disputes := <[disputeId := {|
        contractId := id; initiator := sender; evidenceIPFSHash := evidence;
        reason := why; timestamp := now; resolved := false;
        athleteFavor := athleteFavor dispute;
        votedArbitrators := votedArbitrators dispute;
        arbitratorVotes := arbitratorVotes dispute;
        athleteVotes := athleteVotes dispute;
        sponsorVotes := sponsorVotes dispute |}]> (disputes D);
    disputeCount := next;
    disputeIdOf := <[id := disputeId]> (disputeIdOf D);
    roles := roles D |} in
  Ok (L', D', disputeId).

Definition submitEvidence (L : Ledger) (D : Storage) (sender : address)
    (disputeId : uint256) (evidence : string) : Result unit :=
  let dispute := disputeAt D disputeId in
  let details := getContractDetails L (contractId dispute) in
  require ((sender =? d_athlete details) || (sender =? d_sponsor details))
    "Only athlete or sponsor can submit evidence";;
  require (negb (resolved dispute)) "Dispute already resolved".

(** Resolve dispute based on votes (internal). *)
Definition resolveDispute (L : Ledger) (D : Storage) (disputeId : uint256)
    : Result (Ledger * Storage) :=
  let dispute := disputeAt D disputeId in
  require (negb (resolved dispute)) "Dispute already resolved";;
  let favor := sponsorVotes dispute <? athleteVotes dispute in
  let dispute' := {|
    contractId := contractId dispute; initiator := initiator dispute;
    evidenceIPFSHash := evidenceIPFSHash dispute; reason := reason dispute;
    timestamp := timestamp dispute; resolved := true; athleteFavor := favor;
    votedArbitrators := votedArbitrators dispute;
    arbitratorVotes := arbitratorVotes dispute;
    athleteVotes := athleteVotes dispute;
    sponsorVotes := sponsorVotes dispute |} in
  (* Resolve dispute in athlete contract *)
  L' ← ledger_resolveDispute L (contractId dispute) favor;
  Ok (L', storeDispute D disputeId dispute').

(** The vote as recorded on the dispute, before the majority check. *)
Definition recordVote (dispute : Dispute) (sender : address) (favor : bool)
    : Result Dispute :=
  a ← (if favor then checked_add (athleteVotes dispute) 1
       else Ok (athleteVotes dispute));
  s ← (if favor then Ok (sponsorVotes dispute)
       else checked_add (sponsorVotes dispute) 1);
  Ok {| contractId := contractId dispute; initiator := initiator dispute;
        evidenceIPFSHash := evidenceIPFSHash dispute; reason := reason dispute;
        timestamp := timestamp dispute; resolved := resolved dispute;
        athleteFavor := athleteFavor dispute;
        votedArbitrators := votedArbitrators dispute ++ [sender];
        arbitratorVotes := <[sender := favor]> (arbitratorVotes dispute);
        athleteVotes := a; sponsorVotes := s |}.

(** The majority test: a tally above half of the votes cast so far. *)
Definition hasMajority (dispute : Dispute) : bool :=
  let half := N.of_nat (length (votedArbitrators dispute)) / 2 in
  (half <? athleteVotes dispute) || (half <? sponsorVotes dispute).

Definition voteOnDispute (L : Ledger) (D : Storage) (sender : address)
    (disputeId : uint256) (favor : bool) : Result (Ledger * Storage) :=
  require (roles D ARBITRATOR_ROLE sender) "Only arbitrator can vote";;
  let dispute := disputeAt D disputeId in
  require (negb (resolved dispute)) "Dispute already resolved";;
  (* Check if arbitrator already voted *)
  require (forallb (λ a, negb (a =? sender)) (votedArbitrators dispute))
    "Arbitrator already voted";;
  (* Record vote *)
  dispute' ← recordVote dispute sender favor;
  let D' := storeDispute D disputeId dispute' in
  (* Check if we have a majority *)
  if hasMajority dispute' then resolveDispute L D' disputeId else Ok (L, D').

Definition forceResolveDispute (L : Ledger) (D : Storage) (sender : address)
    (disputeId : uint256) (favor : bool) : Result (Ledger * Storage) :=
  require (roles D DEFAULT_ADMIN_ROLE sender) "Only admin can force resolve";;
  let dispute := disputeAt D disputeId in
  require (negb (resolved dispute)) "Dispute already resolved";;
  let dispute' := {|
    contractId := contractId dispute; initiator := initiator dispute;
    evidenceIPFSHash := evidenceIPFSHash dispute; reason := reason dispute;
    timestamp := timestamp dispute; resolved := true; athleteFavor := favor;
    votedArbitrators := votedArbitrators dispute;
    arbitratorVotes := arbitratorVotes dispute;
    athleteVotes := athleteVotes dispute;
    sponsorVotes := sponsorVotes dispute |} in
  L' ← ledger_resolveDispute L (contractId dispute) favor;
  Ok (L', storeDispute D disputeId dispute').

(** AccessControl of the engine. *)
Definition grantRole (D : Storage) (sender : address) (role : Role)
    (account : address) : Result Storage :=
  require (roles D DEFAULT_ADMIN_ROLE sender) "AccessControl: account is missing role";;
  Ok (set_roles D (setRole (roles D) role account true)).

Definition revokeRole (D : Storage) (sender : address) (role : Role)
    (account : address) : Result Storage :=
  require (roles D DEFAULT_ADMIN_ROLE sender) "AccessControl: account is missing role";;
  Ok (set_roles D (setRole (roles D) role account false)).

Definition renounceRole (D : Storage) (sender : address) (role : Role)
    (account : address) : Result Storage :=
  require (account =? sender) "AccessControl: can only renounce roles for self";;
  Ok (set_roles D (setRole (roles D) role account false)).

(** *** Transactions on the pair ledger + engine *)

Inductive Call :=
| OnLedger (e : Env) (c : LedgerCall)
| CreateDispute (now : uint256) (id : uint256) (evidence why : string)
| SubmitEvidence (disputeId : uint256) (evidence : string)
| VoteOnDispute (disputeId : uint256) (favor : bool)
| ForceResolveDispute (disputeId : uint256) (favor : bool)
| DGrantRole (role : Role) (account : address)
| DRevokeRole (role : Role) (account : address)
| DRenounceRole (role : Role) (account : address).

Record World := { ledger : Ledger; engine : Storage }.

Definition withEngine (W : World) (D : Storage) : World :=
  {| ledger := ledger W; engine := D |}.

(** One call; the second component is the dispute id returned, if any. *)
Definition dispatch (W : World) (sender : address) (c : Call)
    : Result (World * option uint256) :=
  match c with
  | OnLedger e lc =>
      '(L', _) ← exec v e (ledger W) sender lc;
      Ok ({| ledger := L'; engine := engine W |}, None)
  | CreateDispute now id evidence why =>
      '(L', D', disputeId) ← createDispute (ledger W) (engine W) sender now id evidence why;
      Ok ({| ledger := L'; engine := D' |}, Some disputeId)
  | SubmitEvidence disputeId evidence =>
      submitEvidence (ledger W) (engine W) sender disputeId evidence;;
      Ok (W, None)
  | VoteOnDispute disputeId favor =>
      '(L', D') ← voteOnDispute (ledger W) (engine W) sender disputeId favor;
      Ok ({| ledger := L'; engine := D' |}, None)
  | ForceResolveDispute disputeId favor =>
      '(L', D') ← forceResolveDispute (ledger W) (engine W) sender disputeId favor;
      Ok ({| ledger := L'; engine := D' |}, None)
  | DGrantRole r a =>
      D' ← grantRole (engine W) sender r a; Ok (withEngine W D', None)
  | DRevokeRole r a =>
      D' ← revokeRole (engine W) sender r a; Ok (withEngine W D', None)
  | DRenounceRole r a =>
      D' ← renounceRole (engine W) sender r a; Ok (withEngine W D', None)
  end.

(** Run calls in order, a reverted one changing nothing; the dispute ids
    returned by the successful [createDispute] calls, oldest first. *)
Fixpoint run (W : World) (txs : list (address * Call)) : World * list uint256 :=
  match txs with
  | [] => (W, [])
  | (sender, c) :: rest =>
      match dispatch W sender c with
      | Ok (W', ret) =>
          let '(Wf, ids) := run W' rest in (Wf, option_list ret ++ ids)
      | Err _ => run W rest
      end
  end.
End Deployment.
End DisputeResolution.

(** ** SponsorshipNFT *)

Module SponsorshipNFT.

(** [owners] is ERC721's [_owners]; balances and the enumeration indexes of
    ERC721Enumerable are functions of it and are left out. *)
Record Storage := {
  _tokenIds : uint256;            (* Counters.Counter *)
  contractIdOf : gmap N N;        (* token id -> contract id *)
  tokenIdOf : gmap N N;           (* contract id -> token id *)
  owners : gmap N address;
  tokenURIs : gmap N string;
  roles : RoleTable
}.

Definition contractIdOfAt (S : Storage) (tokenId : uint256) : uint256 :=
  default 0 (contractIdOf S !! tokenId).

Definition tokenIdOfAt (S : Storage) (id : uint256) : uint256 :=
  default 0 (tokenIdOf S !! id).

Definition ownerAt (S : Storage) (tokenId : uint256) : address :=
  default 0 (owners S !! tokenId).

(** ERC721 [_exists]: the token has a non-zero owner. *)
Definition _exists (S : Storage) (tokenId : uint256) : bool :=
  negb (ownerAt S tokenId =? 0).

(** The constructor grants the deployer the admin and the minter role. *)
Definition deploy (deployer : address) : Storage := {|
  _tokenIds := 0; contractIdOf := ∅; tokenIdOf := ∅; owners := ∅;
  tokenURIs := ∅;
  roles := setRole (setRole noRoles DEFAULT_ADMIN_ROLE deployer true)
             MINTER_ROLE deployer true
|}.

(** Counters.increment: [unchecked { counter._value += 1; }]. *)
Definition increment (counter : uint256) : uint256 :=
  (counter + 1) mod 2 ^ 256.

Definition mintSponsorshipNFT (S : Storage) (sender : address) (to : address)
    (id : uint256) (tokenURI : string) (athlete sponsor : address)
    : Result (Storage * uint256) :=
  require (roles S MINTER_ROLE sender) "Caller is not a minter";;
  require (tokenIdOfAt S id =? 0) "NFT already minted for this contract";;
  let counter := increment (_tokenIds S) in
  let newTokenId := counter in
  (* ERC721._mint *)
  require (negb (to =? 0)) "ERC721: mint to the zero address";;
  require (negb (_exists S newTokenId)) "ERC721: token already minted";;
  Ok ({| _tokenIds := counter;
         contractIdOf := <[newTokenId := id]> (contractIdOf S);
         tokenIdOf := <[id := newTokenId]> (tokenIdOf S);
         owners := <[newTokenId := to]> (owners S);
         tokenURIs := <[newTokenId := tokenURI]> (tokenURIs S);
         roles := roles S |},
      newTokenId).

Definition recordRoyaltyPayment (S : Storage) (sender : address)
    (tokenId : uint256) (recipient : address) (amt : uint256) : Result unit :=
  require (_exists S tokenId) "Token does not exist";;
  require (sender =? ownerAt S tokenId) "Only token owner can record royalties".

Definition getContractId (S : Storage) (tokenId : uint256) : Result uint256 :=
  require (_exists S tokenId) "Token does not exist";;
  Ok (contractIdOfAt S tokenId).

(** ERC721 [transferFrom]; whether the caller is an approved operator of the
    token is given with the call. *)
Definition transferFrom (S : Storage) (sender : address) (approved : bool)
    (from to : address) (tokenId : uint256) : Result Storage :=
  require (_exists S tokenId) "ERC721: invalid token ID";;
  require ((sender =? ownerAt S tokenId) || approved)
    "ERC721: caller is not token owner or approved";;
  require (ownerAt S tokenId =? from) "ERC721: transfer from incorrect owner";;
  require (negb (to =? 0)) "ERC721: transfer to the zero address";;
  Ok {| _tokenIds := _tokenIds S; contractIdOf := contractIdOf S;
        tokenIdOf := tokenIdOf S; owners := <[tokenId := to]> (owners S);
        tokenURIs := tokenURIs S; roles := roles S |}.

Definition set_roles (S : Storage) (t : RoleTable) := {|
  _tokenIds := _tokenIds S; contractIdOf := contractIdOf S;
  tokenIdOf := tokenIdOf S; owners := owners S; tokenURIs := tokenURIs S;
  roles := t
|}.

Definition grantRole (S : Storage) (sender : address) (role : Role)
    (account : address) : Result Storage :=
  require (roles S DEFAULT_ADMIN_ROLE sender) "AccessControl: account is missing role";;
  Ok (set_roles S (setRole (roles S) role account true)).

Definition revokeRole (S : Storage) (sender : address) (role : Role)
    (account : address) : Result Storage :=
  require (roles S DEFAULT_ADMIN_ROLE sender) "AccessControl: account is missing role";;
  Ok (set_roles S (setRole (roles S) role account false)).

Definition renounceRole (S : Storage) (sender : address) (role : Role)
    (account : address) : Result Storage :=
  require (account =? sender) "AccessControl: can only renounce roles for self";;
  Ok (set_roles S (setRole (roles S) role account false)).

Inductive Call :=
| MintSponsorshipNFT (to : address) (id : uint256) (tokenURI : string)
    (athlete sponsor : address)
| RecordRoyaltyPayment (tokenId : uint256) (recipient : address) (amt : uint256)
| TransferFrom (approved : bool) (from to : address) (tokenId : uint256)
| GrantRole (role : Role) (account : address)
| RevokeRole (role : Role) (account : address)
| RenounceRole (role : Role) (account : address).

(** One call; the second component is the token id returned, if any. *)
Definition dispatch (S : Storage) (sender : address) (c : Call)
    : Result (Storage * option uint256) :=
  match c with
  | MintSponsorshipNFT to id uri a s =>
      '(S', tokenId) ← mintSponsorshipNFT S sender to id uri a s;
      Ok (S', Some tokenId)
  | RecordRoyaltyPayment tokenId r amt =>
      recordRoyaltyPayment S sender tokenId r amt;; Ok (S, None)
  | TransferFrom approved from to tokenId =>
      S' ← transferFrom S sender approved from to tokenId; Ok (S', None)
  | GrantRole r a => S' ← grantRole S sender r a; Ok (S', None)
  | RevokeRole r a => S' ← revokeRole S sender r a; Ok (S', None)
  | RenounceRole r a => S' ← renounceRole S sender r a; Ok (S', None)
  end.

(** Run calls in order; the token ids returned by the successful mints. *)
Fixpoint run (S : Storage) (txs : list (address * Call)) : Storage * list uint256 :=
  match txs with
  | [] => (S, [])
  | (sender, c) :: rest =>
      match dispatch S sender c with
      | Ok (S', ret) =>
          let '(Sf, ids) := run S' rest in (Sf, option_list ret ++ ids)
      | Err _ => run S rest
      end
  end.

End SponsorshipNFT.

(** ** Error kinds

    The code aborts with reason strings; the specification (section 7) groups
    failures into kinds.  The table assigns each reason string of the four
    contracts to the kind whose description in the specification it meets. *)
Definition reasonKinds : list (string * ErrorKind) := [
  (* AthleteContract *)
  ("End date must be after start date"%string, InvalidInput);
  ("Invalid addresses"%string, InvalidInput);
  ("Unauthorized: Only athlete or agent can create"%string, Unauthorized);
  ("Sponsor must have SPONSOR_ROLE"%string, Unauthorized);
  ("Only athlete or sponsor can modify"%string, Unauthorized);
  ("Unauthorized"%string, Unauthorized);
  ("Contract not in draft state"%string, InvalidState);
  ("Arrays length mismatch"%string, InvalidInput);
  ("Total milestone amounts must match contract value"%string, InvalidInput);
  ("Only athlete or sponsor can activate"%string, Unauthorized);
  ("Only sponsor can activate contract"%string, Unauthorized);
  ("No milestones defined"%string, InvalidState);
  ("Contract must have milestones"%string, InvalidState);
  ("Insufficient token allowance"%string, InvalidState);
  ("Only athlete can complete milestone"%string, Unauthorized);
  ("Only athlete can submit milestone"%string, Unauthorized);
  ("Contract not active"%string, InvalidState);
  ("Invalid milestone index"%string, InvalidInput);
  ("Invalid milestone status"%string, InvalidState);
  ("Milestone not pending"%string, InvalidState);
  ("Only sponsor can release payment"%string, Unauthorized);
  ("Only sponsor can approve milestone"%string, Unauthorized);
  ("Only sponsor can reject milestone"%string, Unauthorized);
  ("Milestone not completed"%string, InvalidState);
  ("Payment already released"%string, InvalidState);
  ("Incorrect payment amount"%string, InvalidInput);
  ("ETH transfer failed"%string, TransferFailed);
  ("Token transfer failed"%string, TransferFailed);
  ("Only athlete or sponsor can raise dispute"%string, Unauthorized);
  ("Only arbitrator can resolve dispute"%string, Unauthorized);
  ("Contract not disputed"%string, InvalidState);
  ("Only athlete or sponsor can update"%string, Unauthorized);
  (* DisputeResolution *)
  ("Only athlete or sponsor can create dispute"%string, Unauthorized);
  ("Dispute already exists"%string, AlreadyExists);
  ("Contract already terminated"%string, InvalidState);
  ("Only athlete or sponsor can submit evidence"%string, Unauthorized);
  ("Dispute already resolved"%string, InvalidState);
  ("Only arbitrator can vote"%string, Unauthorized);
  ("Arbitrator already voted"%string, AlreadyExists);
  ("Only admin can force resolve"%string, Unauthorized);
  (* SponsorshipNFT *)
  ("Caller is not a minter"%string, Unauthorized);
  ("NFT already minted for this contract"%string, AlreadyExists);
  ("Token does not exist"%string, NotFound);
  ("Only token owner can record royalties"%string, Unauthorized)
].

Definition kindOf (f : Failure) : option ErrorKind :=
  match f with
  | Revert r => snd <$> List.find (λ entry, String.eqb r entry.1) reasonKinds
  | Panic _ => None
  end.

(** ** Authorisation predicates used in the statements *)

(** Who may add milestones to a contract or amend its document: the parties,
    and in the role-gated variant any agent. *)
Definition mayUpdate (v : Variant) (L : Ledger) (sender : address) (id : uint256) : bool :=
  let c := contractAt L id in
  match v with
  | BasicVariant => (sender =? athlete c) || (sender =? sponsor c)
  | RoleGatedVariant =>
      (sender =? athlete c) || (sender =? sponsor c) || hasRole L AGENT_ROLE sender
  end.

(** Who may activate: either party in the basic variant, the sponsor alone in
    the role-gated one. *)
Definition mayActivate (v : Variant) (L : Ledger) (sender : address) (id : uint256) : bool :=
  let c := contractAt L id in
  match v with
  | BasicVariant => (sender =? athlete c) || (sender =? sponsor c)
  | RoleGatedVariant => sender =? sponsor c
  end.

(** The allowance condition of the role-gated [activateContract]; the basic
    variant has none. *)
Definition allowanceSuffices (v : Variant) (e : Env) (L : Ledger) (id : uint256) : bool :=
  let c := contractAt L id in
  match v with
  | BasicVariant => true
  | RoleGatedVariant => (paymentToken c =? 0) || (totalValue c <=? allowance e)
  end.

(** The reason with which each variant rejects a release that is not sent by
    the sponsor. *)
Definition onlySponsorReason (v : Variant) : string :=
  match v with
  | BasicVariant => "Only sponsor can release payment"
  | RoleGatedVariant => "Only sponsor can approve milestone"
  end.

(** The reason with which each variant rejects an activation by somebody else. *)
Definition onlyActivatorReason (v : Variant) : string :=
  match v with
  | BasicVariant => "Only athlete or sponsor can activate"
  | RoleGatedVariant => "Only sponsor can activate contract"
  end.

(** ** The token registry's invariant

    Tokens are numbered from 1 up to the counter, and the two mappings between
    token ids and contract ids are inverse to each other on them. *)
Definition tokensConsistent (S : SponsorshipNFT.Storage) : Prop :=
  (∀ t, SponsorshipNFT._exists S t = true ↔ 1 ≤ t ≤ SponsorshipNFT._tokenIds S)
  ∧ (∀ t, 1 ≤ t ≤ SponsorshipNFT._tokenIds S →
          SponsorshipNFT.tokenIdOfAt S (SponsorshipNFT.contractIdOfAt S t) = t).

(** [start; start + 1; ...], [len] of them. *)
Fixpoint countFrom (start : N) (len : nat) : list N :=
  match len with
  | O => []
  | S n => start :: countFrom (start + 1) n
  end.

(** The fields that [getContractDetails] reports, all zero. *)
Definition blankHeader (c : SponsorshipContract) : Prop :=
  athlete c = 0 ∧ sponsor c = 0 ∧ totalValue c = 0 ∧ startDate c = 0
  ∧ endDate c = 0 ∧ state c = ContractState.Draft ∧ paymentToken c = 0.

Definition sumAmounts (ms : list Milestone) : N :=
  foldr (λ m acc, amount m + acc) 0 ms.

(** ** Sample deployments used to exercise the statements *)

Module Sample.
Definition admin : address := 1.
Definition anAthlete : address := 0xA1.
Definition aSponsor : address := 0xB2.
Definition anAgent : address := 0xC3.
Definition arbiter1 : address := 0xD1.
Definition arbiter2 : address := 0xD2.
Definition arbiter3 : address := 0xD3.
Definition engineAddress : address := 0xE0.
Definition aToken : address := 0x70.

Definition tx (sender : address) (c : LedgerCall) : Tx :=
  {| tx_env := env0; tx_sender := sender; tx_call := c |}.

(** The basic samples pay in the native currency, the sponsor attaching the
    amount to [releaseMilestonePayment]; the role-gated samples pay in a token,
    [approveMilestone] not being payable. *)
Definition paymentAsset (v : Variant) : address :=
  match v with BasicVariant => 0 | RoleGatedVariant => aToken end.

(** The sponsor releases the payment [amt] of milestone [i] of contract 0. *)
Definition release (v : Variant) (i amt : uint256) : Tx :=
  {| tx_env := match v with BasicVariant => sending amt | RoleGatedVariant => env0 end;
     tx_sender := aSponsor; tx_call := ReleasePayment 0 i |}.

(** Registration of the parties on the role-gated ledger. *)
Definition registration : list Tx :=
  [ tx admin (GrantRole ATHLETE_ROLE anAthlete);
    tx admin (GrantRole SPONSOR_ROLE aSponsor);
    tx admin (GrantRole AGENT_ROLE anAgent) ].

(** A contract of value 100. *)
Definition create100 (v : Variant) : Tx :=
  tx anAthlete
    (CreateContract anAthlete aSponsor "QmContract" 100 1000 2000 (paymentAsset v)
       [arbiter1]).

(** The contract just created: no milestone yet. *)
Definition created (v : Variant) : Ledger :=
  (run v (deploy v admin) (registration ++ [ create100 v ])).1.

(** value = 100, one milestone of 100, still Draft. *)
Definition drafted (v : Variant) : Ledger :=
  (run v (deploy v admin)
     (registration ++
      [ create100 v; tx aSponsor (AddMilestones 0 ["final"%string] [100] [1500]) ])).1.

(** Activated by the sponsor. *)
Definition activated (v : Variant) : Ledger :=
  (run v (drafted v) [ tx aSponsor (ActivateContract 0) ]).1.

(** The single milestone delivered by the athlete. *)
Definition delivered (v : Variant) : Ledger :=
  (run v (activated v) [ tx anAthlete (SubmitMilestone 0 0 "QmEvidence") ]).1.

(** ... and paid by the sponsor. *)
Definition settled (v : Variant) : Ledger :=
  (run v (delivered v) [ release v 0 100 ]).1.

(** The end-to-end scenario of the specification, up to the first payment:
    milestones 40 and 60, the first delivered and paid. *)
Definition firstOfTwoPaid (v : Variant) : Ledger :=
  (run v (deploy v admin)
     (registration ++
      [ create100 v;
        tx aSponsor (AddMilestones 0 ["first"%string; "second"%string] [40; 60] [1010; 1020]);
        tx aSponsor (ActivateContract 0);
        tx anAthlete (SubmitMilestone 0 0 "QmFirst");
        release v 0 40 ])).1.

(** ... and to its end: the second delivered and paid. *)
Definition bothPaid (v : Variant) : Ledger :=
  (run v (firstOfTwoPaid v)
     [ tx anAthlete (SubmitMilestone 0 1 "QmSecond"); release v 1 60 ]).1.

(** An agent adds a zero-amount milestone to an id that was never created. *)
Definition phantomMilestone : Ledger :=
  (run RoleGatedVariant (deploy RoleGatedVariant admin)
     [ tx admin (GrantRole AGENT_ROLE anAgent);
       tx anAgent (AddMilestones 5 ["ghost"%string] [0] [0]) ]).1.

(** *** Dispute engine *)

(** Three arbitrators registered on a freshly deployed engine. *)
Definition arbitratorsRegistered : list (address * DisputeResolution.Call) :=
  [ (admin, DisputeResolution.DGrantRole ARBITRATOR_ROLE arbiter1);
    (admin, DisputeResolution.DGrantRole ARBITRATOR_ROLE arbiter2);
    (admin, DisputeResolution.DGrantRole ARBITRATOR_ROLE arbiter3) ].

(** Nothing but the registration has happened: no contract, no dispute. *)
Definition freshWorld (v : Variant) : DisputeResolution.World :=
  (DisputeResolution.run v engineAddress
     {| DisputeResolution.ledger := deploy v admin;
        DisputeResolution.engine := DisputeResolution.deploy admin |}
     arbitratorsRegistered).1.

(** A basic ledger whose contract 0 names the engine as sponsor and as
    arbitrator (the engine is the [msg.sender] of [raiseDispute] and of
    [resolveDispute]); the athlete has opened dispute 0 on it. *)
Definition openDispute : DisputeResolution.World :=
  (DisputeResolution.run BasicVariant engineAddress (freshWorld BasicVariant)
     [ (anAthlete, DisputeResolution.OnLedger env0
          (CreateContract anAthlete engineAddress "QmContract" 100 1000 2000 0
             [engineAddress]));
       (anAthlete, DisputeResolution.OnLedger env0 (AddMilestones 0 ["final"%string] [100] [1500]));
       (anAthlete, DisputeResolution.OnLedger env0 (ActivateContract 0));
       (anAthlete, DisputeResolution.CreateDispute 1200 0 "QmClaim" "late payment") ]).1.

(** Two of the arbitrators vote on it: for the athlete, then for the sponsor. *)
Definition afterSplitVote : DisputeResolution.World :=
  (DisputeResolution.run BasicVariant engineAddress openDispute
     [ (arbiter1, DisputeResolution.VoteOnDispute 0 true);
       (arbiter2, DisputeResolution.VoteOnDispute 0 false) ]).1.

(** *** Token registry *)

Definition mint (id : uint256) : address * SponsorshipNFT.Call :=
  (admin, SponsorshipNFT.MintSponsorshipNFT aSponsor id "ipfs://deal" anAthlete aSponsor).

Definition twoTokens : SponsorshipNFT.Storage :=
  (SponsorshipNFT.run (SponsorshipNFT.deploy admin) [mint 0; mint 1]).1.
End Sample.

(** * The rest of the contracts

    Definitions for the properties of the second part: what a call may do to
    one stored milestone, the reads of the dispute engine, and the two
    variants of AthleteChainFactory. *)

(** ** Milestones, one at a time *)

(** What one successful call may do to a milestone that is already stored. *)
Inductive MilestoneMove (v : Variant) (m m' : Milestone) : Prop :=
| move_none : m' = m → MilestoneMove v m m'
| move_submitted (ev : string) :
    status m = MilestoneStatus.Pending →
    m' = set_status m MilestoneStatus.Completed ev → MilestoneMove v m m'
| move_rejected :
    v = RoleGatedVariant →
    status m = MilestoneStatus.Completed → paid m = false →
    m' = set_status m MilestoneStatus.Rejected (evidence m) → MilestoneMove v m m'
| move_paid :
    status m = MilestoneStatus.Completed → paid m = false →
    m' = set_paid m → MilestoneMove v m m'.

(** A milestone that no entry point accepts any more. *)
Definition settledMilestone (m : Milestone) : Prop :=
  status m = MilestoneStatus.Rejected
  ∨ (status m = MilestoneStatus.Completed ∧ paid m = true).

(** The statuses and flags that the entry points can produce. *)
Definition soundMilestone (v : Variant) (m : Milestone) : Prop :=
  status m ≠ MilestoneStatus.Disputed
  ∧ (paid m = true → status m = MilestoneStatus.Completed)
  ∧ (v = BasicVariant → status m ≠ MilestoneStatus.Rejected).

(** The terms of a deal: everything [createContract] writes, but the state
    and the document. *)
Definition sameTerms (c c' : SponsorshipContract) : Prop :=
  athlete c' = athlete c ∧ sponsor c' = sponsor c
  ∧ totalValue c' = totalValue c ∧ startDate c' = startDate c
  ∧ endDate c' = endDate c ∧ paymentToken c' = paymentToken c
  ∧ arbitrators c' = arbitrators c.

(** A contract that has run its course. *)
Definition closedState (st : ContractState.t) : Prop :=
  st = ContractState.Completed ∨ st = ContractState.Terminated.

(** ** The payment log *)

(** The [PaymentReleased] events on record and the [paid] flags tell the same
    story: every paid milestone has its event, with the milestone's amount,
    and every event is about a stored, paid milestone of that amount. *)
Definition logMatchesMilestones (L : Ledger) : Prop :=
  (∀ id j m,
      milestones (contractAt L id) !! j = Some m → paid m = true →
      ∃ ev, ev ∈ released L ∧ pr_contractId ev = id
            ∧ N.to_nat (pr_milestoneIndex ev) = j ∧ pr_amount ev = amount m)
  ∧ (∀ ev, ev ∈ released L →
      ∃ m, milestones (contractAt L (pr_contractId ev))
             !! N.to_nat (pr_milestoneIndex ev) = Some m
           ∧ paid m = true ∧ pr_amount ev = amount m).

(** Who may resolve a dispute on the ledger: an arbitrator named in the
    contract, and in the role-gated variant any holder of the arbitrator
    role. *)
Definition mayResolve (v : Variant) (L : Ledger) (sender : address) (id : uint256) : bool :=
  match v with
  | BasicVariant => isArbitrator sender (contractAt L id)
  | RoleGatedVariant =>
      isArbitrator sender (contractAt L id) || hasRole L ARBITRATOR_ROLE sender
  end.

(** ** The reads of DisputeResolution *)

Module DisputeReads.
Import DisputeResolution.

(** The tuple returned by [getDisputeDetails]. *)
Record DisputeDetails := {
  dd_contractId : uint256;
  dd_initiator : address;
  dd_evidenceIPFSHash : string;
  dd_reason : string;
  dd_timestamp : uint256;
  dd_resolved : bool;
  dd_athleteFavor : bool;
  dd_athleteVotes : uint256;
  dd_sponsorVotes : uint256;
  dd_totalVotes : uint256
}.

Definition getDisputeDetails (D : Storage) (disputeId : uint256) : DisputeDetails :=
  let dispute := disputeAt D disputeId in
  {| dd_contractId := contractId dispute;
     dd_initiator := initiator dispute;
     dd_evidenceIPFSHash := evidenceIPFSHash dispute;
     dd_reason := reason dispute;
     dd_timestamp := timestamp dispute;
     dd_resolved := resolved dispute;
     dd_athleteFavor := athleteFavor dispute;
     dd_athleteVotes := athleteVotes dispute;
     dd_sponsorVotes := sponsorVotes dispute;
     dd_totalVotes := N.of_nat (length (votedArbitrators dispute)) |}.

Definition getDisputeId (D : Storage) (id : uint256) : uint256 :=
  default 0 (disputeIdOf D !! id).

(** The loop over [votedArbitrators], returning at the first hit. *)
Definition hasArbitratorVoted (D : Storage) (disputeId : uint256)
    (arbitrator : address) : bool :=
  existsb (λ a, a =? arbitrator) (votedArbitrators (disputeAt D disputeId)).

Definition getArbitratorVote (D : Storage) (disputeId : uint256)
    (arbitrator : address) : bool :=
  default false (arbitratorVotes (disputeAt D disputeId) !! arbitrator).

(** The number of arbitrators on the list of a dispute whose recorded vote is
    [favor]. *)
Definition votesCast (D : Storage) (disputeId : uint256) (favor : bool) : N :=
  N.of_nat (length (filter (λ a, getArbitratorVote D disputeId a = favor)
                      (votedArbitrators (disputeAt D disputeId)))).

(** The tallies of a dispute count the votes on record. *)
Definition tallySound (D : Storage) (disputeId : uint256) : Prop :=
  let details := getDisputeDetails D disputeId in
  NoDup (votedArbitrators (disputeAt D disputeId))
  ∧ dd_athleteVotes details = votesCast D disputeId true
  ∧ dd_sponsorVotes details = votesCast D disputeId false
  ∧ dd_athleteVotes details + dd_sponsorVotes details = dd_totalVotes details.

(** What a call of the engine may do to a contract of the ledger: nothing,
    or move its state along the dispute (Active to Disputed, Disputed to
    Active or Terminated). *)
Definition disputeMove (c c' : SponsorshipContract) : Prop :=
  c' = c
  ∨ (state c = ContractState.Active ∧ c' = set_state c ContractState.Disputed)
  ∨ (state c = ContractState.Disputed
     ∧ (c' = set_state c ContractState.Active
        ∨ c' = set_state c ContractState.Terminated)).

(** The four fields of a dispute that hold its votes. *)
Definition sameVotes (x x' : Dispute) : Prop :=
  votedArbitrators x' = votedArbitrators x
  ∧ arbitratorVotes x' = arbitratorVotes x
  ∧ athleteVotes x' = athleteVotes x
  ∧ sponsorVotes x' = sponsorVotes x.

(** What one successful call may do to the record of dispute [d]: nothing;
    or rewrite its header, leaving the votes, when the dispute is created or
    force-resolved; or record one more vote (and then possibly resolve). *)
Inductive DisputeChange (D : Storage) (d : uint256) (x x' : Dispute) : Prop :=
| dispute_kept : x' = x → DisputeChange D d x x'
| dispute_header :
    d = disputeCount D ∨ resolved x = false →
    sameVotes x x' → DisputeChange D d x x'
| dispute_voted (sender : address) (favor : bool) (x1 : Dispute) :
    resolved x = false → sender ∉ votedArbitrators x →
    recordVote x sender favor = Ok x1 →
    sameVotes x1 x' → DisputeChange D d x x'.

(** The calls that are made to the engine itself. *)
Definition onEngine (c : Call) : Prop :=
  match c with OnLedger _ _ => False | _ => True end.

End DisputeReads.

(** The basic ledger of [Sample.openDispute] just before the dispute: contract
    0 is Active, with the engine as sponsor and arbitrator. *)
Definition beforeDispute : DisputeResolution.World :=
  (DisputeResolution.run BasicVariant Sample.engineAddress
     (Sample.freshWorld BasicVariant)
     [ (Sample.anAthlete, DisputeResolution.OnLedger env0
          (CreateContract Sample.anAthlete Sample.engineAddress "QmContract"
             100 1000 2000 0 [Sample.engineAddress]));
       (Sample.anAthlete,
        DisputeResolution.OnLedger env0 (AddMilestones 0 ["final"%string] [100] [1500]));
       (Sample.anAthlete, DisputeResolution.OnLedger env0 (ActivateContract 0)) ]).1.

(** A dispute id that is voted on before it is created: on the sample with
    its open dispute 0, the first arbitrator votes on id 1 (the vote passes,
    resolving contract 0 on the ledger, the blank record naming contract 0);
    the athlete then opens a second dispute on the contract, which gets id 1
    and keeps that vote; the second arbitrator votes the other way. *)
Definition reopenedDispute : DisputeResolution.World :=
  (DisputeResolution.run BasicVariant Sample.engineAddress Sample.openDispute
     [ (Sample.arbiter1, DisputeResolution.VoteOnDispute 1 true);
       (Sample.anAthlete,
        DisputeResolution.CreateDispute 1300 0 "QmClaim2" "late again");
       (Sample.arbiter2, DisputeResolution.VoteOnDispute 1 false) ]).1.

(** ** AthleteChainFactory, first variant (plain admin address)

    The factory deploys its own ledger and token registry, so that it is the
    deployer of both and the [msg.sender] of every call it passes on.  The
    source imports [AthleteContract] by name; [v] says which of the two
    variants is deployed. *)

Module BasicFactory.

Definition bytes32 := N.

Record User := {
  userAddress : address;
  name : string;
  profileIPFSHash : string;
  roles : gmap N bool;          (* mapping(bytes32 => bool) *)
  verified : bool
}.

Definition emptyUser : User := {|
  userAddress := 0; name := EmptyString; profileIPFSHash := EmptyString;
  roles := ∅; verified := false
|}.

Record Storage := {
  _users : gmap N User;
  isRegistered : gmap N bool;
  admin : address
}.

Definition userAt (F : Storage) (user : address) : User :=
  default emptyUser (_users F !! user).

Definition registered (F : Storage) (user : address) : bool :=
  default false (isRegistered F !! user).

(** The factory with the two contracts it has deployed. *)
Record World := {
  factory : Storage;
  ledger : Ledger;
  tokens : SponsorshipNFT.Storage
}.

Definition withFactory (W : World) (F : Storage) : World :=
  {| factory := F; ledger := ledger W; tokens := tokens W |}.

Section Deployment.
Context (v : Variant) (this : address).

(** The constructor: both children are deployed by the factory. *)
Definition construct (deployer : address) : World := {|
  factory := {| _users := ∅; isRegistered := ∅; admin := deployer |};
  ledger := deploy v this;
  tokens := SponsorshipNFT.deploy this
|}.

Definition ledger_createContract (L : Ledger) (athlete sponsor : address)
    (contractIPFSHash : string) (totalValue startDate endDate : uint256)
    (paymentToken : address) (arbitrators : list address)
    : Result (Ledger * uint256) :=
  match v with
  | BasicVariant =>
      Basic.createContract L athlete sponsor contractIPFSHash totalValue
        startDate endDate paymentToken arbitrators
  | RoleGatedVariant =>
      RoleGated.createContract L this athlete sponsor contractIPFSHash totalValue
        startDate endDate paymentToken arbitrators
  end.

Definition createSponsorshipContract (W : World) (athlete sponsor : address)
    (contractIPFSHash : string) (totalValue startDate endDate : uint256)
    (paymentToken : address) (arbitrators : list address)
    : Result (World * uint256) :=
  '(L', contractId) ← ledger_createContract (ledger W) athlete sponsor
                        contractIPFSHash totalValue startDate endDate
                        paymentToken arbitrators;
  Ok ({| factory := factory W; ledger := L'; tokens := tokens W |}, contractId).

Definition mintContractNFT (W : World) (sender : address) (contractId : uint256)
    (tokenURI : string) : Result (World * uint256) :=
  (* Get contract details *)
  let details := getContractDetails (ledger W) contractId in
  require ((sender =? d_athlete details) || (sender =? d_sponsor details))
    "Only athlete or sponsor can mint";;
  '(S', tokenId) ← SponsorshipNFT.mintSponsorshipNFT (tokens W) this
                     (d_sponsor details) (* Initial owner is the sponsor *)
                     contractId tokenURI (d_athlete details) (d_sponsor details);
  Ok ({| factory := factory W; ledger := ledger W; tokens := S' |}, tokenId).

(** Register user (self or admin). *)
Definition registerUser (F : Storage) (sender user : address) (role : bytes32)
    (name profileIPFSHash : string) : Result Storage :=
  require (negb (registered F user)) "Already registered";;
  require ((sender =? user) || (sender =? admin F))
    "Only self or admin can register";;
  let u := userAt F user in
  Ok {| _users := <[user := {| userAddress := user; name := name;
                               profileIPFSHash := profileIPFSHash;
                               roles := <[role := true]> (roles u);
                               verified := false |}]> (_users F);
        isRegistered := <[user := true]> (isRegistered F);
        admin := admin F |}.

Definition onlyAdmin (F : Storage) (sender : address) : Result unit :=
  require (sender =? admin F) "Only admin".

(** Add role to user (admin only). *)
Definition addRole (F : Storage) (sender user : address) (role : bytes32)
    : Result Storage :=
  onlyAdmin F sender;;
  require (registered F user) "User not registered";;
  let u := userAt F user in
  Ok {| _users := <[user := {| userAddress := userAddress u; name := name u;
                               profileIPFSHash := profileIPFSHash u;
                               roles := <[role := true]> (roles u);
                               verified := verified u |}]> (_users F);
        isRegistered := isRegistered F;
        admin := admin F |}.

(** Verify user (admin only). *)
Definition verifyUser (F : Storage) (sender user : address) : Result Storage :=
  onlyAdmin F sender;;
  require (registered F user) "User not registered";;
  let u := userAt F user in
  Ok {| _users := <[user := {| userAddress := userAddress u; name := name u;
                               profileIPFSHash := profileIPFSHash u;
                               roles := roles u;
                               verified := true |}]> (_users F);
        isRegistered := isRegistered F;
        admin := admin F |}.

Definition isUserInRole (F : Storage) (user : address) (role : bytes32) : bool :=
  default false (roles (userAt F user) !! role).

Definition getUser (F : Storage) (user : address) : string * string * bool :=
  let u := userAt F user in
  (name u, profileIPFSHash u, verified u).

(** *** Transactions on the factory and its two contracts *)

Inductive Call :=
| CreateSponsorshipContract (athlete sponsor : address) (contractIPFSHash : string)
    (totalValue startDate endDate : uint256) (paymentToken : address)
    (arbitrators : list address)
| MintContractNFT (contractId : uint256) (tokenURI : string)
| RegisterUser (user : address) (role : bytes32) (name profileIPFSHash : string)
| AddRole (user : address) (role : bytes32)
| VerifyUser (user : address)
| OnLedger (e : Env) (c : LedgerCall)       (* sent to the ledger directly *)
| OnTokens (c : SponsorshipNFT.Call).       (* sent to the registry directly *)

(** One call; the second component is the contract or token id returned. *)
Definition dispatch (W : World) (sender : address) (c : Call)
    : Result (World * option uint256) :=
  match c with
  | CreateSponsorshipContract a s h tv sd ed pt arbs =>
      '(W', contractId) ← createSponsorshipContract W a s h tv sd ed pt arbs;
      Ok (W', Some contractId)
  | MintContractNFT contractId tokenURI =>
      '(W', tokenId) ← mintContractNFT W sender contractId tokenURI;
      Ok (W', Some tokenId)
  | RegisterUser user role name profileIPFSHash =>
      F' ← registerUser (factory W) sender user role name profileIPFSHash;
      Ok (withFactory W F', None)
  | AddRole user role =>
      F' ← addRole (factory W) sender user role; Ok (withFactory W F', None)
  | VerifyUser user =>
      F' ← verifyUser (factory W) sender user; Ok (withFactory W F', None)
  | OnLedger e lc =>
      '(L', ret) ← exec v e (ledger W) sender lc;
      Ok ({| factory := factory W; ledger := L'; tokens := tokens W |}, ret)
  | OnTokens tc =>
      '(S', ret) ← SponsorshipNFT.dispatch (tokens W) sender tc;
      Ok ({| factory := factory W; ledger := ledger W; tokens := S' |}, ret)
  end.

Fixpoint run (W : World) (txs : list (address * Call)) : World :=
  match txs with
  | [] => W
  | (sender, c) :: rest =>
      match dispatch W sender c with
      | Ok (W', _) => run W' rest
      | Err _ => run W rest
      end
  end.

(** Transactions are sent by accounts: not by the zero address, and not by
    the factory, which only makes the calls written in its code. *)
Definition external (txs : list (address * Call)) : Prop :=
  Forall (λ t, t.1 ≠ 0 ∧ t.1 ≠ this) txs.

End Deployment.
End BasicFactory.

(** ** AthleteChainFactory, second variant (AccessControl)

    This factory registers users on the ledger with [grantRole], which only
    the role-gated ledger has. *)

Module RoleGatedFactory.

Record UserInfo := {
  name : string;
  profileIPFSHash : string;
  isVerified : bool;
  contracts : list uint256      (* Contract IDs associated with the user *)
}.

Definition emptyUserInfo : UserInfo := {|
  name := EmptyString; profileIPFSHash := EmptyString; isVerified := false;
  contracts := []
|}.

Record Storage := {
  userInfo : gmap N UserInfo;
  userRoles : gmap N (list Role);
  roles : RoleTable
}.

Definition userInfoAt (F : Storage) (user : address) : UserInfo :=
  default emptyUserInfo (userInfo F !! user).

Definition userRolesAt (F : Storage) (user : address) : list Role :=
  default [] (userRoles F !! user).

Definition set_userInfo (F : Storage) (user : address) (info : UserInfo) := {|
  userInfo := <[user := info]> (userInfo F);
  userRoles := userRoles F; roles := roles F
|}.

Definition set_roles (F : Storage) (t : RoleTable) := {|
  userInfo := userInfo F; userRoles := userRoles F; roles := t
|}.

(** [userInfo[user].contracts.push(contractId)] *)
Definition pushContract (F : Storage) (user : address) (contractId : uint256) :=
  let info := userInfoAt F user in
  set_userInfo F user
    {| name := name info; profileIPFSHash := profileIPFSHash info;
       isVerified := isVerified info;
       contracts := contracts info ++ [contractId] |}.

Record World := {
  factory : Storage;
  ledger : Ledger;
  tokens : SponsorshipNFT.Storage
}.

Definition withFactory (W : World) (F : Storage) : World :=
  {| factory := F; ledger := ledger W; tokens := tokens W |}.

Section Deployment.
Context (this : address).

(** The constructor: the deployer becomes admin of the factory; the factory
    deploys the two children and grants itself the minter role on the
    registry. *)
Definition construct (deployer : address) : Result World :=
  let F := {| userInfo := ∅; userRoles := ∅;
              roles := setRole noRoles DEFAULT_ADMIN_ROLE deployer true |} in
  let L := RoleGated.deploy this in
  S ← SponsorshipNFT.grantRole (SponsorshipNFT.deploy this) this MINTER_ROLE this;
  Ok {| factory := F; ledger := L; tokens := S |}.

Definition registerUser (W : World) (sender user : address) (role : Role)
    (name profileIPFSHash : string) : Result World :=
  let F := factory W in
  require (roles F DEFAULT_ADMIN_ROLE sender) "Admin role required";;
  require (negb (roles F role user)) "User already has this role";;
  (* Grant role on athlete contract *)
  L' ← RoleGated.grantRole (ledger W) this role user;
  (* Grant role on this contract *)
  let F1 := set_roles F (setRole (roles F) role user true) in
  (* Store user info *)
  let info := userInfoAt F1 user in
  let F2 := set_userInfo F1 user
              {| name := name; profileIPFSHash := profileIPFSHash;
                 isVerified := isVerified info; contracts := contracts info |} in
  (* Add role to user roles *)
  let F3 := {| userInfo := userInfo F2;
               userRoles := <[user := userRolesAt F2 user ++ [role]]> (userRoles F2);
               roles := roles F2 |} in
  Ok {| factory := F3; ledger := L'; tokens := tokens W |}.

Definition verifyUser (F : Storage) (sender user : address) : Result Storage :=
  require (roles F DEFAULT_ADMIN_ROLE sender) "Admin role required";;
  let info := userInfoAt F user in
  Ok (set_userInfo F user
        {| name := name info; profileIPFSHash := profileIPFSHash info;
           isVerified := true; contracts := contracts info |}).

Definition createSponsorshipContract (W : World) (sender : address)
    (athlete sponsor : address) (contractIPFSHash : string)
    (totalValue startDate endDate : uint256) (paymentToken : address)
    (arbitrators : list address) : Result (World * uint256) :=
  let F := factory W in
  require (roles F ATHLETE_ROLE athlete || roles F AGENT_ROLE sender)
    "Only athlete or agent can create";;
  require (roles F SPONSOR_ROLE sponsor) "Sponsor must have SPONSOR_ROLE";;
  '(L', contractId) ← RoleGated.createContract (ledger W) this athlete sponsor
                        contractIPFSHash totalValue startDate endDate
                        paymentToken arbitrators;
  (* Add contract to user's contracts *)
  let F1 := pushContract F athlete contractId in
  let F2 := pushContract F1 sponsor contractId in
  (* Add contract to agent's contracts if applicable *)
  let F3 := if roles F2 AGENT_ROLE sender && negb (sender =? athlete)
               && negb (sender =? sponsor)
            then pushContract F2 sender contractId else F2 in
  Ok ({| factory := F3; ledger := L'; tokens := tokens W |}, contractId).

Definition mintContractNFT (W : World) (sender : address) (contractId : uint256)
    (tokenURI : string) : Result (World * uint256) :=
  (* Get contract details *)
  let details := getContractDetails (ledger W) contractId in
  require ((sender =? d_athlete details) || (sender =? d_sponsor details)
           || roles (factory W) AGENT_ROLE sender)
    "Only athlete, sponsor or agent can mint";;
  '(S', tokenId) ← SponsorshipNFT.mintSponsorshipNFT (tokens W) this
                     (d_sponsor details) (* Initial owner is the sponsor *)
                     contractId tokenURI (d_athlete details) (d_sponsor details);
  Ok ({| factory := factory W; ledger := ledger W; tokens := S' |}, tokenId).

Definition getUserContracts (F : Storage) (user : address) : list uint256 :=
  contracts (userInfoAt F user).

Definition hasUserRole (F : Storage) (user : address) (role : Role) : bool :=
  roles F role user.

Definition getUserRoles (F : Storage) (user : address) : list Role :=
  userRolesAt F user.

Definition updateUserProfile (F : Storage) (sender : address)
    (name profileIPFSHash : string) : Storage :=
  let info := userInfoAt F sender in
  set_userInfo F sender
    {| name := name; profileIPFSHash := profileIPFSHash;
       isVerified := isVerified info; contracts := contracts info |}.

(** AccessControl of the factory itself. *)
Definition grantRole (F : Storage) (sender : address) (role : Role)
    (account : address) : Result Storage :=
  require (roles F DEFAULT_ADMIN_ROLE sender) "AccessControl: account is missing role";;
  Ok (set_roles F (setRole (roles F) role account true)).

Definition revokeRole (F : Storage) (sender : address) (role : Role)
    (account : address) : Result Storage :=
  require (roles F DEFAULT_ADMIN_ROLE sender) "AccessControl: account is missing role";;
  Ok (set_roles F (setRole (roles F) role account false)).

Definition renounceRole (F : Storage) (sender : address) (role : Role)
    (account : address) : Result Storage :=
  require (account =? sender) "AccessControl: can only renounce roles for self";;
  Ok (set_roles F (setRole (roles F) role account false)).

(** *** Transactions on the factory and its two contracts *)

Inductive Call :=
| RegisterUser (user : address) (role : Role) (name profileIPFSHash : string)
| VerifyUser (user : address)
| CreateSponsorshipContract (athlete sponsor : address) (contractIPFSHash : string)
    (totalValue startDate endDate : uint256) (paymentToken : address)
    (arbitrators : list address)
| MintContractNFT (contractId : uint256) (tokenURI : string)
| UpdateUserProfile (name profileIPFSHash : string)
| FGrantRole (role : Role) (account : address)
| FRevokeRole (role : Role) (account : address)
| FRenounceRole (role : Role) (account : address)
| OnLedger (e : Env) (c : LedgerCall)       (* sent to the ledger directly *)
| OnTokens (c : SponsorshipNFT.Call).       (* sent to the registry directly *)

(** One call; the second component is the contract or token id returned. *)
Definition dispatch (W : World) (sender : address) (c : Call)
    : Result (World * option uint256) :=
  match c with
  | RegisterUser user role name profileIPFSHash =>
      W' ← registerUser W sender user role name profileIPFSHash; Ok (W', None)
  | VerifyUser user =>
      F' ← verifyUser (factory W) sender user; Ok (withFactory W F', None)
  | CreateSponsorshipContract a s h tv sd ed pt arbs =>
      '(W', contractId) ← createSponsorshipContract W sender a s h tv sd ed pt arbs;
      Ok (W', Some contractId)
  | MintContractNFT contractId tokenURI =>
      '(W', tokenId) ← mintContractNFT W sender contractId tokenURI;
      Ok (W', Some tokenId)
  | UpdateUserProfile name profileIPFSHash =>
      Ok (withFactory W (updateUserProfile (factory W) sender name profileIPFSHash),
          None)
  | FGrantRole r a =>
      F' ← grantRole (factory W) sender r a; Ok (withFactory W F', None)
  | FRevokeRole r a =>
      F' ← revokeRole (factory W) sender r a; Ok (withFactory W F', None)
  | FRenounceRole r a =>
      F' ← renounceRole (factory W) sender r a; Ok (withFactory W F', None)
  | OnLedger e lc =>
      '(L', ret) ← exec RoleGatedVariant e (ledger W) sender lc;
      Ok ({| factory := factory W; ledger := L'; tokens := tokens W |}, ret)
  | OnTokens tc =>
      '(S', ret) ← SponsorshipNFT.dispatch (tokens W) sender tc;
      Ok ({| factory := factory W; ledger := ledger W; tokens := S' |}, ret)
  end.

Fixpoint run (W : World) (txs : list (address * Call)) : World :=
  match txs with
  | [] => W
  | (sender, c) :: rest =>
      match dispatch W sender c with
      | Ok (W', _) => run W' rest
      | Err _ => run W rest
      end
  end.

(** Transactions are sent by accounts: not by the factory, which only makes
    the calls written in its code. *)
Definition external (txs : list (address * Call)) : Prop :=
  Forall (λ t, t.1 ≠ this) txs.

End Deployment.
End RoleGatedFactory.

(** ** What holds of a factory with its two contracts *)

(** The ids that were never assigned name no party. *)
Definition blankBeyondCount (L : Ledger) : Prop :=
  ∀ id, contractCount L ≤ id →
        athlete (contractAt L id) = 0 ∧ sponsor (contractAt L id) = 0.

(** Only [owner] holds roles on the registry. *)
Definition onlyRoleHolder (S : SponsorshipNFT.Storage) (owner : address) : Prop :=
  ∀ r a, SponsorshipNFT.roles S r a = true → a = owner.

(** Every token stands for a contract that the ledger has created. *)
Definition tokensNameContracts (L : Ledger) (S : SponsorshipNFT.Storage) : Prop :=
  ∀ t, SponsorshipNFT._exists S t = true →
       SponsorshipNFT.contractIdOfAt S t < contractCount L.

(** Every contract id that the second-variant factory lists for a user is
    the id of a created contract. *)
Definition listsNameContracts (W : RoleGatedFactory.World) : Prop :=
  ∀ user id,
    id ∈ RoleGatedFactory.getUserContracts (RoleGatedFactory.factory W) user →
    id < contractCount (RoleGatedFactory.ledger W).

(** ** Sample deployments of the two factories *)

Module FactorySample.
Definition factoryAddress : address := 0xF0.

(** First variant, over the basic ledger: the athlete registers, creates a
    contract through the factory, and the sponsor mints its token. *)
Definition basicStart : BasicFactory.World :=
  BasicFactory.construct BasicVariant factoryAddress Sample.admin.

Definition basicRegistered : BasicFactory.World :=
  BasicFactory.run BasicVariant factoryAddress basicStart
    [ (Sample.anAthlete, BasicFactory.RegisterUser Sample.anAthlete 1 "Ada" "QmAda") ].

Definition basicDeal : list (address * BasicFactory.Call) :=
  [ (Sample.anAthlete,
     BasicFactory.CreateSponsorshipContract Sample.anAthlete Sample.aSponsor
       "QmContract" 100 1000 2000 0 [Sample.arbiter1]);
    (Sample.aSponsor, BasicFactory.MintContractNFT 0 "ipfs://deal") ].

(** Second variant: the admin registers the athlete and the sponsor, the
    athlete creates a contract through the factory, the sponsor mints. *)
Definition roleGatedRegistration : list (address * RoleGatedFactory.Call) :=
  [ (Sample.admin, RoleGatedFactory.RegisterUser Sample.anAthlete ATHLETE_ROLE
                     "Ada" "QmAda");
    (Sample.admin, RoleGatedFactory.RegisterUser Sample.aSponsor SPONSOR_ROLE
                     "Brand" "QmBrand") ].

(** What the constructor of the second variant leaves. *)
Definition roleGatedStart : RoleGatedFactory.World := {|
  RoleGatedFactory.factory :=
    {| RoleGatedFactory.userInfo := ∅; RoleGatedFactory.userRoles := ∅;
       RoleGatedFactory.roles := setRole noRoles DEFAULT_ADMIN_ROLE Sample.admin true |};
  RoleGatedFactory.ledger := RoleGated.deploy factoryAddress;
  RoleGatedFactory.tokens :=
    SponsorshipNFT.set_roles (SponsorshipNFT.deploy factoryAddress)
      (setRole (SponsorshipNFT.roles (SponsorshipNFT.deploy factoryAddress))
         MINTER_ROLE factoryAddress true)
|}.

Definition roleGatedDeal : list (address * RoleGatedFactory.Call) :=
  [ (Sample.anAthlete,
     RoleGatedFactory.CreateSponsorshipContract Sample.anAthlete Sample.aSponsor
       "QmContract" 100 1000 2000 Sample.aToken [Sample.arbiter1]);
    (Sample.aSponsor, RoleGatedFactory.MintContractNFT 0 "ipfs://deal") ].
End FactorySample.
(** * Properties *)

(** ** Reasoning about calls *)

Lemma bind_Ok {A B} (r : Result A) (f : A → Result B) (b : B) :
  r ≫= f = Ok b → ∃ a, r = Ok a ∧ f a = Ok b.
Proof. destruct r as [a|e]; simpl; [eauto | discriminate]. Qed.

Lemma require_Ok (c : bool) (s : string) u : require c s = Ok u → c = true.
Proof. destruct c; [reflexivity | discriminate]. Qed.

Lemma require_seq_Ok {B} (c : bool) (s : string) (k : Result B) (b : B) :
  (require c s ;; k) = Ok b → c = true ∧ k = Ok b.
Proof. destruct c; simpl; [auto | discriminate]. Qed.

Lemma checked_add_Ok (a b c : uint256) :
  checked_add a b = Ok c → c = a + b ∧ a + b ≤ MAX_UINT256.
Proof.
  unfold checked_add. destruct (N.leb_spec (a + b) MAX_UINT256); [|discriminate].
  intros [= <-]. auto.
Qed.

Lemma checked_add_0_1 : checked_add 0 1 = Ok 1.
Proof. reflexivity. Qed.

Lemma contractAt_store_eq L id c : contractAt (store L id c) id = c.
Proof. unfold contractAt, store; simpl. by rewrite lookup_insert_eq. Qed.

Lemma contractAt_store_ne L id id' c :
  id ≠ id' → contractAt (store L id c) id' = contractAt L id'.
Proof. intros. unfold contractAt, store; simpl. by rewrite lookup_insert_ne. Qed.

Lemma contractAt_emit L id i a id' :
  contractAt (emitPaymentReleased L id i a) id' = contractAt L id'.
Proof. reflexivity. Qed.

Lemma contractAt_set_acl L t id : contractAt (set_acl L t) id = contractAt L id.
Proof. reflexivity. Qed.

Lemma contractAt_set_contractCount L n id :
  contractAt (set_contractCount L n) id = contractAt L id.
Proof. reflexivity. Qed.

(** Unfold the entry point that [H] calls. *)
Ltac unfold_entry H :=
  unfold step in H; cbn [exec] in H; unfold noSuchFunction in H;
  unfold Basic.createContract, Basic.addMilestones, Basic.activateContract,
    Basic.completeMilestone, Basic.releaseMilestonePayment, Basic.raiseDispute,
    Basic.resolveDispute, Basic.updateContract,
    RoleGated.createContract, RoleGated.addMilestones, RoleGated.activateContract,
    RoleGated.submitMilestone, RoleGated.approveMilestone,
    RoleGated.rejectMilestone, RoleGated.raiseDispute, RoleGated.resolveDispute,
    RoleGated.updateContract, RoleGated.grantRole, RoleGated.revokeRole,
    RoleGated.renounceRole, RoleGated.onlyAdmin in H.

(** Turn [H : call = Ok _] into the list of checks that passed and the
    storage that was written. *)
Ltac open_calls :=
  repeat match goal with
  | H : Err _ = Ok _ |- _ => discriminate H
  | H : Ok _ = Ok _ |- _ => progress simplify_eq
  | H : (require ?c ?s ≫= _) = Ok _ |- _ =>
      let Hc := fresh "Hreq" in apply require_seq_Ok in H as [Hc H]
  | H : require ?c ?s = Ok _ |- _ => apply require_Ok in H
  | H : (match ?x with Some _ => _ | None => _ end) = Ok _ |- _ =>
      let Hx := fresh "Hget" in destruct x eqn:Hx
  | H : (let (_, _) := ?x in _) = Ok _ |- _ => destruct x
  | H : (?r ≫= _) = Ok _ |- _ =>
      let x := fresh "x" in let Hx := fresh "Hrun" in
      apply bind_Ok in H as (x & Hx & H); cbn beta iota in H
  end.

(** Case on whether the contract written is the one looked at. *)
Ltac same_contract id :=
  rewrite ?contractAt_emit;
  match goal with
  | |- context [contractAt (store _ ?cid _) id] =>
      destruct (decide (cid = id)) as [?|?];
      [subst id; rewrite ?contractAt_store_eq
      |rewrite ?contractAt_store_ne by done]
  | _ => idtac
  end.

(** Case on the outcome of the next [require]. *)
Ltac case_require :=
  match goal with
  | |- context [require ?c _ ≫= _] =>
      lazymatch c with
      | true => fail
      | false => fail
      | _ => let Hc := fresh "Hc" in destruct c eqn:Hc; simpl
      end
  end.

(** ** updateContract keeps the amendment history (C8) *)

Section UpdateContract.
Context (v : Variant) (e : Env) (L : Ledger) (sender : address).
Context (id : uint256) (newContractIPFSHash : string).

Lemma updateContract_inv L' ret :
  exec v e L sender (UpdateContract id newContractIPFSHash) = Ok (L', ret) →
  L' = store L id
         (set_document (contractAt L id) newContractIPFSHash
            (updateHistory (contractAt L id) ++ [contractIPFSHash (contractAt L id)]))
  ∧ ret = None.
Proof. intros H. destruct v; unfold_entry H; open_calls; auto. Qed.

Lemma updateContract_succeeds :
  mayUpdate v L sender id = true →
  ∃ L', exec v e L sender (UpdateContract id newContractIPFSHash) = Ok (L', None).
Proof.
  unfold mayUpdate. destruct v; simpl;
    unfold Basic.updateContract, RoleGated.updateContract; intros ->; simpl; eauto.
Qed.
End UpdateContract.

(** C8.  In both variants and whatever the lifecycle state of the contract, a
    caller who may amend it succeeds, and a successful [updateContract] appends
    the document reference held before the call to the history and then
    overwrites it: the history grows by exactly one entry, its newest entry is
    the previous reference, the stored reference is the new one, and the
    lifecycle state is untouched. *)
Theorem C8_updateContract_pushes_previous_reference :
  ∀ (v : Variant) (e : Env) (L : Ledger) (sender : address) (id : uint256)
    (newContractIPFSHash : string),
    (mayUpdate v L sender id = true →
     ∃ L', exec v e L sender (UpdateContract id newContractIPFSHash) = Ok (L', None))
    ∧ ∀ L' ret,
        exec v e L sender (UpdateContract id newContractIPFSHash) = Ok (L', ret) →
        let before := contractAt L id in
        let after := contractAt L' id in
        updateHistory after = updateHistory before ++ [contractIPFSHash before]
        ∧ length (updateHistory after) = S (length (updateHistory before))
        ∧ last (updateHistory after) = Some (contractIPFSHash before)
        ∧ contractIPFSHash after = newContractIPFSHash
        ∧ state after = state before.
Proof.
  intros. split; [apply updateContract_succeeds|].
  intros L' ret H. apply updateContract_inv in H as [-> ->].
  cbn zeta. rewrite contractAt_store_eq. simpl.
  rewrite length_app, last_snoc. simpl. repeat split; auto. lia.
Qed.

(** On the activated sample (state Active) the athlete replaces the document:
    the history, empty before, now holds the original reference. *)
Lemma C8_witness_amendment_after_activation :
  ∃ L',
    exec RoleGatedVariant env0 (Sample.activated RoleGatedVariant) Sample.anAthlete
      (UpdateContract 0 "QmAmended") = Ok (L', None)
    ∧ updateHistory (contractAt L' 0) = ["QmContract"%string]
    ∧ contractIPFSHash (contractAt L' 0) = "QmAmended"%string
    ∧ state (contractAt L' 0) = ContractState.Active.
Proof.
  destruct (C8_updateContract_pushes_previous_reference RoleGatedVariant env0
              (Sample.activated RoleGatedVariant) Sample.anAthlete 0 "QmAmended")
    as [Hok Hpush].
  destruct (Hok eq_refl) as [L' HL']. exists L'. split; [exact HL'|].
  destruct (Hpush L' None HL') as (Hhist & _ & _ & Hdoc & Hstate).
  split; [exact Hhist | split; [exact Hdoc | exact Hstate]].
Defined.

(** ** What one successful ledger call changes *)

Lemma ContractState_eqb_eq a b : ContractState.eqb a b = true ↔ a = b.
Proof. destruct a, b; simpl; split; congruence. Qed.

Lemma MilestoneStatus_eqb_eq a b : MilestoneStatus.eqb a b = true ↔ a = b.
Proof. destruct a, b; simpl; split; congruence. Qed.

Lemma pushMilestones_Ok ds amts ts t ms t' ms' :
  pushMilestones ds amts ts t ms = Ok (t', ms') →
  ∃ new, ms' = ms ++ new
    ∧ Forall (λ m, paid m = false ∧ status m = MilestoneStatus.Pending) new
    ∧ t' = t + sumAmounts new
    ∧ (length ds = length amts → length amts = length ts → map amount new = amts).
Proof.
  revert amts ts t ms.
  induction ds as [|d ds IH]; intros [|a amts] [|dl ts] t ms H; simpl in H;
    try (injection H as <- <-; exists []; rewrite app_nil_r; simpl;
         repeat split; auto; try lia; try discriminate; fail).
  apply bind_Ok in H as (t1 & Ht1 & H). apply checked_add_Ok in Ht1 as [-> _].
  apply IH in H as (new & -> & Hnew & -> & Hmap).
  exists (newMilestone d a dl :: new). rewrite <- app_assoc. simpl.
  repeat split; auto; [lia|]. intros [= ?] [= ?]. f_equal. auto.
Qed.

Lemma exec_milestones v e L sender c L' ret :
  exec v e L sender c = Ok (L', ret) → ∀ id,
  MilestonesChange c id (milestones (contractAt L id)) (milestones (contractAt L' id)).
Proof.
  intros H id.
  destruct v, c; unfold_entry H; open_calls; same_contract id;
    try (apply unchanged; reflexivity);
    try (eapply restatused; [eassumption | reflexivity]);
    try match goal with
    | Hp : pushMilestones _ _ _ _ _ = Ok _ |- _ =>
        apply pushMilestones_Ok in Hp as (new & -> & Hnew & _);
        eapply pushed; [eauto | reflexivity | exact Hnew]
    end;
    try (match goal with
         | |- context [if ?b then _ else _] => destruct b
         end; simpl);
    (eapply paidOut;
     [ reflexivity | eassumption
     | by match goal with Hn : negb (paid _) = true |- _ =>
            apply negb_true_iff in Hn end
     | by match goal with
          | Hs : MilestoneStatus.eqb _ _ = true |- _ =>
              apply MilestoneStatus_eqb_eq in Hs end
     | reflexivity ]).
Qed.

Lemma exec_state v e L sender c L' ret :
  exec v e L sender c = Ok (L', ret) → ∀ id,
  StateChange v L c id (state (contractAt L id)) (state (contractAt L' id)).
Proof.
  intros H id.
  destruct v, c; unfold_entry H; open_calls; same_contract id;
    repeat match goal with
    | Hs : ContractState.eqb _ _ = true |- _ => apply ContractState_eqb_eq in Hs
    end;
    try (apply state_kept; reflexivity);
    try (apply state_created; reflexivity);
    try (apply state_activated; [reflexivity | assumption | reflexivity]);
    try (apply state_disputed; [assumption | reflexivity]);
    try (apply state_resolved; [assumption | destruct athleteFavor; auto]).
  destruct (allCompleted _); simpl;
    [eapply state_completed; eauto | by apply state_kept].
Qed.

Lemma exec_count v e L sender c L' ret :
  exec v e L sender c = Ok (L', ret) →
  (ret = None ∧ contractCount L' = contractCount L)
  ∨ (ret = Some (contractCount L) ∧ contractCount L' = contractCount L + 1
     ∧ contractCount L + 1 ≤ MAX_UINT256
     ∧ ∃ a s h tv sd ed pt arbs, c = CreateContract a s h tv sd ed pt arbs).
Proof.
  intros H.
  destruct v, c; unfold_entry H; open_calls; try (left; split; reflexivity);
    right; match goal with
           | Ha : checked_add _ _ = Ok _ |- _ => apply checked_add_Ok in Ha as [-> ?]
           end; simpl; repeat split; eauto 10.
Qed.

(** ** The paid flag (C2) *)

Lemma paidIn_app_unpaid ms new i :
  Forall (λ m, paid m = false ∧ status m = MilestoneStatus.Pending) new →
  paidIn (ms ++ new) i = paidIn ms i.
Proof.
  intros Hnew. unfold paidIn.
  destruct (decide (i < length ms)%nat) as [Hlt|Hge].
  - by rewrite lookup_app_l.
  - rewrite lookup_app_r by lia. rewrite (lookup_ge_None_2 ms i) by lia.
    destruct (new !! _) as [m|] eqn:Hm; [|done].
    eapply Forall_lookup_1 in Hnew as [Hp _]; eauto.
Qed.

Lemma paidIn_restatused ms j m st ev i :
  ms !! j = Some m → paidIn (<[j := set_status m st ev]> ms) i = paidIn ms i.
Proof.
  intros Hj. unfold paidIn. destruct (decide (j = i)) as [->|Hne].
  - rewrite list_lookup_insert_eq by (eapply lookup_lt_Some; eauto). by rewrite Hj.
  - by rewrite list_lookup_insert_ne.
Qed.

Lemma paidIn_paidOut ms j m i :
  ms !! j = Some m →
  paidIn (<[j := set_paid m]> ms) i = if decide (j = i) then true else paidIn ms i.
Proof.
  intros Hj. unfold paidIn. destruct (decide (j = i)) as [->|Hne].
  - by rewrite list_lookup_insert_eq by (eapply lookup_lt_Some; eauto).
  - by rewrite list_lookup_insert_ne.
Qed.

(** A release on a milestone that is already paid: the two variants stop at
    the same checks, before anything is transferred; the answer does not depend
    on what the environment would have said. *)
Lemma release_of_paid_fails v L sender id i :
  isPaid L id i = true →
  ∃ reason,
    (∀ e, exec v e L sender (ReleasePayment id i) = Err (Revert reason))
    ∧ (reason = onlySponsorReason v ∧ (sender =? sponsor (contractAt L id)) = false
       ∨ (sender =? sponsor (contractAt L id)) = true
         ∧ (reason = "Contract not active"
            ∨ reason = "Milestone not completed"
            ∨ reason = "Payment already released")%string).
Proof.
  unfold isPaid, paidIn. intros Hp.
  destruct (milestones (contractAt L id) !! N.to_nat i) as [m|] eqn:Hm; [|done].
  destruct v; cbn [exec]; unfold Basic.releaseMilestonePayment,
    RoleGated.approveMilestone, onlySponsorReason;
    (destruct (sender =? sponsor (contractAt L id)); simpl; [|eauto]);
    (destruct (ContractState.eqb _ _); simpl; [|eauto 10]);
    rewrite Hm;
    (destruct (MilestoneStatus.eqb _ _); simpl; [|eauto 10]);
    rewrite Hp; simpl; eauto 10.
Qed.

Lemma release_sets_paid v e L sender id i L' ret :
  exec v e L sender (ReleasePayment id i) = Ok (L', ret) →
  isPaid L id i = false ∧ isPaid L' id i = true.
Proof.
  intros H. unfold isPaid.
  destruct v; unfold_entry H; open_calls; rewrite contractAt_emit, contractAt_store_eq;
    try (match goal with |- context [if ?b then _ else _] => destruct b end);
    simpl; rewrite paidIn_paidOut by eassumption;
    (split; [|by rewrite decide_True]);
    unfold paidIn; rewrite Hget; by apply negb_true_iff.
Qed.

Lemma paid_changes_only_by_release v e L sender c L' ret id i :
  exec v e L sender c = Ok (L', ret) →
  (isPaid L id i = true → isPaid L' id i = true)
  ∧ (isPaid L id i = false → isPaid L' id i = true → c = ReleasePayment id i).
Proof.
  intros H. unfold isPaid.
  destruct (exec_milestones _ _ _ _ _ _ _ H id) as [-> | new _ -> Hnew | j m st ev Hj -> | i0 m -> Hm Hp Hs ->].
  - split; [auto | congruence].
  - rewrite paidIn_app_unpaid by done. split; [auto | congruence].
  - rewrite paidIn_restatused by done. split; [auto | congruence].
  - rewrite paidIn_paidOut by done. case_decide as Hi.
    + apply N2Nat.inj in Hi as ->. auto.
    + split; [auto | congruence].
Qed.

(** Only a release emits [PaymentReleased], once, for its milestone. *)
Lemma exec_released v e L sender c L' ret :
  exec v e L sender c = Ok (L', ret) →
  released L' = released L
  ∨ ∃ id i amt,
      c = ReleasePayment id i
      ∧ released L'
        = released L ++ [{| pr_contractId := id; pr_milestoneIndex := i;
                            pr_amount := amt |}].
Proof.
  intros H.
  destruct v, c; unfold_entry H; open_calls; try (left; reflexivity);
    right; eauto.
Qed.

(** Along any run, the events on record are about paid milestones and no
    milestone has two of them. *)
Lemma run_released_once v txs : ∀ L,
  (∀ ev, ev ∈ released L →
         isPaid L (pr_contractId ev) (pr_milestoneIndex ev) = true) →
  NoDup (paidMilestone <$> released L) →
  (∀ ev, ev ∈ released (run v L txs).1 →
         isPaid (run v L txs).1 (pr_contractId ev) (pr_milestoneIndex ev) = true)
  ∧ NoDup (paidMilestone <$> released (run v L txs).1).
Proof.
  induction txs as [|t txs IH]; intros L Hpaid Hnodup; simpl; [done|].
  destruct (step v L t) as [[L' ret]|f] eqn:Hstep; [|by apply IH].
  assert ((∀ ev, ev ∈ released L' →
                 isPaid L' (pr_contractId ev) (pr_milestoneIndex ev) = true)
          ∧ NoDup (paidMilestone <$> released L')) as [Hpaid' Hnodup'].
  { unfold step in Hstep.
    destruct (exec_released _ _ _ _ _ _ _ Hstep) as [-> | (id & i & amt & Hc & ->)].
    - split; [|done]. intros ev Hev.
      by apply (paid_changes_only_by_release _ _ _ _ _ _ _ _ _ Hstep), Hpaid.
    - rewrite Hc in Hstep.
      destruct (release_sets_paid _ _ _ _ _ _ _ _ Hstep) as [Hbefore Hafter].
      split.
      + intros ev [Hev | ->%list_elem_of_singleton]%elem_of_app; [|done].
        by apply (paid_changes_only_by_release _ _ _ _ _ _ _ _ _ Hstep), Hpaid.
      + rewrite fmap_app. apply NoDup_app. split_and!; [done | | apply NoDup_singleton].
        intros key (ev & Hk & Hev)%list_elem_of_fmap Hk'%list_elem_of_singleton.
        apply Hpaid in Hev. rewrite Hk in Hk'. injection Hk' as Hid Hi.
        rewrite Hid, Hi in Hev. congruence. }
  specialize (IH L' Hpaid' Hnodup'). by destruct (run v L' txs).
Qed.

(** C2.  In both variants, for every milestone [(id, i)]:
    - a successful call never clears [paid], and [paid] goes from false to
      true only in a successful payment release of that very milestone
      ([approveMilestone] / [releaseMilestonePayment]), which in turn always
      finds it false and leaves it true: so it is set at most once;
    - once it is true, every further release attempt fails, whatever the
      environment would answer (no transfer is attempted), with an
      InvalidState-kind reason when it comes from the sponsor (the only caller
      let through to the state checks; anybody else is turned away before
      them as Unauthorized);
    - a failed release leaves the storage, hence the milestone, as it was;
    - from deployment on, whatever calls are made, the [PaymentReleased]
      events on record name each milestone at most once. *)
Theorem C2_paid_set_exactly_once :
  ∀ (v : Variant) (L : Ledger) (id i : uint256),
    (∀ e sender c L' ret,
        exec v e L sender c = Ok (L', ret) →
        (isPaid L id i = true → isPaid L' id i = true)
        ∧ (isPaid L id i = false → isPaid L' id i = true → c = ReleasePayment id i)
        ∧ (c = ReleasePayment id i → isPaid L id i = false ∧ isPaid L' id i = true))
    ∧ (isPaid L id i = true →
       ∀ sender, ∃ reason,
         (∀ e, exec v e L sender (ReleasePayment id i) = Err (Revert reason))
         ∧ (sender = sponsor (contractAt L id) →
            kindOf (Revert reason) = Some InvalidState)
         ∧ (sender ≠ sponsor (contractAt L id) →
            kindOf (Revert reason) = Some Unauthorized))
    ∧ (∀ e sender f,
        exec v e L sender (ReleasePayment id i) = Err f →
        commit L fst (exec v e L sender (ReleasePayment id i)) = L)
    ∧ (∀ deployer txs,
        NoDup (paidMilestone <$> released (run v (deploy v deployer) txs).1)).
Proof.
  intros v L id i. split; [|split; [|split]]; cycle 3.
  { intros deployer txs. apply run_released_once.
    - destruct v; intros ev Hev; by apply elem_of_nil in Hev.
    - destruct v; constructor. }
  - intros e sender c L' ret H.
    destruct (paid_changes_only_by_release _ _ _ _ _ _ _ id i H) as [H1 H2].
    split; [exact H1 | split; [exact H2 |]].
    intros ->. eapply release_sets_paid; eauto.
  - intros Hp sender.
    destruct (release_of_paid_fails v L sender id i Hp) as (reason & Hfail & Hwhy).
    exists reason. split; [exact Hfail|].
    destruct Hwhy as [[-> Hne] | [Heq [-> | [-> | ->]]]].
    + apply N.eqb_neq in Hne. split; [congruence | by destruct v].
    + apply N.eqb_eq in Heq. split; [done | congruence].
    + apply N.eqb_eq in Heq. split; [done | congruence].
    + apply N.eqb_eq in Heq. split; [done | congruence].
  - intros e sender f ->. reflexivity.
Qed.

(** The settled sample: its one milestone is paid; the sponsor's second
    [approveMilestone] is refused with "Payment already released" or, the
    contract being Completed by then, "Contract not active". *)
Lemma C2_witness_settled_sample :
  isPaid (Sample.settled RoleGatedVariant) 0 0 = true
  ∧ ∃ reason,
      (∀ e, exec RoleGatedVariant e (Sample.settled RoleGatedVariant)
              Sample.aSponsor (ReleasePayment 0 0) = Err (Revert reason))
      ∧ kindOf (Revert reason) = Some InvalidState.
Proof.
  split; [reflexivity|].
  destruct (C2_paid_set_exactly_once RoleGatedVariant
              (Sample.settled RoleGatedVariant) 0 0) as (_ & Hsecond & _).
  destruct (Hsecond eq_refl Sample.aSponsor) as (reason & Hfail & Hkind & _).
  exists reason. split; [exact Hfail | apply Hkind; reflexivity].
Defined.

(** ** Activation (C5) *)

Lemma activate_without_milestones v e L sender id :
  milestones (contractAt L id) = [] →
  ∃ f, exec v e L sender (ActivateContract id) = Err f.
Proof.
  intros Hms.
  destruct v; cbn [exec]; unfold Basic.activateContract, RoleGated.activateContract;
    rewrite Hms; repeat case_require; eauto.
Qed.

Lemma activate_succeeds v e L sender id :
  mayActivate v L sender id = true →
  state (contractAt L id) = ContractState.Draft →
  milestones (contractAt L id) ≠ [] →
  allowanceSuffices v e L id = true →
  exec v e L sender (ActivateContract id)
  = Ok (store L id (set_state (contractAt L id) ContractState.Active), None).
Proof.
  unfold mayActivate, allowanceSuffices. intros Hmay Hst Hms Hal.
  destruct (milestones (contractAt L id)) as [|m ms] eqn:Hm; [done|].
  destruct v; cbn [exec]; unfold Basic.activateContract, RoleGated.activateContract;
    rewrite Hmay, Hst, Hm; simpl; [done|].
  destruct (paymentToken (contractAt L id) =? 0); simpl in *; [done|].
  by rewrite Hal.
Qed.

Lemma activate_inv v e L sender id L' ret :
  exec v e L sender (ActivateContract id) = Ok (L', ret) →
  L' = store L id (set_state (contractAt L id) ContractState.Active)
  ∧ mayActivate v L sender id = true
  ∧ state (contractAt L id) = ContractState.Draft.
Proof.
  intros H. unfold mayActivate.
  destruct v; unfold_entry H; open_calls;
    match goal with
    | Hs : ContractState.eqb _ _ = true |- _ => apply ContractState_eqb_eq in Hs
    end; auto.
Qed.

Lemma activate_not_draft v e L sender id :
  state (contractAt L id) ≠ ContractState.Draft →
  ∃ reason,
    exec v e L sender (ActivateContract id) = Err (Revert reason)
    ∧ (mayActivate v L sender id = true →
       reason = "Contract not in draft state"%string)
    ∧ (mayActivate v L sender id = false → reason = onlyActivatorReason v).
Proof.
  intros Hst. unfold mayActivate, onlyActivatorReason.
  assert (ContractState.eqb (state (contractAt L id)) ContractState.Draft = false)
    as Hb.
  { destruct (ContractState.eqb _ _) eqn:Hb; [|done].
    by apply ContractState_eqb_eq in Hb. }
  destruct v; cbn [exec]; unfold Basic.activateContract, RoleGated.activateContract;
    (case_require;
     [ rewrite Hb; simpl; eexists; (split; [reflexivity | by split])
     | eexists; (split; [reflexivity | by split]) ]).
Qed.

(** A created contract that has left Draft never returns to it. *)
Lemma exec_keeps_not_draft v e L sender c L' ret id :
  exec v e L sender c = Ok (L', ret) →
  id < contractCount L →
  state (contractAt L id) ≠ ContractState.Draft →
  id < contractCount L' ∧ state (contractAt L' id) ≠ ContractState.Draft.
Proof.
  intros H Hid Hst. split.
  - destruct (exec_count _ _ _ _ _ _ _ H) as [[_ ->] | (_ & -> & _)]; lia.
  - destruct (exec_state _ _ _ _ _ _ _ H id)
      as [-> | -> _ | _ Hd _ | _ -> | _ [-> | ->] | i _ _ _ ->];
      try done; lia.
Qed.

Lemma run_keeps_not_draft v txs : ∀ L id,
  id < contractCount L →
  state (contractAt L id) ≠ ContractState.Draft →
  id < contractCount (run v L txs).1
  ∧ state (contractAt (run v L txs).1 id) ≠ ContractState.Draft.
Proof.
  induction txs as [|t txs IH]; intros L id Hid Hst; simpl; [done|].
  destruct (step v L t) as [[L' ret]|f] eqn:Hstep; [|by apply IH].
  destruct (exec_keeps_not_draft _ _ _ _ _ _ _ id Hstep Hid Hst) as [Hid' Hst'].
  specialize (IH L' id Hid' Hst').
  destruct (run v L' txs) as [Lf ids]. exact IH.
Qed.

(** C5.  In both variants:
    - on a contract without milestones [activateContract] fails for every
      caller and environment;
    - on a Draft contract with at least one milestone it succeeds for an
      authorised caller (the sponsor; in the basic variant the athlete too)
      and makes the contract Active, provided, in the role-gated variant with
      a token as payment asset, that the sponsor's allowance covers the total
      value;
    - after a successful activation of a created contract, whatever
      transactions follow, every further [activateContract] on it fails and
      leaves the storage unchanged; for an authorised caller the reason is
      "Contract not in draft state", of kind InvalidState. *)
Theorem C5_activateContract_succeeds_once :
  ∀ (v : Variant) (L : Ledger) (id : uint256),
    (milestones (contractAt L id) = [] →
     ∀ e sender, ∃ f, exec v e L sender (ActivateContract id) = Err f)
    ∧ (∀ e sender,
        mayActivate v L sender id = true →
        state (contractAt L id) = ContractState.Draft →
        milestones (contractAt L id) ≠ [] →
        allowanceSuffices v e L id = true →
        ∃ L', exec v e L sender (ActivateContract id) = Ok (L', None)
              ∧ state (contractAt L' id) = ContractState.Active)
    ∧ (∀ e sender L1 ret,
        exec v e L sender (ActivateContract id) = Ok (L1, ret) →
        id < contractCount L →
        ∀ txs e' sender',
          let L2 := (run v L1 txs).1 in
          ∃ reason,
            exec v e' L2 sender' (ActivateContract id) = Err (Revert reason)
            ∧ (mayActivate v L2 sender' id = true →
               reason = "Contract not in draft state"%string
               ∧ kindOf (Revert reason) = Some InvalidState)
            ∧ commit L2 fst (exec v e' L2 sender' (ActivateContract id)) = L2).
Proof.
  intros v L id. split; [|split].
  - intros Hms e sender. by apply activate_without_milestones.
  - intros e sender Hmay Hst Hms Hal. eexists. split.
    + by apply activate_succeeds.
    + by rewrite contractAt_store_eq.
  - intros e sender L1 ret H Hid txs e' sender' L2.
    apply activate_inv in H as (-> & _ & _).
    destruct (run_keeps_not_draft v txs
                (store L id (set_state (contractAt L id) ContractState.Active)) id)
      as [_ Hst]; [done | by rewrite contractAt_store_eq |].
    fold L2 in Hst.
    destruct (activate_not_draft v e' L2 sender' id Hst) as (reason & Hfail & Hyes & _).
    exists reason. split; [exact Hfail|]. split.
    + intros Hmay. rewrite (Hyes Hmay). done.
    + by rewrite Hfail.
Qed.

(** The drafted sample: the sponsor activates it; after the athlete has
    delivered, the sponsor's second activation is refused. *)
Lemma C5_witness_drafted_sample :
  ∃ L1,
    exec RoleGatedVariant env0 (Sample.drafted RoleGatedVariant) Sample.aSponsor
      (ActivateContract 0) = Ok (L1, None)
    ∧ state (contractAt L1 0) = ContractState.Active
    ∧ exec RoleGatedVariant env0
        (run RoleGatedVariant L1
           [Sample.tx Sample.anAthlete (SubmitMilestone 0 0 "QmEvidence")]).1
        Sample.aSponsor (ActivateContract 0)
      = Err (Revert "Contract not in draft state").
Proof.
  destruct (C5_activateContract_succeeds_once RoleGatedVariant
              (Sample.drafted RoleGatedVariant) 0) as (_ & Hfirst & Hlater).
  destruct (Hfirst env0 Sample.aSponsor eq_refl eq_refl ltac:(discriminate) eq_refl)
    as (L1 & Hok & Hactive).
  exists L1. split; [exact Hok|]. split; [exact Hactive|].
  destruct (Hlater env0 Sample.aSponsor L1 None Hok eq_refl
              [Sample.tx Sample.anAthlete (SubmitMilestone 0 0 "QmEvidence")]
              env0 Sample.aSponsor) as (reason & Hfail & Hwhy & _).
  rewrite Hfail. f_equal. f_equal. apply Hwhy.
  apply activate_inv in Hok as (-> & _ & _). reflexivity.
Defined.

(** ** Milestone sums (C3) and completion (C4) *)

(** [addMilestones] compares the amounts of the call with the total value and
    appends to whatever is stored: each accepted call adds the total value
    once more to the stored sum. *)
Lemma sumAmounts_app ms new : sumAmounts (ms ++ new) = sumAmounts ms + sumAmounts new.
Proof. induction ms as [|m ms IH]; simpl; [done|]. rewrite IH. lia. Qed.

Lemma addMilestones_adds_total v e L sender id ds amts ts L' ret :
  exec v e L sender (AddMilestones id ds amts ts) = Ok (L', ret) →
  state (contractAt L id) = ContractState.Draft
  ∧ map amount (milestones (contractAt L' id))
    = map amount (milestones (contractAt L id)) ++ amts
  ∧ sumAmounts (milestones (contractAt L' id))
    = sumAmounts (milestones (contractAt L id)) + totalValue (contractAt L id).
Proof.
  intros H.
  destruct v; unfold_entry H; open_calls; rewrite contractAt_store_eq; simpl;
    apply ContractState_eqb_eq in Hreq0;
    apply andb_true_iff in Hreq1 as [Hl1 Hl2];
    apply Nat.eqb_eq in Hl1, Hl2;
    apply N.eqb_eq in Hreq2;
    apply pushMilestones_Ok in Hrun0 as (new & Hms & _ & Hsum & Hmap);
    subst; rewrite map_app, sumAmounts_app, (Hmap Hl1 Hl2);
    repeat split; auto; lia.
Qed.

(** A call whose amounts sum to something else is refused, and nothing is
    stored. *)
Lemma addMilestones_rejects_other_sums v e L sender id ds amts ts total ms :
  mayUpdate v L sender id = true →
  state (contractAt L id) = ContractState.Draft →
  length ds = length amts → length amts = length ts →
  pushMilestones ds amts ts 0 (milestones (contractAt L id)) = Ok (total, ms) →
  total ≠ totalValue (contractAt L id) →
  exec v e L sender (AddMilestones id ds amts ts)
  = Err (Revert "Total milestone amounts must match contract value").
Proof.
  unfold mayUpdate. intros Hmay Hst Hl1 Hl2 Hpush Hne.
  apply N.eqb_neq in Hne.
  destruct v; cbn [exec]; unfold Basic.addMilestones, RoleGated.addMilestones;
    rewrite Hmay, Hst, Hl1, Hl2, !Nat.eqb_refl, Hpush; simpl; by rewrite Hne.
Qed.

(** The example of the specification: total 100, milestones 60 and 30. *)
Example addMilestones_60_30_of_100 :
  ∀ v : Variant,
    exec v env0 (Sample.created v) Sample.aSponsor
      (AddMilestones 0 ["a"%string; "b"%string] [60; 30] [1100; 1200])
    = Err (Revert "Total milestone amounts must match contract value")
    ∧ kindOf (Revert "Total milestone amounts must match contract value")
      = Some InvalidInput.
Proof. intros []; split; reflexivity. Qed.

(** C3, the code at the failing input.  The drafted sample holds a contract of
    total value 100 whose single milestone is 100.  A second [addMilestones]
    with one more milestone of 100 is accepted in both variants: the contract
    is still Draft and its stored amounts are [100; 100], summing to 200. *)
Theorem C3_repeated_addMilestones_breaks_sum :
  ∀ v : Variant,
    let L := Sample.drafted v in
    state (contractAt L 0) = ContractState.Draft
    ∧ totalValue (contractAt L 0) = 100
    ∧ sumAmounts (milestones (contractAt L 0)) = 100
    ∧ match exec v env0 L Sample.aSponsor
              (AddMilestones 0 ["again"%string] [100] [1600]) with
      | Ok (L', _) =>
          state (contractAt L' 0) = ContractState.Draft
          ∧ totalValue (contractAt L' 0) = 100
          ∧ map amount (milestones (contractAt L' 0)) = [100; 100]
          ∧ sumAmounts (milestones (contractAt L' 0)) = 200
      | Err _ => False
      end.
Proof. intros []; vm_compute; repeat split. Qed.

(** The role-gated [approveMilestone] derives Completed from the paid flags. *)
Lemma approveMilestone_completes e L sender id i L' ret :
  exec RoleGatedVariant e L sender (ReleasePayment id i) = Ok (L', ret) →
  state (contractAt L id) = ContractState.Active
  ∧ state (contractAt L' id)
    = if allCompleted (contractAt L' id) then ContractState.Completed
      else ContractState.Active.
Proof.
  intros H. unfold_entry H. open_calls.
  apply ContractState_eqb_eq in Hreq0.
  rewrite contractAt_emit, contractAt_store_eq. split; [done|].
  destruct (allCompleted (set_milestones _ _)) eqn:Hall; unfold allCompleted in *;
    simpl in *; rewrite Hall; done.
Qed.

(** No entry point of either variant sets Completed directly: the state is
    reached only from Active, in a payment release of the role-gated variant. *)
Lemma completed_only_by_release v e L sender c L' ret id :
  exec v e L sender c = Ok (L', ret) →
  id < contractCount L →
  state (contractAt L' id) = ContractState.Completed →
  state (contractAt L id) = ContractState.Completed
  ∨ (v = RoleGatedVariant ∧ state (contractAt L id) = ContractState.Active
     ∧ ∃ i, c = ReleasePayment id i).
Proof.
  intros H Hid Hc.
  destruct (exec_state _ _ _ _ _ _ _ H id)
    as [Hk | -> _ | _ _ Hs | _ Hs | _ [Hs | Hs] | i -> -> Hs _];
    try congruence; try lia; [left; congruence | eauto].
Qed.

(** The basic [releaseMilestonePayment] leaves the contract Active whatever
    the paid flags are. *)
Lemma releaseMilestonePayment_stays_active e L sender id i L' ret :
  exec BasicVariant e L sender (ReleasePayment id i) = Ok (L', ret) →
  state (contractAt L' id) = ContractState.Active.
Proof.
  intros H. unfold_entry H. open_calls.
  apply ContractState_eqb_eq in Hreq0.
  by rewrite contractAt_emit, contractAt_store_eq.
Qed.

(** C4, the code at the failing input.  In the basic variant the sponsor
    releases the payment of the only milestone of the delivered sample: the
    call succeeds, every milestone of the contract is paid, and the contract
    is still Active.  The same scenario on the role-gated variant ends
    Completed. *)
Theorem C4_basic_release_leaves_contract_active :
  match exec BasicVariant (sending 100)
          (Sample.delivered BasicVariant) Sample.aSponsor (ReleasePayment 0 0) with
  | Ok (L', _) =>
      allCompleted (contractAt L' 0) = true
      ∧ state (contractAt L' 0) = ContractState.Active
  | Err _ => False
  end
  ∧ match exec RoleGatedVariant env0
            (Sample.delivered RoleGatedVariant) Sample.aSponsor (ReleasePayment 0 0) with
    | Ok (L', _) =>
        allCompleted (contractAt L' 0) = true
        ∧ state (contractAt L' 0) = ContractState.Completed
    | Err _ => False
    end.
Proof. vm_compute. repeat split. Qed.

(** The end-to-end scenario of the specification (value 100, milestones 40
    and 60).  After the first payment the contract is Active with milestone 0
    paid, in both variants; after the second every milestone is paid, and the
    contract is Completed in the role-gated variant and still Active in the
    basic one. *)
Example end_to_end_scenario :
  (∀ v : Variant,
      state (contractAt (Sample.firstOfTwoPaid v) 0) = ContractState.Active
      ∧ map paid (milestones (contractAt (Sample.firstOfTwoPaid v) 0)) = [true; false]
      ∧ map paid (milestones (contractAt (Sample.bothPaid v) 0)) = [true; true])
  ∧ state (contractAt (Sample.bothPaid RoleGatedVariant) 0) = ContractState.Completed
  ∧ state (contractAt (Sample.bothPaid BasicVariant) 0) = ContractState.Active
  ∧ map pr_amount (released (Sample.bothPaid RoleGatedVariant)) = [40; 60].
Proof. split; [intros []; repeat split|repeat split]. Qed.

(** ** Reads of identifiers that were never assigned (C10) *)

Lemma sender_is_not_blank_party (sender : address) (c : SponsorshipContract) :
  sender ≠ 0 → blankHeader c →
  (sender =? athlete c) = false ∧ (sender =? sponsor c) = false.
Proof.
  intros Hs (-> & -> & _). split; by apply N.eqb_neq.
Qed.

(** Storage beyond [contractCount] keeps a blank header, under every call of
    an account. *)
Lemma exec_blank v e L sender c L' ret :
  sender ≠ 0 →
  exec v e L sender c = Ok (L', ret) →
  (∀ id, contractCount L ≤ id → blankHeader (contractAt L id)) →
  ∀ id, contractCount L' ≤ id → blankHeader (contractAt L' id).
Proof.
  intros Hs H Hblank id Hid.
  destruct v, c; unfold_entry H; open_calls; simpl in Hid;
    repeat match goal with
    | Ha : checked_add _ _ = Ok _ |- _ => apply checked_add_Ok in Ha as [-> ?]
    end;
    same_contract id; rewrite ?contractAt_set_acl, ?contractAt_set_contractCount;
    try (apply Hblank; lia); try lia;
    (* the call wrote the contract we look at, which is blank *)
    pose proof (Hblank _ Hid) as Hb;
    pose proof (sender_is_not_blank_party _ _ Hs Hb) as [Hna Hns];
    try (rewrite ?Hna, ?Hns in *; simpl in *; discriminate);
    try (destruct Hb as (_ & _ & _ & _ & _ & Hst & _);
         match goal with
         | Hd : ContractState.eqb _ _ = true |- _ =>
             apply ContractState_eqb_eq in Hd; congruence
         end);
    exact Hb.
Qed.

Lemma reachable_blank v L :
  reachable v L → ∀ id, contractCount L ≤ id → blankHeader (contractAt L id).
Proof.
  induction 1 as [deployer _ | L t L' ret _ IH Hvalid Hstep].
  - intros id _. destruct v; repeat split.
  - eapply exec_blank; eauto.
Qed.

Lemma run_reachable v txs : ∀ L,
  reachable v L → Forall validTx txs → reachable v (run v L txs).1.
Proof.
  induction txs as [|t txs IH]; intros L HL Htxs; simpl; [done|].
  apply Forall_cons in Htxs as [Ht Htxs].
  destruct (step v L t) as [[L' ret]|f] eqn:Hstep; [|by apply IH].
  assert (reachable v L') as HL' by (eapply reachable_step; eauto).
  specialize (IH L' HL' Htxs). by destruct (run v L' txs).
Qed.

(** Milestones appear on an id only through [addMilestones] for that id. *)
Lemma exec_no_milestones v e L sender c L' ret id :
  exec v e L sender c = Ok (L', ret) →
  (∀ ds amts ts, c ≠ AddMilestones id ds amts ts) →
  milestones (contractAt L id) = [] → milestones (contractAt L' id) = [].
Proof.
  intros H Hc Hms.
  destruct (exec_milestones _ _ _ _ _ _ _ H id)
    as [-> | new (ds & amts & ts & ->) _ _ | j m st ev Hj _ | i m _ Hm _ _ _].
  - done.
  - by destruct (Hc ds amts ts).
  - by rewrite Hms in Hj.
  - by rewrite Hms in Hm.
Qed.

Lemma run_no_milestones v txs : ∀ L id,
  Forall (λ t, ∀ ds amts ts, tx_call t ≠ AddMilestones id ds amts ts) txs →
  milestones (contractAt L id) = [] →
  milestones (contractAt (run v L txs).1 id) = [].
Proof.
  induction txs as [|t txs IH]; intros L id Htxs Hms; simpl; [done|].
  apply Forall_cons in Htxs as [Ht Htxs].
  destruct (step v L t) as [[L' ret]|f] eqn:Hstep; [|by apply IH].
  pose proof (exec_no_milestones _ _ _ _ _ _ _ id Hstep Ht Hms) as Hms'.
  specialize (IH L' id Htxs Hms'). by destruct (run v L' txs).
Qed.

(** In the basic variant only a party can add milestones, and an id beyond
    [contractCount] has none. *)
Lemma basic_reachable_no_milestones L :
  reachable BasicVariant L →
  ∀ id, contractCount L ≤ id → milestones (contractAt L id) = [].
Proof.
  induction 1 as [deployer _ | L t L' ret HL IH Hvalid Hstep]; [done|].
  intros id Hid.
  assert (contractCount L ≤ id) as Hid0.
  { destruct (exec_count _ _ _ _ _ _ _ Hstep) as [[_ Heq] | (_ & Heq & _)]; lia. }
  destruct (exec_milestones _ _ _ _ _ _ _ Hstep id)
    as [-> | new (ds & amts & ts & Hc) _ _ | j m st ev Hj _ | i m _ Hm _ _ _].
  - by apply IH.
  - exfalso. unfold step in Hstep. rewrite Hc in Hstep. unfold_entry Hstep. open_calls.
    destruct (sender_is_not_blank_party (tx_sender t) (contractAt L id) Hvalid
                (reachable_blank _ _ HL id Hid0)) as [Hna Hns].
    rewrite Hna, Hns in Hreq. discriminate.
  - by rewrite (IH id Hid0) in Hj.
  - by rewrite (IH id Hid0) in Hm.
Qed.

(** C10 as amended.  The reads have no failing path (they are total).  In
    every storage a deployed ledger can reach, for every id at or beyond
    [contractCount], [getContractDetails] reports the zero address for athlete
    and sponsor, zero for total value, start and end date, Draft, and the zero
    payment asset.  [getMilestoneCount] reports zero there in the basic
    variant; in the role-gated variant it reports zero for an id for which no
    [addMilestones] call was made (an agent's [addMilestones] on an id that
    was never created is accepted when its amounts sum to zero, and is then
    counted). *)
Theorem C10_reads_of_unassigned_ids :
  (∀ (v : Variant) (L : Ledger) (id : uint256),
      reachable v L → contractCount L ≤ id →
      let d := getContractDetails L id in
      d_athlete d = 0 ∧ d_sponsor d = 0 ∧ d_totalValue d = 0
      ∧ d_startDate d = 0 ∧ d_endDate d = 0
      ∧ d_state d = ContractState.Draft ∧ d_paymentToken d = 0
      ∧ (v = BasicVariant → getMilestoneCount L id = 0))
  ∧ (∀ (v : Variant) (deployer : address) (txs : list Tx) (id : uint256),
      Forall (λ t, ∀ ds amts ts, tx_call t ≠ AddMilestones id ds amts ts) txs →
      getMilestoneCount (run v (deploy v deployer) txs).1 id = 0).
Proof.
  split.
  - intros v L id HL Hid.
    destruct (reachable_blank v L HL id Hid) as (? & ? & ? & ? & ? & ? & ?).
    cbn. repeat split; auto.
    intros ->. unfold getMilestoneCount.
    by rewrite basic_reachable_no_milestones.
  - intros v deployer txs id Htxs. unfold getMilestoneCount.
    rewrite run_no_milestones; [done | done |]. by destruct v.
Qed.

(** On the sample with registered parties and one created contract, id 7 was
    never assigned and nobody added milestones to it. *)
Lemma C10_witness_unassigned_id :
  d_sponsor (getContractDetails (Sample.drafted RoleGatedVariant) 7) = 0
  ∧ getMilestoneCount (Sample.drafted RoleGatedVariant) 7 = 0.
Proof.
  destruct C10_reads_of_unassigned_ids as [Hdetails Hcount]. split.
  - refine (proj1 (proj2 (Hdetails RoleGatedVariant (Sample.drafted RoleGatedVariant) 7 _ _))).
    + apply run_reachable; [by apply reachable_deploy|].
      repeat constructor; discriminate.
    + vm_compute. discriminate.
  - apply (Hcount RoleGatedVariant Sample.admin). repeat constructor; discriminate.
Defined.

(** C10 as stated fails on the role-gated variant: an agent adds a milestone
    of amount zero to id 5, which was never created; [contractCount] is still
    0 and [getMilestoneCount 5] is 1. *)
Lemma C10_counterexample_phantom_milestone :
  reachable RoleGatedVariant Sample.phantomMilestone
  ∧ contractCount Sample.phantomMilestone ≤ 5
  ∧ getMilestoneCount Sample.phantomMilestone 5 = 1
  ∧ getMilestoneCount Sample.phantomMilestone 5 ≠ 0.
Proof.
  split; [|vm_compute; repeat split; discriminate].
  apply run_reachable; [by apply reachable_deploy|].
  repeat constructor; discriminate.
Qed.

(** ** Contract identifiers *)

Lemma countFrom_length a n : length (countFrom a n) = n.
Proof. revert a; induction n as [|n IH]; intros a; simpl; [done|]. by rewrite IH. Qed.

Lemma countFrom_bounds a n x : x ∈ countFrom a n → a ≤ x < a + N.of_nat n.
Proof.
  revert a; induction n as [|n IH]; intros a; simpl.
  - by intros ?%elem_of_nil.
  - intros [->|Hx%IH]%elem_of_cons; lia.
Qed.

Lemma countFrom_NoDup a n : NoDup (countFrom a n).
Proof.
  revert a; induction n as [|n IH]; intros a; simpl; constructor; [|done].
  intros Hin%countFrom_bounds. lia.
Qed.

Lemma ledger_run_ids v txs : ∀ L,
  (run v L txs).2 = countFrom (contractCount L) (length (run v L txs).2)
  ∧ contractCount (run v L txs).1
    = contractCount L + N.of_nat (length (run v L txs).2).
Proof.
  induction txs as [|t txs IH]; intros L; simpl; [split; [done | lia]|].
  destruct (step v L t) as [[L' ret]|f] eqn:Hstep; [|apply IH].
  specialize (IH L'). destruct (run v L' txs) as [Lf ids]. simpl in *.
  destruct IH as [Hids Hcount].
  destruct (exec_count _ _ _ _ _ _ _ Hstep) as [[-> Heq] | (-> & Heq & _)];
    simpl; rewrite Heq in *.
  - done.
  - split; [by rewrite <- Hids | lia].
Qed.

(** ** The dispute engine *)

Module DisputeFacts.
Import DisputeResolution.

Section Deployment.
Context (v : Variant) (this : address).

Lemma disputeAt_store_eq D d x : disputeAt (storeDispute D d x) d = x.
Proof. unfold disputeAt, storeDispute; simpl. by rewrite lookup_insert_eq. Qed.

Lemma disputeAt_store_ne D d d' x :
  d ≠ d' → disputeAt (storeDispute D d x) d' = disputeAt D d'.
Proof. intros. unfold disputeAt, storeDispute; simpl. by rewrite lookup_insert_ne. Qed.

Lemma recordVote_Ok dispute sender favor dispute' :
  recordVote dispute sender favor = Ok dispute' →
  contractId dispute' = contractId dispute
  ∧ resolved dispute' = resolved dispute
  ∧ votedArbitrators dispute' = votedArbitrators dispute ++ [sender]
  ∧ athleteVotes dispute' = athleteVotes dispute + (if favor then 1 else 0)
  ∧ sponsorVotes dispute' = sponsorVotes dispute + (if favor then 0 else 1).
Proof.
  unfold recordVote. intros H. destruct favor; open_calls;
    match goal with
    | Ha : checked_add _ _ = Ok _ |- _ => apply checked_add_Ok in Ha as [-> _]
    end; simpl; repeat split; lia.
Qed.

(** The ledger refuses a resolution for one of two reasons only. *)
Lemma ledger_resolveDispute_Err L id favor f :
  ledger_resolveDispute v this L id favor = Err f →
  f = Revert "Only arbitrator can resolve dispute"
  ∨ f = Revert "Contract not disputed".
Proof.
  unfold ledger_resolveDispute, Basic.resolveDispute, RoleGated.resolveDispute.
  destruct v; repeat case_require; intros [= <-]; auto.
Qed.

(** What a successful vote did. *)
Lemma voteOnDispute_Ok L D sender d favor L' D' :
  voteOnDispute v this L D sender d favor = Ok (L', D') →
  roles D ARBITRATOR_ROLE sender = true
  ∧ resolved (disputeAt D d) = false
  ∧ ∃ dispute',
      recordVote (disputeAt D d) sender favor = Ok dispute'
      ∧ votedArbitrators (disputeAt D' d) = votedArbitrators dispute'
      ∧ athleteVotes (disputeAt D' d) = athleteVotes dispute'
      ∧ sponsorVotes (disputeAt D' d) = sponsorVotes dispute'
      ∧ resolved (disputeAt D' d) = hasMajority dispute'
      ∧ (hasMajority dispute' = true →
         athleteFavor (disputeAt D' d)
         = (sponsorVotes dispute' <? athleteVotes dispute')
         ∧ ledger_resolveDispute v this L (contractId dispute')
             (sponsorVotes dispute' <? athleteVotes dispute') = Ok L')
      ∧ (hasMajority dispute' = false → L' = L)
      ∧ roles D' = roles D ∧ disputeCount D' = disputeCount D.
Proof.
  unfold voteOnDispute. intros H. open_calls.
  apply negb_true_iff in Hreq0. repeat split; [done | done |].
  exists x. split; [done|].
  pose proof (recordVote_Ok _ _ _ _ Hrun) as (_ & Hres & _).
  destruct (hasMajority x) eqn:Hmaj.
  - unfold resolveDispute in H. rewrite disputeAt_store_eq in H. open_calls.
    rewrite disputeAt_store_eq. simpl. repeat split; auto. discriminate.
  - open_calls. rewrite disputeAt_store_eq.
    repeat split; auto; try discriminate. congruence.
Qed.

Lemma vote_on_resolved_fails L D sender d favor :
  roles D ARBITRATOR_ROLE sender = true →
  resolved (disputeAt D d) = true →
  voteOnDispute v this L D sender d favor = Err (Revert "Dispute already resolved").
Proof. unfold voteOnDispute. intros -> ->. reflexivity. Qed.

Lemma hasMajority_first_vote dispute :
  length (votedArbitrators dispute) = 1%nat →
  (athleteVotes dispute = 1 ∨ sponsorVotes dispute = 1) →
  hasMajority dispute = true.
Proof.
  unfold hasMajority. intros -> [-> | ->]; simpl.
  - reflexivity.
  - apply orb_true_r.
Qed.
End Deployment.

(** The first vote on a dispute without votes decides it. *)
Lemma first_vote_decides v this L D sender d favor L' D' :
  voteOnDispute v this L D sender d favor = Ok (L', D') →
  votedArbitrators (disputeAt D d) = [] →
  athleteVotes (disputeAt D d) = 0 →
  sponsorVotes (disputeAt D d) = 0 →
  resolved (disputeAt D' d) = true
  ∧ athleteFavor (disputeAt D' d) = favor
  ∧ votedArbitrators (disputeAt D' d) = [sender]
  ∧ roles D' = roles D.
Proof.
  intros H Hv Ha0 Hs0.
  apply voteOnDispute_Ok in H
    as (_ & _ & x & Hrec & Hvoted & Ha & Hs & Hres & Hfav & _ & Hroles & _).
  apply recordVote_Ok in Hrec as (_ & _ & Hvoted' & Ha' & Hs').
  assert (hasMajority x = true) as Hmaj.
  { apply hasMajority_first_vote.
    - by rewrite Hvoted', Hv.
    - rewrite Ha', Hs', Ha0, Hs0. destruct favor; auto. }
  destruct (Hfav Hmaj) as [Hdir _].
  rewrite Hres, Hdir, Hvoted, Hvoted', Hv, Ha', Hs', Ha0, Hs0.
  split_and!; try done. by destruct favor.
Qed.

(** Two votes in a row on a dispute without votes: whatever the second voter
    says, the first vote has decided and the second is refused. *)
Corollary second_vote_is_refused v this W a1 a2 d favor1 favor2 W1 ret :
  dispatch v this W a1 (VoteOnDispute d favor1) = Ok (W1, ret) →
  votedArbitrators (disputeAt (engine W) d) = [] →
  athleteVotes (disputeAt (engine W) d) = 0 →
  sponsorVotes (disputeAt (engine W) d) = 0 →
  roles (engine W) ARBITRATOR_ROLE a2 = true →
  resolved (disputeAt (engine W1) d) = true
  ∧ athleteFavor (disputeAt (engine W1) d) = favor1
  ∧ votedArbitrators (disputeAt (engine W1) d) = [a1]
  ∧ dispatch v this W1 a2 (VoteOnDispute d favor2)
    = Err (Revert "Dispute already resolved").
Proof.
  unfold dispatch. intros H Hv Ha Hs Hrole.
  destruct (voteOnDispute v this (ledger W) (engine W) a1 d favor1)
    as [[L1 D1]|f] eqn:Hvote; [|discriminate].
  injection H as <- <-. simpl.
  destruct (first_vote_decides _ _ _ _ _ _ _ _ _ Hvote Hv Ha Hs)
    as (Hres & Hfav & Hvoted & Hroles).
  split_and!; [done | done | done |].
  rewrite vote_on_resolved_fails; [done | by rewrite Hroles | done].
Qed.

(** C1 as stated fails: three arbitrators are registered and dispute 0 is
    open without votes; after the votes (athleteFavor, sponsorFavor) of two
    of them the dispute is not Open: the first vote resolved it in the
    athlete's favor and the second was refused, only one vote is on record. *)
Lemma C1_counterexample_split_vote :
  resolved (disputeAt (engine Sample.openDispute) 0) = false
  ∧ votedArbitrators (disputeAt (engine Sample.openDispute) 0) = []
  ∧ Forall (λ a, roles (engine Sample.openDispute) ARBITRATOR_ROLE a = true)
      [Sample.arbiter1; Sample.arbiter2; Sample.arbiter3]
  ∧ resolved (disputeAt (engine Sample.afterSplitVote) 0) = true
  ∧ athleteFavor (disputeAt (engine Sample.afterSplitVote) 0) = true
  ∧ votedArbitrators (disputeAt (engine Sample.afterSplitVote) 0)
    = [Sample.arbiter1]
  ∧ resolved (disputeAt (engine Sample.afterSplitVote) 0) ≠ false.
Proof. vm_compute. repeat split; try discriminate; repeat constructor. Qed.

(** *** Votes on identifiers that were never created (C9) *)

Ltac unfold_engine H :=
  unfold dispatch, createDispute, submitEvidence, voteOnDispute,
    forceResolveDispute, resolveDispute, grantRole, revokeRole, renounceRole,
    withEngine in H.

Section Frame.
Context (v : Variant) (this : address).

(** One call of the pair: the dispute counter, and the records it leaves
    alone. *)
Lemma dispatch_frame W sender c W' ret :
  dispatch v this W sender c = Ok (W', ret) →
  ((ret = None ∧ disputeCount (engine W') = disputeCount (engine W))
   ∨ (ret = Some (disputeCount (engine W))
      ∧ disputeCount (engine W') = disputeCount (engine W) + 1))
  ∧ ∀ d, disputeCount (engine W') ≤ d →
         (∀ f, c ≠ VoteOnDispute d f ∧ c ≠ ForceResolveDispute d f) →
         disputeAt (engine W') d = disputeAt (engine W) d.
Proof.
  intros H.
  destruct c; unfold_engine H; open_calls;
    repeat match goal with
    | Ha : checked_add _ _ = Ok _ |- _ => apply checked_add_Ok in Ha as [-> _]
    | H : (if ?b then _ else _) = Ok _ |- _ => destruct b
    end; open_calls; simpl;
    (split; [auto|]); intros d' Hd Hc; simpl in Hd;
    try reflexivity.
  - unfold disputeAt; simpl. rewrite lookup_insert_ne by lia. done.
  - rewrite !disputeAt_store_ne; [done | |]; intros ->;
      by destruct (Hc favor) as [? _].
  - rewrite disputeAt_store_ne; [done|]. intros ->.
    by destruct (Hc favor) as [? _].
  - rewrite disputeAt_store_ne; [done|]. intros ->.
    by destruct (Hc favor) as [_ ?].
Qed.

Lemma dispute_run_ids txs : ∀ W,
  (run v this W txs).2
  = countFrom (disputeCount (engine W)) (length (run v this W txs).2)
  ∧ disputeCount (engine (run v this W txs).1)
    = disputeCount (engine W) + N.of_nat (length (run v this W txs).2).
Proof.
  induction txs as [|[sender c] txs IH]; intros W; simpl; [split; [done | lia]|].
  destruct (dispatch v this W sender c) as [[W' ret]|f] eqn:Hstep; [|apply IH].
  specialize (IH W'). destruct (run v this W' txs) as [Wf ids]. simpl in *.
  destruct IH as [Hids Hcount].
  destruct (dispatch_frame _ _ _ _ _ Hstep) as [[[-> Heq] | [-> Heq]] _];
    simpl; rewrite Heq in *.
  - done.
  - split; [by rewrite <- Hids | lia].
Qed.

Lemma run_leaves_unknown_disputes txs : ∀ W d,
  disputeCount (engine (run v this W txs).1) ≤ d →
  Forall (λ t, ∀ f, t.2 ≠ VoteOnDispute d f ∧ t.2 ≠ ForceResolveDispute d f) txs →
  disputeAt (engine (run v this W txs).1) d = disputeAt (engine W) d.
Proof.
  induction txs as [|[sender c] txs IH]; intros W d Hd Htxs; simpl in *; [done|].
  apply Forall_cons in Htxs as [Hc Htxs]. simpl in Hc.
  destruct (dispatch v this W sender c) as [[W' ret]|f] eqn:Hstep; [|by apply IH].
  pose proof (IH W' d) as IH'.
  pose proof (dispute_run_ids txs W') as [_ Hcount].
  destruct (run v this W' txs) as [Wf ids]. simpl in *.
  rewrite IH' by done.
  destruct (dispatch_frame _ _ _ _ _ Hstep) as [_ Hframe].
  apply Hframe; [lia | done].
Qed.

Lemma vote_on_blank_record L D sender d favor :
  roles D ARBITRATOR_ROLE sender = true →
  disputeAt D d = emptyDispute →
  voteOnDispute v this L D sender d favor
  = L' ← ledger_resolveDispute v this L 0 favor;
    Ok (L', storeDispute (storeDispute D d
              {| contractId := 0; initiator := 0; evidenceIPFSHash := EmptyString;
                 reason := EmptyString; timestamp := 0; resolved := false;
                 athleteFavor := false; votedArbitrators := [sender];
                 arbitratorVotes := <[sender := favor]> ∅;
                 athleteVotes := if favor then 1 else 0;
                 sponsorVotes := if favor then 0 else 1 |}) d
              {| contractId := 0; initiator := 0; evidenceIPFSHash := EmptyString;
                 reason := EmptyString; timestamp := 0; resolved := true;
                 athleteFavor := favor; votedArbitrators := [sender];
                 arbitratorVotes := <[sender := favor]> ∅;
                 athleteVotes := if favor then 1 else 0;
                 sponsorVotes := if favor then 0 else 1 |}).
Proof.
  intros Hrole Hblank. unfold voteOnDispute, resolveDispute, recordVote.
  rewrite Hrole, Hblank.
  destruct favor; cbn [emptyDispute athleteVotes sponsorVotes];
    rewrite checked_add_0_1; cbn; rewrite !disputeAt_store_eq; reflexivity.
Qed.
End Frame.

(** C9 as amended.  [voteOnDispute] never looks whether the dispute id was
    created.  On an id whose record is still the zero-initialised one, a
    vote of an account holding the Arbitrator role passes the engine's
    checks, counts as a strict majority, and calls the ledger's
    [resolveDispute] on contract id 0 in the direction of the vote.  The vote
    succeeds, leaving the record resolved in that direction with this one
    voter, exactly when that ledger call succeeds; when the ledger refuses
    (the engine is not an arbitrator of contract 0, or contract 0 is not
    Disputed) the whole vote reverts with the ledger's reason, never with a
    NotFound-kind error.  The record of an id is the zero-initialised one in
    every engine reached from deployment in which the id is at or beyond
    [disputeCount] (never returned by [createDispute]) and was neither voted
    on nor force-resolved. *)
Theorem C9_vote_on_unknown_dispute :
  (∀ (v : Variant) (this : address) (L : Ledger) (D : Storage)
     (sender : address) (d : uint256) (favor : bool),
      roles D ARBITRATOR_ROLE sender = true →
      disputeAt D d = emptyDispute →
      match ledger_resolveDispute v this L 0 favor with
      | Ok L' =>
          ∃ D', voteOnDispute v this L D sender d favor = Ok (L', D')
                ∧ resolved (disputeAt D' d) = true
                ∧ athleteFavor (disputeAt D' d) = favor
                ∧ votedArbitrators (disputeAt D' d) = [sender]
                ∧ contractId (disputeAt D' d) = 0
      | Err f =>
          voteOnDispute v this L D sender d favor = Err f
          ∧ (f = Revert "Only arbitrator can resolve dispute"
             ∨ f = Revert "Contract not disputed")
          ∧ kindOf f ≠ Some NotFound
      end)
  ∧ (∀ (v : Variant) (this : address) (L0 : Ledger) (deployer : address)
       (txs : list (address * Call)) (d : uint256),
      let W := (run v this {| ledger := L0; engine := deploy deployer |} txs).1 in
      disputeCount (engine W) ≤ d →
      Forall (λ t, ∀ f, t.2 ≠ VoteOnDispute d f ∧ t.2 ≠ ForceResolveDispute d f) txs →
      disputeAt (engine W) d = emptyDispute).
Proof.
  split.
  - intros v this L D sender d favor Hrole Hblank.
    rewrite (vote_on_blank_record v this L D sender d favor Hrole Hblank).
    destruct (ledger_resolveDispute v this L 0 favor) as [L'|f] eqn:HL; simpl.
    + eexists. split; [reflexivity|]. rewrite disputeAt_store_eq. done.
    + split; [done|].
      destruct (ledger_resolveDispute_Err _ _ _ _ _ _ HL) as [-> | ->];
        (split; [auto | discriminate]).
  - intros v this L0 deployer txs d W Hd Htxs. subst W.
    by rewrite run_leaves_unknown_disputes.
Qed.

(** In the sample with the open dispute 0, the engine is an arbitrator of the
    disputed contract 0: a vote on dispute 5, which does not exist, succeeds
    and is recorded as resolved. *)
Lemma C9_witness_phantom_vote :
  ∃ L' D',
    voteOnDispute BasicVariant Sample.engineAddress (ledger Sample.openDispute)
      (engine Sample.openDispute) Sample.arbiter1 5 true = Ok (L', D')
    ∧ resolved (disputeAt D' 5) = true.
Proof.
  destruct C9_vote_on_unknown_dispute as [Hvote _].
  pose proof (Hvote BasicVariant Sample.engineAddress (ledger Sample.openDispute)
                (engine Sample.openDispute) Sample.arbiter1 5 true
                eq_refl eq_refl) as H.
  destruct (ledger_resolveDispute BasicVariant Sample.engineAddress
              (ledger Sample.openDispute) 0 true) as [L'|f] eqn:HL;
    [|vm_compute in HL; discriminate].
  destruct H as (D' & Hok & Hres & _). exists L', D'. split; [exact Hok | exact Hres].
Defined.

(** C9 as stated fails: on a fresh deployment (no contract, no dispute) an
    arbitrator's vote on dispute 5 does not succeed; it reverts with the
    reason of the ledger's [resolveDispute], in either variant. *)
Lemma C9_counterexample_fresh_deployment :
  roles (engine (Sample.freshWorld BasicVariant)) ARBITRATOR_ROLE Sample.arbiter1
  = true
  ∧ disputeCount (engine (Sample.freshWorld BasicVariant)) = 0
  ∧ voteOnDispute BasicVariant Sample.engineAddress
      (ledger (Sample.freshWorld BasicVariant))
      (engine (Sample.freshWorld BasicVariant)) Sample.arbiter1 5 true
    = Err (Revert "Only arbitrator can resolve dispute")
  ∧ voteOnDispute RoleGatedVariant Sample.engineAddress
      (ledger (Sample.freshWorld RoleGatedVariant))
      (engine (Sample.freshWorld RoleGatedVariant)) Sample.arbiter1 5 true
    = Err (Revert "Only arbitrator can resolve dispute").
Proof. vm_compute. repeat split. Qed.
End DisputeFacts.

(** ** The token registry *)

Module TokenFacts.
Import SponsorshipNFT.

Lemma increment_small n : n < MAX_UINT256 → increment n = n + 1.
Proof.
  unfold increment, MAX_UINT256. intros Hn. apply N.mod_small.
  assert (0 < 2 ^ 256) by (apply N.neq_0_lt_0, N.pow_nonzero; discriminate). lia.
Qed.

Ltac unfold_token H :=
  unfold dispatch, mintSponsorshipNFT, recordRoyaltyPayment, transferFrom,
    grantRole, revokeRole, renounceRole, set_roles in H.

Lemma deploy_consistent deployer : tokensConsistent (deploy deployer).
Proof.
  split.
  - intros t. unfold _exists, ownerAt; simpl. rewrite lookup_empty; simpl.
    split; [discriminate | lia].
  - simpl. lia.
Qed.

(** One call: the counter, the id returned, and the invariant. *)
Lemma dispatch_tokens S sender c S' ret :
  dispatch S sender c = Ok (S', ret) →
  _tokenIds S < MAX_UINT256 →
  tokensConsistent S →
  tokensConsistent S'
  ∧ ((ret = None ∧ _tokenIds S' = _tokenIds S)
     ∨ (ret = Some (_tokenIds S + 1) ∧ _tokenIds S' = _tokenIds S + 1)).
Proof.
  intros H Hmax [Hex Hinv].
  destruct c; unfold_token H; open_calls;
    try (split; [split; assumption | left; split; reflexivity]).
  - (* mint *)
    rewrite increment_small in * by done.
    apply N.eqb_eq in Hreq0. apply negb_true_iff, N.eqb_neq in Hreq1.
    split; [|right; split; reflexivity].
    split; unfold _exists, ownerAt, tokenIdOfAt, contractIdOfAt in *; simpl.
    + intros t. destruct (decide (t = _tokenIds S + 1)) as [->|Hne].
      * rewrite lookup_insert_eq; simpl.
        split; [lia | intros _; by apply negb_true_iff, N.eqb_neq].
      * rewrite lookup_insert_ne by done. rewrite Hex. lia.
    + intros t Ht. destruct (decide (t = _tokenIds S + 1)) as [->|Hne].
      * by rewrite !lookup_insert_eq.
      * rewrite (lookup_insert_ne (contractIdOf S)) by done.
        assert (1 ≤ t ≤ _tokenIds S) as Ht' by lia.
        specialize (Hinv t Ht').
        rewrite lookup_insert_ne; [done|]. intros Heq. rewrite <- Heq in Hinv.
        rewrite Hreq0 in Hinv. lia.
  - (* transferFrom *)
    split; [|left; split; reflexivity].
    apply negb_true_iff, N.eqb_neq in Hreq2.
    split; unfold _exists, ownerAt, tokenIdOfAt, contractIdOfAt in *; simpl;
      [|exact Hinv].
    intros t. rewrite <- Hex. destruct (decide (t = tokenId)) as [->|Hne].
    + rewrite lookup_insert_eq; simpl. rewrite Hreq.
      split; [done | intros _; by apply negb_true_iff, N.eqb_neq].
    + by rewrite lookup_insert_ne.
Qed.

Lemma token_run_ids txs : ∀ S,
  tokensConsistent S →
  _tokenIds S + N.of_nat (length txs) ≤ MAX_UINT256 →
  tokensConsistent (run S txs).1
  ∧ (run S txs).2 = countFrom (_tokenIds S + 1) (length (run S txs).2)
  ∧ _tokenIds (run S txs).1 = _tokenIds S + N.of_nat (length (run S txs).2)
  ∧ (length (run S txs).2 ≤ length txs)%nat.
Proof.
  induction txs as [|[sender c] txs IH]; intros S HS Hlen.
  { simpl. split_and!; [exact HS | done | lia | lia]. }
  rewrite length_cons, Nat2N.inj_succ in Hlen. cbn [run length].
  destruct (dispatch S sender c) as [[S' ret]|f] eqn:Hstep.
  - assert (_tokenIds S < MAX_UINT256) as Hmax by lia.
    destruct (dispatch_tokens _ _ _ _ _ Hstep Hmax HS) as [HS' Hret].
    specialize (IH S' HS').
    destruct (run S' txs) as [Sf ids]. cbn [fst snd] in *.
    destruct Hret as [[-> Heq] | [-> Heq]]; rewrite Heq in IH; cbn [option_list app].
    + destruct IH as (? & ? & ? & ?); [lia|]. split_and!; auto; lia.
    + destruct IH as (? & Hids & ? & ?); [lia|].
      split_and!; auto; simpl; [by rewrite <- Hids | lia | lia].
  - destruct (IH S HS) as (? & ? & ? & ?); [lia|]. split_and!; auto; lia.
Qed.

Lemma countFrom_elem a n x : a ≤ x < a + N.of_nat n → x ∈ countFrom a n.
Proof.
  revert a; induction n as [|n IH]; intros a Hx; simpl; [lia|].
  destruct (decide (x = a)) as [->|Hne]; [by left|].
  right. apply IH. lia.
Qed.

(** C7.  In every storage the registry reaches from deployment (by fewer
    than 2^256 calls, so that the counter has not wrapped):
    - two existing tokens never carry the same contract id;
    - when a contract id has a token, every further mint for it fails, with
      "NFT already minted for this contract" (kind AlreadyExists) for a
      caller holding the minter role, who alone gets past the role check;
    - [getContractId] of a token id that no mint returned fails with
      "Token does not exist" (kind NotFound). *)
Theorem C7_one_token_per_contract :
  ∀ (deployer : address) (txs : list (address * Call)),
    N.of_nat (length txs) ≤ MAX_UINT256 →
    let S := (run (deploy deployer) txs).1 in
    let minted := (run (deploy deployer) txs).2 in
    (∀ t1 t2, _exists S t1 = true → _exists S t2 = true →
              contractIdOfAt S t1 = contractIdOfAt S t2 → t1 = t2)
    ∧ (∀ t, _exists S t = true →
            ∀ sender to uri a s, ∃ reason,
              mintSponsorshipNFT S sender to (contractIdOfAt S t) uri a s
              = Err (Revert reason)
              ∧ (roles S MINTER_ROLE sender = true →
                 reason = "NFT already minted for this contract"%string
                 ∧ kindOf (Revert reason) = Some AlreadyExists))
    ∧ (∀ t, t ∉ minted →
            getContractId S t = Err (Revert "Token does not exist")
            ∧ kindOf (Revert "Token does not exist") = Some NotFound).
Proof.
  intros deployer txs Hlen S minted.
  destruct (token_run_ids txs (deploy deployer) (deploy_consistent deployer))
    as ([Hex Hinv] & Hids & Hcount & _); [simpl; lia|].
  fold S in Hex, Hinv, Hcount. fold minted in Hids, Hcount. simpl in Hcount, Hids.
  split_and!.
  - intros t1 t2 H1%Hex H2%Hex Heq.
    rewrite <- (Hinv t1 H1), <- (Hinv t2 H2). by rewrite Heq.
  - intros t Ht%Hex sender to uri a s. unfold mintSponsorshipNFT.
    rewrite (Hinv t Ht).
    destruct (roles S MINTER_ROLE sender); simpl;
      [|eexists; split; [reflexivity | discriminate]].
    destruct (t =? 0) eqn:Ht0; [apply N.eqb_eq in Ht0; lia|].
    simpl. eexists; split; [reflexivity | intros _; split; reflexivity].
  - intros t Ht. split; [|reflexivity]. unfold getContractId.
    destruct (_exists S t) eqn:Hext; [|done].
    apply Hex in Hext. destruct Ht. rewrite Hids. apply countFrom_elem. lia.
Qed.

(** Two tokens minted for the contracts 0 and 1: a third mint for contract 0
    is refused, and token 3 does not exist. *)
Lemma C7_witness_two_tokens :
  (∃ reason,
     mintSponsorshipNFT Sample.twoTokens Sample.admin Sample.aSponsor
       (contractIdOfAt Sample.twoTokens 1) "ipfs://again" Sample.anAthlete
       Sample.aSponsor = Err (Revert reason)
     ∧ reason = "NFT already minted for this contract"%string)
  ∧ getContractId Sample.twoTokens 3 = Err (Revert "Token does not exist").
Proof.
  destruct (C7_one_token_per_contract Sample.admin [Sample.mint 0; Sample.mint 1])
    as (_ & Hmint & Hget); [vm_compute; discriminate|].
  split.
  - destruct (Hmint 1 eq_refl Sample.admin Sample.aSponsor "ipfs://again"%string
                Sample.anAthlete Sample.aSponsor) as (reason & Hfail & Hwhy).
    exists reason. split; [exact Hfail | apply Hwhy; reflexivity].
  - apply Hget. vm_compute. intros H.
    repeat (apply elem_of_cons in H as [H|H]; [discriminate|]).
    by apply elem_of_nil in H.
Defined.
End TokenFacts.

(** ** Identifiers (C6) *)

(** C6 as amended.  From deployment on, whatever calls are made:
    - the ids returned by the successful [createContract] calls of a ledger
      are 0, 1, 2, ... in this order;
    - so are the ids returned by the successful [createDispute] calls of an
      engine;
    - the ids returned by the successful mints of the token registry are
      1, 2, 3, ... in this order: token ids start at one, zero being the
      "no token" value of [tokenIdOf] (stated for fewer than 2^256 calls, the
      library counter being incremented without overflow check).
    In each series no id occurs twice. *)
Theorem C6_identifiers_are_sequential :
  (∀ (v : Variant) (deployer : address) (txs : list Tx),
      let ids := (run v (deploy v deployer) txs).2 in
      ids = countFrom 0 (length ids) ∧ NoDup ids)
  ∧ (∀ (v : Variant) (this : address) (L0 : Ledger) (deployer : address)
       (txs : list (address * DisputeResolution.Call)),
      let ids :=
        (DisputeResolution.run v this
           {| DisputeResolution.ledger := L0;
              DisputeResolution.engine := DisputeResolution.deploy deployer |}
           txs).2 in
      ids = countFrom 0 (length ids) ∧ NoDup ids)
  ∧ (∀ (deployer : address) (txs : list (address * SponsorshipNFT.Call)),
      N.of_nat (length txs) ≤ MAX_UINT256 →
      let ids := (SponsorshipNFT.run (SponsorshipNFT.deploy deployer) txs).2 in
      ids = countFrom 1 (length ids) ∧ NoDup ids).
Proof.
  split_and!.
  - intros v deployer txs ids.
    destruct (ledger_run_ids v txs (deploy v deployer)) as [Hids _].
    assert (contractCount (deploy v deployer) = 0) as H0 by (by destruct v).
    rewrite H0 in Hids. fold ids in Hids.
    split; [exact Hids | rewrite Hids; apply countFrom_NoDup].
  - intros v this L0 deployer txs ids.
    destruct (DisputeFacts.dispute_run_ids v this txs
                {| DisputeResolution.ledger := L0;
                   DisputeResolution.engine := DisputeResolution.deploy deployer |})
      as [Hids _].
    fold ids in Hids. simpl in Hids.
    split; [exact Hids | rewrite Hids; apply countFrom_NoDup].
  - intros deployer txs Hlen ids.
    destruct (TokenFacts.token_run_ids txs (SponsorshipNFT.deploy deployer)
                (TokenFacts.deploy_consistent deployer))
      as (_ & Hids & _); [simpl; lia|].
    fold ids in Hids. simpl in Hids.
    split; [exact Hids | rewrite Hids; apply countFrom_NoDup].
Qed.

(** Two mints on a fresh registry return the token ids 1 and 2. *)
Lemma C6_witness_two_mints :
  (SponsorshipNFT.run (SponsorshipNFT.deploy Sample.admin)
     [Sample.mint 0; Sample.mint 1]).2 = [1; 2].
Proof.
  destruct C6_identifiers_are_sequential as (_ & _ & Htokens).
  destruct (Htokens Sample.admin [Sample.mint 0; Sample.mint 1]) as [Hids _];
    [vm_compute; discriminate|].
  rewrite Hids. reflexivity.
Defined.

(** C6 as stated fails for the tokens: the first token minted after deployment
    has id 1, not 0. *)
Lemma C6_counterexample_first_token_is_one :
  (SponsorshipNFT.run (SponsorshipNFT.deploy Sample.admin) [Sample.mint 0]).2 = [1]
  ∧ (SponsorshipNFT.run (SponsorshipNFT.deploy Sample.admin) [Sample.mint 0]).2
    ≠ countFrom 0 1.
Proof. split; [reflexivity | discriminate]. Qed.

(** * Properties of the rest of the contracts *)

(** ** Milestones, one at a time *)

Lemma lookup_insert_Some_inv {A} (l : list A) (i j : nat) (x y : A) :
  <[i := x]> l !! j = Some y →
  (i = j ∧ y = x ∧ (i < length l)%nat) ∨ (i ≠ j ∧ l !! j = Some y).
Proof.
  intros H. destruct (decide (i = j)) as [->|Hne].
  - destruct (decide (j < length l)%nat) as [Hlt|Hge].
    + rewrite list_lookup_insert_eq in H by done. left. split_and!; congruence.
    + rewrite list_insert_ge in H by lia. right.
      apply lookup_lt_Some in H. lia.
  - rewrite list_lookup_insert_ne in H by done. auto.
Qed.

(** Every stored milestone stays at its index; a call moves it at most one
    step, and only while the contract is Active. *)
Lemma exec_moves v e L sender c L' ret :
  exec v e L sender c = Ok (L', ret) →
  ∀ id j m,
    milestones (contractAt L id) !! j = Some m →
    ∃ m', milestones (contractAt L' id) !! j = Some m'
          ∧ MilestoneMove v m m'
          ∧ (m' = m ∨ state (contractAt L id) = ContractState.Active).
Proof.
  intros H id j m Hm.
  destruct v, c; unfold_entry H; open_calls; same_contract id;
    repeat match goal with
    | Hs : ContractState.eqb _ _ = true |- _ => apply ContractState_eqb_eq in Hs
    | Hs : MilestoneStatus.eqb _ _ = true |- _ => apply MilestoneStatus_eqb_eq in Hs
    | Hn : negb _ = true |- _ => apply negb_true_iff in Hn
    | Hp : pushMilestones _ _ _ _ _ = Ok _ |- _ =>
        apply pushMilestones_Ok in Hp as (new & -> & _)
    end;
    try (match goal with
         | |- context [if ?b then _ else _] => destruct b
         end);
    simpl;
    try (exists m; split; [first [exact Hm | by apply lookup_app_l_Some] |
                           split; [by apply move_none | by left]]);
    (destruct (decide (N.to_nat milestoneIndex = j)) as [<-|Hne];
     [ rewrite list_lookup_insert_eq by (eapply lookup_lt_Some; eauto);
       assert (m = m0) as -> by congruence;
       eexists; split; [reflexivity|]; split; [|by right];
       first [ by eapply move_submitted | by eapply move_paid
             | by eapply move_rejected ]
     | rewrite list_lookup_insert_ne by done;
       exists m; split; [done|]; split; [by apply move_none | by left] ]).
Qed.

(** A milestone found after a call was there before, or was just pushed by
    [addMilestones]: Pending and unpaid. *)
Lemma exec_moves_back v e L sender c L' ret :
  exec v e L sender c = Ok (L', ret) →
  ∀ id j m',
    milestones (contractAt L' id) !! j = Some m' →
    (∃ m, milestones (contractAt L id) !! j = Some m ∧ MilestoneMove v m m')
    ∨ (milestones (contractAt L id) !! j = None
       ∧ paid m' = false ∧ status m' = MilestoneStatus.Pending).
Proof.
  intros H id j m' Hm'.
  destruct (milestones (contractAt L id) !! j) as [m|] eqn:Hm.
  - left. exists m. split; [done|].
    destruct (exec_moves _ _ _ _ _ _ _ H id j m Hm) as (m2 & Hm2 & Hmove & _).
    congruence.
  - right. split; [done|].
    destruct (exec_milestones _ _ _ _ _ _ _ H id)
      as [Heq | new _ Heq Hnew | i m st ev Hi Heq | i m _ Hi _ _ Heq];
      rewrite Heq in Hm'.
    + congruence.
    + rewrite lookup_app_r in Hm' by (apply lookup_ge_None; done).
      by eapply Forall_lookup_1 in Hnew.
    + apply lookup_insert_Some_inv in Hm' as [(-> & _ & _) | [_ Hx]]; congruence.
    + apply lookup_insert_Some_inv in Hm' as [(<- & _ & _) | [_ Hx]]; congruence.
Qed.

Lemma move_keeps_terms v m m' :
  MilestoneMove v m m' →
  description m' = description m ∧ amount m' = amount m ∧ deadline m' = deadline m.
Proof. by intros [-> | ev _ -> | _ _ _ -> | _ _ ->]. Qed.

Lemma move_of_settled v m m' : MilestoneMove v m m' → settledMilestone m → m' = m.
Proof.
  intros [-> | ev Hs -> | _ Hs Hp -> | Hs Hp ->] [Hr | [Hc Hpaid]];
    try done; congruence.
Qed.

Lemma move_keeps_sound v m m' :
  MilestoneMove v m m' → soundMilestone v m → soundMilestone v m'.
Proof.
  intros [-> | ev Hs -> | -> Hs Hp -> | Hs Hp ->] (Hd & Hpaid & Hrej); [done| | |];
    unfold soundMilestone; simpl; split_and!; try done; congruence.
Qed.

(** X1.  The description, the amount and the deadline of a stored milestone,
    and its index, never change: whatever transactions follow, the same index
    holds a milestone with the same three fields. *)
Theorem milestone_terms_are_permanent :
  ∀ (v : Variant) (txs : list Tx) (L : Ledger) (id : uint256) (j : nat)
    (m : Milestone),
    milestones (contractAt L id) !! j = Some m →
    ∃ m', milestones (contractAt (run v L txs).1 id) !! j = Some m'
          ∧ description m' = description m
          ∧ amount m' = amount m
          ∧ deadline m' = deadline m.
Proof.
  intros v txs. induction txs as [|t txs IH]; intros L id j m Hm; simpl; [by eauto|].
  destruct (step v L t) as [[L' ret]|f] eqn:Hstep; [|by apply IH].
  destruct (exec_moves _ _ _ _ _ _ _ Hstep id j m Hm) as (m1 & Hm1 & Hmove & _).
  apply move_keeps_terms in Hmove as (Hd & Ha & Ht).
  destruct (IH L' id j m1 Hm1) as (m2 & Hm2 & Hd2 & Ha2 & Ht2).
  destruct (run v L' txs) as [Lf ids]. simpl in *.
  exists m2. split_and!; congruence.
Qed.

(** The first milestone of the two-milestone sample keeps its amount of 40
    through the delivery and the payment of the second. *)
Lemma milestone_terms_witness :
  ∃ m', milestones (contractAt (Sample.bothPaid RoleGatedVariant) 0) !! 0%nat = Some m'
        ∧ amount m' = 40.
Proof.
  destruct (milestone_terms_are_permanent RoleGatedVariant
              [ Sample.tx Sample.anAthlete (SubmitMilestone 0 1 "QmSecond");
                Sample.release RoleGatedVariant 1 60 ]
              (Sample.firstOfTwoPaid RoleGatedVariant) 0 0%nat
              {| description := "first"; amount := 40; deadline := 1010;
                 status := MilestoneStatus.Completed; evidence := "QmFirst";
                 paid := true |} eq_refl) as (m' & Hm' & _ & Ha & _).
  exists m'. split; [exact Hm' | exact Ha].
Defined.

Lemma run_keeps_settled v txs : ∀ L id j m,
  milestones (contractAt L id) !! j = Some m → settledMilestone m →
  milestones (contractAt (run v L txs).1 id) !! j = Some m.
Proof.
  induction txs as [|t txs IH]; intros L id j m Hm Hset; simpl; [done|].
  destruct (step v L t) as [[L' ret]|f] eqn:Hstep; [|by apply IH].
  destruct (exec_moves _ _ _ _ _ _ _ Hstep id j m Hm) as (m1 & Hm1 & Hmove & _).
  apply (move_of_settled _ _ _ Hmove) in Hset as Heq. subst m1.
  specialize (IH L' id j m Hm1 Hset). by destruct (run v L' txs).
Qed.

(** The three calls that act on one milestone need it Pending, or Completed
    and unpaid. *)
Lemma milestone_call_needs_open v e L sender id i L' ret c :
  (c = ReleasePayment id i ∨ (∃ ev, c = SubmitMilestone id i ev)
   ∨ ∃ r, c = RejectMilestone id i r) →
  exec v e L sender c = Ok (L', ret) →
  ∃ m, milestones (contractAt L id) !! N.to_nat i = Some m ∧ ¬ settledMilestone m.
Proof.
  intros [-> | [[ev ->] | [r ->]]] H;
    destruct v; unfold_entry H; open_calls;
    repeat match goal with
    | Hs : MilestoneStatus.eqb _ _ = true |- _ => apply MilestoneStatus_eqb_eq in Hs
    | Hn : negb _ = true |- _ => apply negb_true_iff in Hn
    end;
    (eexists; split; [reflexivity|]);
    intros [Hr | [Hc Hp]]; congruence.
Qed.

(** X2.  A milestone that is Rejected, or Completed and paid, is final: after
    any transactions the same index holds the very same record, and every
    further submit, payment release or rejection of it fails, for every caller
    and environment. *)
Theorem settled_milestones_are_final :
  ∀ (v : Variant) (txs : list Tx) (L : Ledger) (id i : uint256) (m : Milestone),
    milestones (contractAt L id) !! N.to_nat i = Some m →
    settledMilestone m →
    let L2 := (run v L txs).1 in
    milestones (contractAt L2 id) !! N.to_nat i = Some m
    ∧ ∀ e sender,
        (∀ ev, ∃ f, exec v e L2 sender (SubmitMilestone id i ev) = Err f)
        ∧ (∃ f, exec v e L2 sender (ReleasePayment id i) = Err f)
        ∧ (∀ r, ∃ f, exec v e L2 sender (RejectMilestone id i r) = Err f).
Proof.
  intros v txs L id i m Hm Hset L2.
  pose proof (run_keeps_settled v txs L id _ m Hm Hset) as Hm2. fold L2 in Hm2.
  split; [exact Hm2|].
  assert (∀ e sender c,
            (c = ReleasePayment id i ∨ (∃ ev, c = SubmitMilestone id i ev)
             ∨ ∃ r, c = RejectMilestone id i r) →
            ∃ f, exec v e L2 sender c = Err f) as Hfail.
  { intros e sender c Hc.
    destruct (exec v e L2 sender c) as [[L3 ret]|f] eqn:Hexec; [|by eauto].
    destruct (milestone_call_needs_open _ _ _ _ _ _ _ _ _ Hc Hexec) as (m0 & Hm0 & Hopen).
    rewrite Hm2 in Hm0. injection Hm0 as <-. by destruct Hopen. }
  intros e sender. split_and!.
  - intros ev. apply Hfail. right; left; eauto.
  - apply Hfail. by left.
  - intros r. apply Hfail. right; right; eauto.
Qed.

(** The paid milestone of the settled sample stays as it is when the athlete
    tries to deliver it again and the sponsor to pay it again. *)
Lemma settled_milestones_witness :
  milestones (contractAt
      (run RoleGatedVariant (Sample.settled RoleGatedVariant)
         [ Sample.tx Sample.anAthlete (SubmitMilestone 0 0 "QmAgain");
           Sample.release RoleGatedVariant 0 100 ]).1 0) !! 0%nat
  = milestones (contractAt (Sample.settled RoleGatedVariant) 0) !! 0%nat.
Proof.
  refine (proj1 (settled_milestones_are_final RoleGatedVariant
            [ Sample.tx Sample.anAthlete (SubmitMilestone 0 0 "QmAgain");
              Sample.release RoleGatedVariant 0 100 ]
            (Sample.settled RoleGatedVariant) 0 0 _ eq_refl _)).
  right. split; reflexivity.
Defined.

(** X3.  In every storage a deployed ledger can reach, each milestone is
    Pending, Completed or Rejected (the status Disputed is never assigned), a
    paid milestone is Completed, and in the basic variant, which has no
    rejection entry point, none is Rejected. *)
Theorem reachable_milestones_are_sound :
  ∀ (v : Variant) (L : Ledger),
    reachable v L →
    ∀ (id : uint256) (j : nat) (m : Milestone),
      milestones (contractAt L id) !! j = Some m → soundMilestone v m.
Proof.
  intros v L HL. induction HL as [deployer _ | L t L' ret _ IH _ Hstep].
  - intros id j m Hm. by destruct v.
  - intros id j m' Hm'.
    destruct (exec_moves_back _ _ _ _ _ _ _ Hstep id j m' Hm')
      as [(m & Hm & Hmove) | (_ & Hp & Hs)].
    + eapply move_keeps_sound; eauto.
    + unfold soundMilestone. rewrite Hp, Hs. split_and!; done.
Qed.

(** The settled basic sample is reachable; its only milestone is paid and
    Completed. *)
Lemma reachable_milestones_witness :
  reachable BasicVariant (Sample.settled BasicVariant)
  ∧ soundMilestone BasicVariant
      {| description := "final"; amount := 100; deadline := 1500;
         status := MilestoneStatus.Completed; evidence := "QmEvidence";
         paid := true |}.
Proof.
  assert (reachable BasicVariant (Sample.settled BasicVariant)) as HL.
  { repeat (apply run_reachable; [|repeat constructor; discriminate]).
    by apply reachable_deploy. }
  split; [exact HL|].
  exact (reachable_milestones_are_sound BasicVariant
           (Sample.settled BasicVariant) HL 0 0%nat _ eq_refl).
Defined.

(** X4.  The entry points act on milestones only while the contract is Active:
    on a contract in any other state (Draft, Disputed, Completed, Terminated)
    a successful call, whatever it is, leaves every stored milestone as it
    was. *)
Theorem milestones_move_only_while_active :
  ∀ (v : Variant) (e : Env) (L : Ledger) (sender : address) (c : LedgerCall)
    (L' : Ledger) (ret : option uint256) (id : uint256) (j : nat) (m : Milestone),
    exec v e L sender c = Ok (L', ret) →
    state (contractAt L id) ≠ ContractState.Active →
    milestones (contractAt L id) !! j = Some m →
    milestones (contractAt L' id) !! j = Some m.
Proof.
  intros v e L sender c L' ret id j m H Hst Hm.
  destruct (exec_moves _ _ _ _ _ _ _ H id j m Hm) as (m' & Hm' & _ & [-> | Hact]);
    [exact Hm' | by destruct Hst].
Qed.

(** While the drafted sample is Draft, the athlete amends the document: the
    milestone is untouched. *)
Lemma milestones_move_witness :
  ∃ L',
    exec RoleGatedVariant env0 (Sample.drafted RoleGatedVariant) Sample.anAthlete
      (UpdateContract 0 "QmAmended") = Ok (L', None)
    ∧ milestones (contractAt L' 0) !! 0%nat
      = milestones (contractAt (Sample.drafted RoleGatedVariant) 0) !! 0%nat.
Proof.
  destruct (exec RoleGatedVariant env0 (Sample.drafted RoleGatedVariant)
              Sample.anAthlete (UpdateContract 0 "QmAmended"))
    as [[L' ret]|f] eqn:H; [|vm_compute in H; discriminate].
  assert (ret = None) as -> by (by apply updateContract_inv in H as [_ ->]).
  exists L'. split; [reflexivity|].
  exact (milestones_move_only_while_active _ _ _ _ _ _ _ 0 0%nat _ H
           ltac:(discriminate) eq_refl).
Defined.

(** ** The terms of a contract and its closed states *)

Lemma exec_keeps_terms v e L sender c L' ret id :
  exec v e L sender c = Ok (L', ret) →
  id < contractCount L →
  sameTerms (contractAt L id) (contractAt L' id).
Proof.
  intros H Hid.
  destruct v, c; unfold_entry H; open_calls; same_contract id;
    rewrite ?contractAt_set_acl, ?contractAt_set_contractCount;
    try lia;
    try (match goal with
         | |- context [if ?b then _ else _] => destruct b
         end);
    by repeat split.
Qed.

(** X5.  The terms of a created contract (athlete, sponsor, total value,
    start and end date, payment asset, arbitrator list) are fixed at creation:
    no sequence of transactions changes any of them. *)
Theorem contract_terms_are_permanent :
  ∀ (v : Variant) (txs : list Tx) (L : Ledger) (id : uint256),
    id < contractCount L →
    sameTerms (contractAt L id) (contractAt (run v L txs).1 id).
Proof.
  intros v txs. induction txs as [|t txs IH]; intros L id Hid; simpl.
  { by repeat split. }
  destruct (step v L t) as [[L' ret]|f] eqn:Hstep; [|by apply IH].
  pose proof (exec_keeps_terms _ _ _ _ _ _ _ id Hstep Hid) as H1.
  assert (id < contractCount L') as Hid'.
  { destruct (exec_count _ _ _ _ _ _ _ Hstep) as [[_ ->] | (_ & -> & _)]; lia. }
  specialize (IH L' id Hid'). destruct (run v L' txs) as [Lf ids]. simpl in *.
  destruct H1 as (? & ? & ? & ? & ? & ? & ?), IH as (? & ? & ? & ? & ? & ? & ?).
  unfold sameTerms. split_and!; congruence.
Qed.

(** The sponsor of the sample contract is the same after the whole scenario. *)
Lemma contract_terms_witness :
  sponsor (contractAt (Sample.bothPaid RoleGatedVariant) 0) = Sample.aSponsor.
Proof.
  destruct (contract_terms_are_permanent RoleGatedVariant
              [ Sample.tx Sample.anAthlete (SubmitMilestone 0 1 "QmSecond");
                Sample.release RoleGatedVariant 1 60 ]
              (Sample.firstOfTwoPaid RoleGatedVariant) 0 eq_refl)
    as (_ & Hs & _).
  exact Hs.
Defined.

Lemma exec_keeps_closed v e L sender c L' ret id :
  exec v e L sender c = Ok (L', ret) →
  id < contractCount L →
  closedState (state (contractAt L id)) →
  state (contractAt L' id) = state (contractAt L id)
  ∧ milestones (contractAt L' id) = milestones (contractAt L id).
Proof.
  intros H Hid Hclosed. split.
  - destruct (exec_state _ _ _ _ _ _ _ H id)
      as [Hk | -> _ | _ Hs _ | Hs _ | Hs _ | i _ _ Hs _];
      [done | lia | | | |]; destruct Hclosed; congruence.
  - assert (state (contractAt L id) ≠ ContractState.Active) as Hna
      by (destruct Hclosed; congruence).
    destruct (exec_milestones _ _ _ _ _ _ _ H id)
      as [Heq | new (ds & amts & ts & ->) _ _ | j m st ev Hj Heq | i m _ Hj _ _ Heq].
    + done.
    + apply addMilestones_adds_total in H as [Hd _].
      destruct Hclosed; congruence.
    + destruct (exec_moves _ _ _ _ _ _ _ H id j m Hj)
        as (m' & Hsame & _ & [-> | Hact]); [|by destruct Hna].
      rewrite Heq in Hsame |- *.
      rewrite list_lookup_insert_eq in Hsame by (eapply lookup_lt_Some; eauto).
      injection Hsame as ->. by apply list_insert_id.
    + destruct (exec_moves _ _ _ _ _ _ _ H id _ m Hj)
        as (m' & Hsame & _ & [-> | Hact]); [|by destruct Hna].
      rewrite Heq in Hsame |- *.
      rewrite list_lookup_insert_eq in Hsame by (eapply lookup_lt_Some; eauto).
      injection Hsame as ->. by apply list_insert_id.
Qed.

(** X6.  Completed and Terminated are terminal: once a created contract is in
    one of them, no sequence of transactions changes its state or any of its
    milestones (only its document can still be amended). *)
Theorem closed_contracts_are_frozen :
  ∀ (v : Variant) (txs : list Tx) (L : Ledger) (id : uint256),
    id < contractCount L →
    closedState (state (contractAt L id)) →
    state (contractAt (run v L txs).1 id) = state (contractAt L id)
    ∧ milestones (contractAt (run v L txs).1 id) = milestones (contractAt L id).
Proof.
  intros v txs. induction txs as [|t txs IH]; intros L id Hid Hclosed; simpl; [done|].
  destruct (step v L t) as [[L' ret]|f] eqn:Hstep; [|by apply IH].
  destruct (exec_keeps_closed _ _ _ _ _ _ _ id Hstep Hid Hclosed) as [Hst Hms].
  assert (id < contractCount L') as Hid'.
  { destruct (exec_count _ _ _ _ _ _ _ Hstep) as [[_ ->] | (_ & -> & _)]; lia. }
  rewrite <- Hst in Hclosed. specialize (IH L' id Hid' Hclosed).
  destruct (run v L' txs) as [Lf ids]. simpl in *.
  destruct IH as [-> ->]. done.
Qed.

(** The sample contract, Completed after its two payments, stays Completed
    when a dispute is raised and an activation attempted. *)
Lemma closed_contracts_witness :
  state (contractAt
           (run RoleGatedVariant (Sample.bothPaid RoleGatedVariant)
              [ Sample.tx Sample.anAthlete (RaiseDispute 0 "too late");
                Sample.tx Sample.aSponsor (ActivateContract 0) ]).1 0)
  = ContractState.Completed.
Proof.
  destruct (closed_contracts_are_frozen RoleGatedVariant
              [ Sample.tx Sample.anAthlete (RaiseDispute 0 "too late");
                Sample.tx Sample.aSponsor (ActivateContract 0) ]
              (Sample.bothPaid RoleGatedVariant) 0 eq_refl)
    as [Hst _]; [by left|].
  exact Hst.
Defined.

(** ** The payment log *)

Lemma move_keeps_paid v m m' : MilestoneMove v m m' → paid m = true → paid m' = true.
Proof. by intros [-> | ev _ -> | _ _ _ -> | _ _ ->]. Qed.

(** A successful release appends the event of its milestone, with the
    milestone's amount. *)
Lemma exec_release_inv v e L sender id i L' ret :
  exec v e L sender (ReleasePayment id i) = Ok (L', ret) →
  ∃ m, milestones (contractAt L id) !! N.to_nat i = Some m
       ∧ released L'
         = released L ++ [{| pr_contractId := id; pr_milestoneIndex := i;
                             pr_amount := amount m |}].
Proof.
  intros H. destruct v; unfold_entry H; open_calls; eauto.
Qed.

Lemma exec_keeps_log v e L sender c L' ret :
  exec v e L sender c = Ok (L', ret) →
  logMatchesMilestones L → logMatchesMilestones L'.
Proof.
  intros H [Hpaid Hlog].
  assert (∀ ev, ev ∈ released L → ev ∈ released L') as Hsub.
  { intros ev Hev.
    destruct (exec_released _ _ _ _ _ _ _ H) as [-> | (? & ? & ? & _ & ->)];
      [done | apply elem_of_app; auto]. }
  assert (∀ ev, ev ∈ released L →
            ∃ m, milestones (contractAt L' (pr_contractId ev))
                   !! N.to_nat (pr_milestoneIndex ev) = Some m
                 ∧ paid m = true ∧ pr_amount ev = amount m) as Hold.
  { intros ev Hev. destruct (Hlog ev Hev) as (m & Hm & Hp & Ha).
    destruct (exec_moves _ _ _ _ _ _ _ H _ _ m Hm) as (m' & Hm' & Hmove & _).
    exists m'. split_and!; [done | by eapply move_keeps_paid |].
    destruct (move_keeps_terms _ _ _ Hmove) as (_ & -> & _). done. }
  split.
  - intros id j m' Hm' Hp'.
    destruct (exec_moves_back _ _ _ _ _ _ _ H id j m' Hm')
      as [(m & Hm & Hmove) | (_ & Hp & _)]; [|congruence].
    destruct (move_keeps_terms _ _ _ Hmove) as (_ & Ha & _).
    destruct (paid m) eqn:Hp.
    + destruct (Hpaid id j m Hm Hp) as (ev & Hev & ? & ? & ?).
      exists ev. split_and!; [by apply Hsub | done | done | congruence].
    + assert (c = ReleasePayment id (N.of_nat j)) as ->.
      { apply (paid_changes_only_by_release _ _ _ _ _ _ _ id (N.of_nat j) H);
          unfold isPaid, paidIn; rewrite Nat2N.id; [by rewrite Hm | by rewrite Hm']. }
      destruct (exec_release_inv _ _ _ _ _ _ _ _ H) as (m0 & Hm0 & ->).
      rewrite Nat2N.id in Hm0. assert (m0 = m) as -> by congruence.
      eexists. split; [apply elem_of_app; right; by apply list_elem_of_singleton|].
      simpl. rewrite Nat2N.id. split_and!; congruence.
  - intros ev Hev.
    destruct (exec_released _ _ _ _ _ _ _ H) as [Heq | (id & i & amt & -> & Heq)].
    + rewrite Heq in Hev. by apply Hold.
    + destruct (exec_release_inv _ _ _ _ _ _ _ _ H) as (m & Hm & Heq').
      rewrite Heq' in Hev.
      apply elem_of_app in Hev as [Hev | ->%list_elem_of_singleton];
        [by apply Hold|]. simpl.
      destruct (exec_moves _ _ _ _ _ _ _ H _ _ m Hm) as (m' & Hm' & Hmove & _).
      destruct (move_keeps_terms _ _ _ Hmove) as (_ & Ha & _).
      exists m'. split_and!; [done | | congruence].
      destruct (release_sets_paid _ _ _ _ _ _ _ _ H) as [_ Hp].
      unfold isPaid, paidIn in Hp. by rewrite Hm' in Hp.
Qed.

Lemma run_keeps_log v txs : ∀ L,
  logMatchesMilestones L → logMatchesMilestones (run v L txs).1.
Proof.
  induction txs as [|t txs IH]; intros L HL; simpl; [done|].
  destruct (step v L t) as [[L' ret]|f] eqn:Hstep; [|by apply IH].
  specialize (IH L' (exec_keeps_log _ _ _ _ _ _ _ Hstep HL)).
  by destruct (run v L' txs).
Qed.

(** X7.  The payment log is exact.  From deployment on, whatever calls are
    made by whomever: every milestone whose [paid] flag is set has a
    [PaymentReleased] event naming it with the milestone's own amount, and
    every event on record names a stored milestone that is paid and has the
    amount of the event. *)
Theorem payment_log_is_exact :
  ∀ (v : Variant) (deployer : address) (txs : list Tx),
    logMatchesMilestones (run v (deploy v deployer) txs).1.
Proof.
  intros v deployer txs. apply run_keeps_log. split.
  - intros id j m Hm. unfold contractAt in Hm.
    destruct v; simpl in Hm; rewrite lookup_empty in Hm; simpl in Hm;
      by rewrite lookup_nil in Hm.
  - intros ev Hev. destruct v; by apply elem_of_nil in Hev.
Qed.

(** ** Leaving a dispute *)

(** X8.  A disputed contract is left to its arbitrators: a successful call
    that takes a created contract out of Disputed is [resolveDispute] on that
    contract, sent by somebody who may resolve it, and the contract is then
    Active (athlete's favor) or Terminated (sponsor's favor); and
    [resolveDispute] sent by somebody who may resolve it does succeed. *)
Theorem disputed_is_left_by_resolution_only :
  ∀ (v : Variant) (e : Env) (L : Ledger) (sender : address) (id : uint256),
    id < contractCount L →
    state (contractAt L id) = ContractState.Disputed →
    (∀ c L' ret,
        exec v e L sender c = Ok (L', ret) →
        state (contractAt L' id) ≠ ContractState.Disputed →
        ∃ favor, c = ResolveDispute id favor
                 ∧ mayResolve v L sender id = true
                 ∧ state (contractAt L' id)
                   = (if favor then ContractState.Active
                      else ContractState.Terminated))
    ∧ (mayResolve v L sender id = true →
       ∀ favor, ∃ L',
         exec v e L sender (ResolveDispute id favor) = Ok (L', None)
         ∧ state (contractAt L' id)
           = (if favor then ContractState.Active else ContractState.Terminated)).
Proof.
  intros v e L sender id Hid Hst. split.
  - intros c L' ret H Hleft.
    destruct v, c; unfold_entry H; open_calls; revert Hleft; same_contract id;
      rewrite ?contractAt_set_acl, ?contractAt_set_contractCount;
      try lia; simpl; try congruence;
      repeat match goal with
      | Hs : ContractState.eqb _ _ = true |- _ => apply ContractState_eqb_eq in Hs
      end;
      try congruence;
      try (match goal with
           | |- context [if allCompleted ?b then _ else _] => destruct (allCompleted b)
           end; simpl; congruence);
      intros _; eexists; split_and!; done.
  - intros Hmay favor. destruct v; cbn [exec mayResolve] in *;
      unfold Basic.resolveDispute, RoleGated.resolveDispute;
      rewrite Hmay, Hst; simpl; eexists; (split; [reflexivity|]);
      by rewrite contractAt_store_eq.
Qed.

(** The basic ledger of the open dispute: the engine, named as arbitrator of
    contract 0, ends the dispute in the athlete's favor. *)
Lemma disputed_is_left_witness :
  ∃ L', exec BasicVariant env0 (DisputeResolution.ledger Sample.openDispute)
          Sample.engineAddress (ResolveDispute 0 true) = Ok (L', None)
        ∧ state (contractAt L' 0) = ContractState.Active.
Proof.
  destruct (disputed_is_left_by_resolution_only BasicVariant env0
              (DisputeResolution.ledger Sample.openDispute)
              Sample.engineAddress 0 eq_refl eq_refl) as [_ Hok].
  exact (Hok eq_refl true).
Defined.

(** ** The number of milestones *)

Lemma exec_keeps_count v e L sender c L' ret id :
  exec v e L sender c = Ok (L', ret) →
  state (contractAt L id) ≠ ContractState.Draft →
  getMilestoneCount L' id = getMilestoneCount L id.
Proof.
  intros H Hst. unfold getMilestoneCount.
  destruct (exec_milestones _ _ _ _ _ _ _ H id)
    as [-> | new (ds & amts & ts & ->) _ _ | j m st ev _ -> | i m _ _ _ _ ->];
    [done | | by rewrite length_insert | by rewrite length_insert].
  apply addMilestones_adds_total in H as [Hd _]. done.
Qed.

(** X9.  Milestones are added in Draft only: once a created contract has left
    Draft, [getMilestoneCount] returns the same number after any sequence of
    transactions, and [getMilestoneDetails] answers on the same indexes: it
    returns a milestone for an index below the count and panics (0x32) on any
    other. *)
Theorem milestone_count_is_fixed_after_draft :
  ∀ (v : Variant) (txs : list Tx) (L : Ledger) (id : uint256),
    id < contractCount L →
    state (contractAt L id) ≠ ContractState.Draft →
    getMilestoneCount (run v L txs).1 id = getMilestoneCount L id
    ∧ ∀ i, (i < getMilestoneCount L id →
            ∃ m, getMilestoneDetails (run v L txs).1 id i = Ok m)
           ∧ (getMilestoneCount L id ≤ i →
              getMilestoneDetails (run v L txs).1 id i = Err (Panic 0x32)).
Proof.
  intros v txs L id Hid Hst.
  assert (getMilestoneCount (run v L txs).1 id = getMilestoneCount L id) as Hcount.
  { revert L Hid Hst. induction txs as [|t txs IH]; intros L Hid Hst; simpl; [done|].
    destruct (step v L t) as [[L' ret]|f] eqn:Hstep; [|by apply IH].
    destruct (exec_keeps_not_draft _ _ _ _ _ _ _ id Hstep Hid Hst) as [Hid' Hst'].
    specialize (IH L' Hid' Hst'). destruct (run v L' txs) as [Lf ids]. simpl in *.
    rewrite IH. by eapply exec_keeps_count. }
  split; [exact Hcount|].
  intros i. rewrite <- Hcount. unfold getMilestoneCount, getMilestoneDetails.
  split; intros Hi.
  - destruct (lookup_lt_is_Some_2 (milestones (contractAt (run v L txs).1 id))
                (N.to_nat i)) as [m ->]; [lia | eauto].
  - rewrite lookup_ge_None_2 by lia. reflexivity.
Qed.

(** The activated sample has one milestone, also after it is delivered and
    paid. *)
Lemma milestone_count_witness :
  getMilestoneCount
    (run BasicVariant (Sample.activated BasicVariant)
       [ Sample.tx Sample.anAthlete (SubmitMilestone 0 0 "QmEvidence");
         Sample.release BasicVariant 0 100 ]).1 0 = 1.
Proof.
  destruct (milestone_count_is_fixed_after_draft BasicVariant
              [ Sample.tx Sample.anAthlete (SubmitMilestone 0 0 "QmEvidence");
                Sample.release BasicVariant 0 100 ]
              (Sample.activated BasicVariant) 0 eq_refl ltac:(discriminate))
    as [Hcount _].
  exact Hcount.
Defined.

(** ** The dispute engine *)

Module DisputeMore.
Import DisputeResolution DisputeReads DisputeFacts.

Lemma hasArbitratorVoted_elem D d a :
  hasArbitratorVoted D d a = true ↔ a ∈ votedArbitrators (disputeAt D d).
Proof.
  unfold hasArbitratorVoted. rewrite existsb_exists. split.
  - intros (x & Hx%list_elem_of_In & ->%N.eqb_eq). done.
  - intros Ha. exists a. split; [by apply list_elem_of_In | apply N.eqb_refl].
Qed.

Lemma not_voted_elem (voters : list address) (sender : address) :
  forallb (λ a, negb (a =? sender)) voters = true → sender ∉ voters.
Proof.
  rewrite forallb_forall. intros Hall Hin.
  apply list_elem_of_In, Hall in Hin. by rewrite N.eqb_refl in Hin.
Qed.

Section Engine.
Context (v : Variant) (this : address).

(** What [createDispute] needs and does. *)
Lemma createDispute_Ok L D sender now id ev why L' D' d :
  createDispute v this L D sender now id ev why = Ok (L', D', d) →
  let c := contractAt L id in
  ((sender = athlete c ∨ sender = sponsor c)
   ∧ (this = athlete c ∨ this = sponsor c)
   ∧ state c = ContractState.Active)
  ∧ L' = store L id (set_state c ContractState.Disputed)
  ∧ d = disputeCount D ∧ disputeCount D' = d + 1
  ∧ disputeIdOf D' = <[id := d]> (disputeIdOf D)
  ∧ roles D' = roles D
  ∧ (∀ d', d' ≠ d → disputeAt D' d' = disputeAt D d')
  ∧ disputeAt D' d
    = {| contractId := id; initiator := sender; evidenceIPFSHash := ev;
         reason := why; timestamp := now; resolved := false;
         athleteFavor := athleteFavor (disputeAt D d);
         votedArbitrators := votedArbitrators (disputeAt D d);
         arbitratorVotes := arbitratorVotes (disputeAt D d);
         athleteVotes := athleteVotes (disputeAt D d);
         sponsorVotes := sponsorVotes (disputeAt D d) |}.
Proof.
  intros H c. unfold createDispute, ledger_raiseDispute in H. open_calls.
  apply checked_add_Ok in Hrun0 as [-> _].
  apply orb_true_iff in Hreq as [Hs%N.eqb_eq | Hs%N.eqb_eq];
    (assert (L' = store L id (set_state c ContractState.Disputed)
             ∧ (this = athlete c ∨ this = sponsor c)
             ∧ state c = ContractState.Active) as (-> & Hthis & Hst);
     [ destruct v; unfold Basic.raiseDispute, RoleGated.raiseDispute in Hrun;
       open_calls; apply ContractState_eqb_eq in Hreq2;
       apply orb_true_iff in Hreq as [Ht%N.eqb_eq | Ht%N.eqb_eq]; auto
     | split_and!; auto; simpl;
       [ intros d' Hd'; unfold disputeAt; simpl; by rewrite lookup_insert_ne
       | unfold disputeAt at 1; simpl; by rewrite lookup_insert_eq ] ]).
Qed.

(** What [forceResolveDispute] needs and does. *)
Lemma forceResolveDispute_Ok L D sender d favor L' D' :
  forceResolveDispute v this L D sender d favor = Ok (L', D') →
  let x := disputeAt D d in
  roles D DEFAULT_ADMIN_ROLE sender = true
  ∧ resolved x = false
  ∧ mayResolve v L this (contractId x) = true
  ∧ state (contractAt L (contractId x)) = ContractState.Disputed
  ∧ L' = store L (contractId x)
           (set_state (contractAt L (contractId x))
              (if favor then ContractState.Active else ContractState.Terminated))
  ∧ D' = storeDispute D d
           {| contractId := contractId x; initiator := initiator x;
              evidenceIPFSHash := evidenceIPFSHash x; reason := reason x;
              timestamp := timestamp x; resolved := true; athleteFavor := favor;
              votedArbitrators := votedArbitrators x;
              arbitratorVotes := arbitratorVotes x;
              athleteVotes := athleteVotes x; sponsorVotes := sponsorVotes x |}.
Proof.
  intros H x. unfold forceResolveDispute, ledger_resolveDispute in H. open_calls.
  apply negb_true_iff in Hreq0.
  destruct v; unfold Basic.resolveDispute, RoleGated.resolveDispute in Hrun;
    open_calls; apply ContractState_eqb_eq in Hreq2; split_and!; done.
Qed.

(** The internal [resolveDispute], as called by a vote that has a majority. *)
Lemma resolveDispute_Ok L D d L' D' :
  resolveDispute v this L D d = Ok (L', D') →
  let x := disputeAt D d in
  let favor := sponsorVotes x <? athleteVotes x in
  resolved x = false
  ∧ state (contractAt L (contractId x)) = ContractState.Disputed
  ∧ L' = store L (contractId x)
           (set_state (contractAt L (contractId x))
              (if favor then ContractState.Active else ContractState.Terminated))
  ∧ D' = storeDispute D d
           {| contractId := contractId x; initiator := initiator x;
              evidenceIPFSHash := evidenceIPFSHash x; reason := reason x;
              timestamp := timestamp x; resolved := true; athleteFavor := favor;
              votedArbitrators := votedArbitrators x;
              arbitratorVotes := arbitratorVotes x;
              athleteVotes := athleteVotes x; sponsorVotes := sponsorVotes x |}.
Proof.
  intros H x favor. unfold resolveDispute, ledger_resolveDispute in H. open_calls.
  apply negb_true_iff in Hreq.
  destruct v; unfold Basic.resolveDispute, RoleGated.resolveDispute in Hrun;
    open_calls; apply ContractState_eqb_eq in Hreq1; split_and!; done.
Qed.

(** A successful vote, record by record. *)
Lemma voteOnDispute_inv L D sender d favor L' D' :
  voteOnDispute v this L D sender d favor = Ok (L', D') →
  let x := disputeAt D d in
  resolved x = false ∧ (sender ∉ votedArbitrators x)
  ∧ ∃ x', recordVote x sender favor = Ok x'
      ∧ (∀ d', d' ≠ d → disputeAt D' d' = disputeAt D d')
      ∧ roles D' = roles D ∧ disputeCount D' = disputeCount D
      ∧ disputeIdOf D' = disputeIdOf D
      ∧ ((L' = L ∧ disputeAt D' d = x')
         ∨ (state (contractAt L (contractId x')) = ContractState.Disputed
            ∧ L' = store L (contractId x')
                     (set_state (contractAt L (contractId x'))
                        (if sponsorVotes x' <? athleteVotes x'
                         then ContractState.Active else ContractState.Terminated))
            ∧ disputeAt D' d
              = {| contractId := contractId x'; initiator := initiator x';
                   evidenceIPFSHash := evidenceIPFSHash x'; reason := reason x';
                   timestamp := timestamp x'; resolved := true;
                   athleteFavor := sponsorVotes x' <? athleteVotes x';
                   votedArbitrators := votedArbitrators x';
                   arbitratorVotes := arbitratorVotes x';
                   athleteVotes := athleteVotes x';
                   sponsorVotes := sponsorVotes x' |})).
Proof.
  intros H x. unfold voteOnDispute in H. open_calls.
  apply negb_true_iff in Hreq0. apply not_voted_elem in Hreq1.
  split_and!; [done | done |]. exists x0. split; [done|].
  destruct (hasMajority x0).
  - apply resolveDispute_Ok in H as (_ & Hst & -> & ->).
    rewrite disputeAt_store_eq in *.
    split_and!; try done.
    + intros d' Hd'. by rewrite !disputeAt_store_ne.
    + right. split_and!; [done | done | by rewrite disputeAt_store_eq].
  - open_calls. split_and!; try done.
    + intros d' Hd'. by rewrite disputeAt_store_ne.
    + left. by rewrite disputeAt_store_eq.
Qed.

End Engine.

(** One call of the pair, seen from one dispute record. *)
Lemma dispatch_dispute v this W sender c W' ret d :
  dispatch v this W sender c = Ok (W', ret) →
  DisputeChange (engine W) d (disputeAt (engine W) d) (disputeAt (engine W') d).
Proof.
  intros H. destruct c; cbn [dispatch] in H; open_calls; simpl;
    try (by apply dispute_kept).
  - apply createDispute_Ok in Hrun as (_ & _ & -> & _ & _ & _ & Hother & Hnew).
    destruct (decide (d = disputeCount (engine W))) as [->|Hne].
    + apply dispute_header; [by left|]. rewrite Hnew. by split_and!.
    + apply dispute_kept. by apply Hother.
  - apply voteOnDispute_inv in Hrun
      as (Hres & Hnot & x' & Hrec & Hother & _ & _ & _ & Hd).
    destruct (decide (d = disputeId)) as [->|Hne];
      [|apply dispute_kept; by apply Hother].
    eapply dispute_voted; [done | done | exact Hrec |].
    destruct Hd as [[_ ->] | (_ & _ & ->)]; by split_and!.
  - apply forceResolveDispute_Ok in Hrun as (_ & Hres & _ & _ & _ & ->).
    destruct (decide (d = disputeId)) as [->|Hne].
    + rewrite disputeAt_store_eq. apply dispute_header; [by right | by split_and!].
    + apply dispute_kept. by rewrite disputeAt_store_ne.
  - unfold grantRole in Hrun. open_calls. by apply dispute_kept.
  - unfold revokeRole in Hrun. open_calls. by apply dispute_kept.
  - unfold renounceRole in Hrun. open_calls. by apply dispute_kept.
Qed.


(** X10.  [createDispute] goes through only when the caller is the athlete or
    the sponsor of the contract, the contract is Active, and the engine itself
    is the athlete or the sponsor too (it is the engine that calls
    [raiseDispute] on the ledger).  It then returns the dispute counter as the
    new id, leaves the contract Disputed, makes [getDisputeId] of the contract
    return the new id and [getDisputeDetails] of the new id report the
    arguments, unresolved; and as long as the contract stays so, a further
    [createDispute] for it fails: with "Dispute already exists" for a party,
    with "Only athlete or sponsor can create dispute" for anybody else. *)
Theorem createDispute_opens_one_dispute :
  ∀ (v : Variant) (this : address) (L : Ledger) (D : Storage) (sender : address)
    (now id : uint256) (ev why : string) (L' : Ledger) (D' : Storage) (d : uint256),
    createDispute v this L D sender now id ev why = Ok (L', D', d) →
    let c := contractAt L id in
    (sender = athlete c ∨ sender = sponsor c)
    ∧ (this = athlete c ∨ this = sponsor c)
    ∧ state c = ContractState.Active
    ∧ state (contractAt L' id) = ContractState.Disputed
    ∧ d = disputeCount D
    ∧ getDisputeId D' id = d
    ∧ (let details := getDisputeDetails D' d in
       dd_contractId details = id ∧ dd_initiator details = sender
       ∧ dd_evidenceIPFSHash details = ev ∧ dd_reason details = why
       ∧ dd_timestamp details = now ∧ dd_resolved details = false)
    ∧ ∀ sender2 now2 ev2 why2,
        createDispute v this L' D' sender2 now2 id ev2 why2
        = Err (Revert (if (sender2 =? athlete c) || (sender2 =? sponsor c)
                       then "Dispute already exists"
                       else "Only athlete or sponsor can create dispute")).
Proof.
  intros v this L D sender now id ev why L' D' d H c.
  apply createDispute_Ok in H
    as ((Hsender & Hthis & Hst) & -> & -> & _ & Hid & _ & _ & Hnew).
  fold c in Hsender, Hthis, Hst.
  split_and!; try done.
  - by rewrite contractAt_store_eq.
  - unfold getDisputeId. rewrite Hid. by rewrite lookup_insert_eq.
  - unfold getDisputeDetails. rewrite Hnew. simpl. by split_and!.
  - intros sender2 now2 ev2 why2. unfold createDispute, getContractDetails.
    cbn [d_athlete d_sponsor d_state]. rewrite contractAt_store_eq. simpl.
    fold c. by destruct ((sender2 =? athlete c) || (sender2 =? sponsor c)).
Qed.

(** The athlete opens dispute 0 on the sample contract, whose sponsor is the
    engine. *)
Lemma createDispute_witness :
  ∃ L' D',
    createDispute BasicVariant Sample.engineAddress (ledger beforeDispute)
      (engine beforeDispute) Sample.anAthlete 1200 0 "QmClaim" "late payment"
    = Ok (L', D', 0)
    ∧ state (contractAt L' 0) = ContractState.Disputed
    ∧ getDisputeId D' 0 = 0.
Proof.
  destruct (createDispute BasicVariant Sample.engineAddress (ledger beforeDispute)
              (engine beforeDispute) Sample.anAthlete 1200 0 "QmClaim" "late payment")
    as [[[L' D'] d]|f] eqn:H; [|vm_compute in H; discriminate].
  destruct (createDispute_opens_one_dispute _ _ _ _ _ _ _ _ _ _ _ _ H)
    as (_ & _ & _ & Hst & Hd & Hid & _).
  exists L', D'. rewrite Hd in *. split_and!; [reflexivity | exact Hst | exact Hid].
Defined.

(** X11.  [forceResolveDispute] is the admin's override.  Without the admin
    role of the engine the call fails with "Only admin can force resolve".
    When it succeeds, the dispute was unresolved and is now resolved in the
    direction given by the admin, whatever the tallies say (they are left as
    they were); the contract named by the dispute was Disputed on the ledger,
    the engine being allowed to resolve it there, and is now Active or
    Terminated accordingly. *)
Theorem forceResolveDispute_overrides_the_votes :
  ∀ (v : Variant) (this : address) (L : Ledger) (D : Storage) (sender : address)
    (d : uint256) (favor : bool),
    (roles D DEFAULT_ADMIN_ROLE sender = false →
     forceResolveDispute v this L D sender d favor
     = Err (Revert "Only admin can force resolve"))
    ∧ ∀ L' D',
        forceResolveDispute v this L D sender d favor = Ok (L', D') →
        let before := getDisputeDetails D d in
        let after := getDisputeDetails D' d in
        roles D DEFAULT_ADMIN_ROLE sender = true
        ∧ dd_resolved before = false
        ∧ dd_resolved after = true ∧ dd_athleteFavor after = favor
        ∧ dd_athleteVotes after = dd_athleteVotes before
        ∧ dd_sponsorVotes after = dd_sponsorVotes before
        ∧ dd_totalVotes after = dd_totalVotes before
        ∧ dd_contractId after = dd_contractId before
        ∧ mayResolve v L this (dd_contractId before) = true
        ∧ state (contractAt L (dd_contractId before)) = ContractState.Disputed
        ∧ state (contractAt L' (dd_contractId before))
          = (if favor then ContractState.Active else ContractState.Terminated).
Proof.
  intros v this L D sender d favor. split.
  - intros Hno. unfold forceResolveDispute. by rewrite Hno.
  - intros L' D' H.
    apply forceResolveDispute_Ok in H as (Hadmin & Hres & Hmay & Hst & -> & ->).
    unfold getDisputeDetails. rewrite disputeAt_store_eq. simpl.
    split_and!; try done. by rewrite contractAt_store_eq.
Qed.

(** The admin of the sample engine ends the open dispute in the sponsor's
    favor, although nobody has voted: the contract is Terminated. *)
Lemma forceResolveDispute_witness :
  ∃ L' D',
    forceResolveDispute BasicVariant Sample.engineAddress
      (ledger Sample.openDispute) (engine Sample.openDispute) Sample.admin 0 false
    = Ok (L', D')
    ∧ state (contractAt L' 0) = ContractState.Terminated.
Proof.
  destruct (forceResolveDispute BasicVariant Sample.engineAddress
              (ledger Sample.openDispute) (engine Sample.openDispute)
              Sample.admin 0 false)
    as [[L' D']|f] eqn:H; [|vm_compute in H; discriminate].
  exists L', D'. split; [reflexivity|].
  destruct (forceResolveDispute_overrides_the_votes BasicVariant
              Sample.engineAddress (ledger Sample.openDispute)
              (engine Sample.openDispute) Sample.admin 0 false) as [_ Hok].
  destruct (Hok L' D' H) as (_ & _ & _ & _ & _ & _ & _ & _ & _ & _ & Hst).
  exact Hst.
Defined.

Lemma dispatch_count v this W sender c W' ret :
  dispatch v this W sender c = Ok (W', ret) →
  disputeCount (engine W) ≤ disputeCount (engine W').
Proof.
  intros H. destruct (dispatch_frame _ _ _ _ _ _ _ H) as [[[_ ->] | [_ ->]] _]; lia.
Qed.

(** One call leaves a created, resolved dispute as it is. *)
Lemma dispatch_keeps_resolved v this W sender c W' ret d :
  dispatch v this W sender c = Ok (W', ret) →
  d < disputeCount (engine W) →
  resolved (disputeAt (engine W) d) = true →
  disputeAt (engine W') d = disputeAt (engine W) d
  ∧ d < disputeCount (engine W').
Proof.
  intros Hstep Hd Hres. split.
  - destruct (dispatch_dispute _ _ _ _ _ _ _ d Hstep)
      as [Heq | [Hc | Hc] _ | ? ? ? Hc _ _ _]; [done | lia | congruence | congruence].
  - pose proof (dispatch_count _ _ _ _ _ _ _ Hstep). lia.
Qed.

(** X12.  A resolved dispute is closed for good: once dispute [d], created
    earlier, is resolved, no sequence of calls by anybody (admin included)
    changes its record, votes and direction included. *)
Theorem resolved_disputes_are_final :
  ∀ (v : Variant) (this : address) (txs : list (address * Call)) (W : World)
    (d : uint256),
    d < disputeCount (engine W) →
    resolved (disputeAt (engine W) d) = true →
    disputeAt (engine (run v this W txs).1) d = disputeAt (engine W) d.
Proof.
  intros v this txs. induction txs as [|[sender c] txs IH]; intros W d Hd Hres;
    simpl; [done|].
  destruct (dispatch v this W sender c) as [[W' ret]|f] eqn:Hstep; [|by apply IH].
  assert (disputeAt (engine W') d = disputeAt (engine W) d) as Hsame.
  { destruct (dispatch_dispute _ _ _ _ _ _ _ d Hstep)
      as [Heq | [Hc | Hc] _ | ? ? ? Hc _ _ _]; [done | lia | congruence | congruence]. }
  pose proof (dispatch_count _ _ _ _ _ _ _ Hstep) as Hcount.
  specialize (IH W' d). destruct (run v this W' txs) as [Wf ids]. simpl in *.
  rewrite IH; [done | lia | congruence].
Qed.

(** After the split vote of the sample (decided by its first vote), a forced
    resolution and a third vote change nothing of dispute 0. *)
Lemma resolved_disputes_witness :
  disputeAt
    (engine (run BasicVariant Sample.engineAddress Sample.afterSplitVote
               [ (Sample.admin, ForceResolveDispute 0 false);
                 (Sample.arbiter3, VoteOnDispute 0 false) ]).1) 0
  = disputeAt (engine Sample.afterSplitVote) 0.
Proof.
  exact (resolved_disputes_are_final BasicVariant Sample.engineAddress
           [ (Sample.admin, ForceResolveDispute 0 false);
             (Sample.arbiter3, VoteOnDispute 0 false) ]
           Sample.afterSplitVote 0 eq_refl eq_refl).
Defined.


Lemma recordVote_votes x sender favor x1 :
  recordVote x sender favor = Ok x1 →
  arbitratorVotes x1 = <[sender := favor]> (arbitratorVotes x).
Proof. unfold recordVote. intros H. destruct favor; open_calls; reflexivity. Qed.

Lemma filter_votes_insert (votes : gmap N bool) (voters : list address)
    (sender : address) (favor b : bool) :
  sender ∉ voters →
  filter (λ a, default false (<[sender := favor]> votes !! a) = b) voters
  = filter (λ a, default false (votes !! a) = b) voters.
Proof.
  induction voters as [|a voters IH]; intros Hnot; [done|].
  apply not_elem_of_cons in Hnot as [Hne Hnot].
  rewrite !filter_cons, IH by done.
  rewrite lookup_insert_ne by done. reflexivity.
Qed.

Lemma tallySound_change D D' d :
  DisputeChange D d (disputeAt D d) (disputeAt D' d) →
  tallySound D d → tallySound D' d.
Proof.
  unfold tallySound, votesCast, getArbitratorVote, getDisputeDetails; simpl.
  intros [-> | _ (-> & -> & -> & ->) | sender favor x1 _ Hnot Hrec (-> & -> & -> & ->)];
    [done | done |].
  intros (Hnodup & Ha & Hs & Hsum).
  pose proof (recordVote_votes _ _ _ _ Hrec) as ->.
  apply recordVote_Ok in Hrec as (_ & _ & -> & -> & ->).
  rewrite !filter_app.
  rewrite (filter_votes_insert _ _ _ _ true), (filter_votes_insert _ _ _ _ false)
    by done.
  rewrite !filter_cons, !filter_nil, lookup_insert_eq. simpl.
  rewrite !length_app, Ha, Hs. split_and!.
  - apply NoDup_app. split_and!; [done | | apply NoDup_singleton].
    intros a Ha1 ->%list_elem_of_singleton. done.
  - destruct favor; simpl; lia.
  - destruct favor; simpl; lia.
  - rewrite Ha, Hs in Hsum. simpl. destruct favor; lia.
Qed.

(** X13.  The tallies count the votes on record.  On an engine run from its
    deployment, against any ledger and whatever calls are made, for every
    dispute id: no arbitrator is listed twice, [athleteVotes] is the number of
    listed arbitrators whose [getArbitratorVote] is true, [sponsorVotes] the
    number of those for whom it is false, and the two add up to the total
    that [getDisputeDetails] reports. *)
Theorem tallies_count_the_votes :
  ∀ (v : Variant) (this : address) (L : Ledger) (deployer : address)
    (txs : list (address * Call)) (d : uint256),
    tallySound
      (engine (run v this {| ledger := L; engine := deploy deployer |} txs).1) d.
Proof.
  intros v this L deployer txs d.
  assert (tallySound (engine {| ledger := L; engine := deploy deployer |}) d) as H0.
  { unfold tallySound, votesCast; simpl. split_and!; try done. constructor. }
  revert H0. generalize {| ledger := L; engine := deploy deployer |}.
  induction txs as [|[sender c] txs IH]; intros W HW; simpl; [done|].
  destruct (dispatch v this W sender c) as [[W' ret]|f] eqn:Hstep; [|by apply IH].
  specialize (IH W'). destruct (run v this W' txs) as [Wf ids]. simpl in *.
  apply IH. eapply tallySound_change; [|exact HW].
  by eapply dispatch_dispute.
Qed.

Lemma change_keeps_votes D d x x' a :
  DisputeChange D d x x' →
  a ∈ votedArbitrators x →
  a ∈ votedArbitrators x'
  ∧ default false (arbitratorVotes x' !! a) = default false (arbitratorVotes x !! a).
Proof.
  intros [-> | _ (-> & -> & _) | sender favor x1 _ Hnot Hrec (-> & -> & _)] Ha;
    [done | done |].
  pose proof (recordVote_votes _ _ _ _ Hrec) as ->.
  apply recordVote_Ok in Hrec as (_ & _ & -> & _).
  split; [apply elem_of_app; by left|].
  rewrite lookup_insert_ne; [done|]. by intros ->.
Qed.

(** X14.  A vote is cast once and stays.  Once [hasArbitratorVoted] is true
    for an arbitrator on a dispute then, whatever calls follow, it remains
    true, [getArbitratorVote] keeps returning the same direction, and every
    further [voteOnDispute] of that arbitrator on that dispute fails. *)
Theorem recorded_votes_are_permanent :
  ∀ (v : Variant) (this : address) (txs : list (address * Call)) (W : World)
    (d : uint256) (a : address),
    hasArbitratorVoted (engine W) d a = true →
    let W' := (run v this W txs).1 in
    hasArbitratorVoted (engine W') d a = true
    ∧ getArbitratorVote (engine W') d a = getArbitratorVote (engine W) d a
    ∧ ∀ favor, ∃ reason,
        voteOnDispute v this (ledger W') (engine W') a d favor = Err (Revert reason)
        ∧ (reason = "Only arbitrator can vote"
           ∨ reason = "Dispute already resolved"
           ∨ reason = "Arbitrator already voted")%string.
Proof.
  intros v this txs W d a Hvoted W'.
  assert (hasArbitratorVoted (engine W') d a = true
          ∧ getArbitratorVote (engine W') d a = getArbitratorVote (engine W) d a)
    as [Hstill Hsame].
  { subst W'. revert W Hvoted.
    induction txs as [|[sender c] txs IH]; intros W Hvoted; simpl; [done|].
    destruct (dispatch v this W sender c) as [[W1 ret]|f] eqn:Hstep; [|by apply IH].
    apply hasArbitratorVoted_elem in Hvoted.
    destruct (change_keeps_votes _ _ _ _ a (dispatch_dispute _ _ _ _ _ _ _ d Hstep)
                Hvoted) as [Hin Hvote].
    apply hasArbitratorVoted_elem in Hin.
    specialize (IH W1 Hin). destruct (run v this W1 txs) as [Wf ids]. simpl in *.
    destruct IH as [IH1 IH2]. split; [done|].
    rewrite IH2. exact Hvote. }
  split_and!; [done | done |].
  intros favor. unfold voteOnDispute.
  destruct (roles (engine W') ARBITRATOR_ROLE a); simpl; [|eauto].
  destruct (resolved (disputeAt (engine W') d)); simpl; [eauto|].
  destruct (forallb _ _) eqn:Hall; simpl; [|eauto 6].
  apply not_voted_elem in Hall. by apply hasArbitratorVoted_elem in Hstill.
Qed.

(** The first arbitrator of the sample has voted for the athlete on dispute 0;
    after the second arbitrator's attempt this is still on record. *)
Lemma recorded_votes_witness :
  getArbitratorVote (engine Sample.afterSplitVote) 0 Sample.arbiter1 = true.
Proof.
  destruct (recorded_votes_are_permanent BasicVariant Sample.engineAddress
              [ (Sample.arbiter2, VoteOnDispute 0 false) ]
              (run BasicVariant Sample.engineAddress Sample.openDispute
                 [ (Sample.arbiter1, VoteOnDispute 0 true) ]).1
              0 Sample.arbiter1 eq_refl) as (_ & Hvote & _).
  exact Hvote.
Defined.

(** X15.  The engine never touches the money.  A successful call to the
    engine (not a call passed on to the ledger) leaves the payment log, the
    contract counter and the roles of the ledger as they were, and each
    contract too, but for its state, which it may move along the dispute:
    from Active to Disputed, or from Disputed to Active or Terminated. *)
Theorem engine_calls_move_only_the_state :
  ∀ (v : Variant) (this : address) (W : World) (sender : address) (c : Call)
    (W' : World) (ret : option uint256),
    onEngine c →
    dispatch v this W sender c = Ok (W', ret) →
    released (ledger W') = released (ledger W)
    ∧ contractCount (ledger W') = contractCount (ledger W)
    ∧ acl (ledger W') = acl (ledger W)
    ∧ ∀ id, disputeMove (contractAt (ledger W) id) (contractAt (ledger W') id).
Proof.
  intros v this W sender c W' ret Hc H.
  assert (∀ L id0 st,
            (state (contractAt L id0) = ContractState.Active
             ∧ st = ContractState.Disputed)
            ∨ (state (contractAt L id0) = ContractState.Disputed
               ∧ (st = ContractState.Active ∨ st = ContractState.Terminated)) →
            ∀ id, disputeMove (contractAt L id)
                    (contractAt (store L id0 (set_state (contractAt L id0) st)) id))
    as Hmove.
  { intros L id0 st Hst id. destruct (decide (id0 = id)) as [->|Hne].
    - rewrite contractAt_store_eq. right.
      destruct Hst as [[? ->] | [? [-> | ->]]]; auto.
    - rewrite contractAt_store_ne by done. by left. }
  destruct c; [done| | | | | | |]; cbn [dispatch] in H; open_calls; simpl;
    try (split_and!; [done | done | done | by left]).
  - apply createDispute_Ok in Hrun as ((_ & _ & Hst) & -> & _).
    split_and!; [done | done | done |]. apply Hmove. auto.
  - apply voteOnDispute_inv in Hrun
      as (_ & _ & x' & _ & _ & _ & _ & _ & [[-> _] | (Hst & -> & _)]).
    + split_and!; [done | done | done | by left].
    + split_and!; [done | done | done |]. apply Hmove. right. split; [done|].
      destruct (_ <? _); auto.
  - apply forceResolveDispute_Ok in Hrun as (_ & _ & _ & Hst & -> & _).
    split_and!; [done | done | done |]. apply Hmove. right. split; [done|].
    destruct favor; auto.
Qed.

(** The first vote on the open dispute of the sample: it resolves the dispute
    on the ledger, and the payment log is as before. *)
Lemma engine_calls_witness :
  ∃ W', dispatch BasicVariant Sample.engineAddress Sample.openDispute
          Sample.arbiter1 (VoteOnDispute 0 true) = Ok (W', None)
        ∧ released (ledger W') = released (ledger Sample.openDispute).
Proof.
  destruct (dispatch BasicVariant Sample.engineAddress Sample.openDispute
              Sample.arbiter1 (VoteOnDispute 0 true))
    as [[W' ret]|f] eqn:H; [|vm_compute in H; discriminate].
  assert (ret = None) as ->.
  { cbn [dispatch] in H. open_calls. reflexivity. }
  exists W'. split; [reflexivity|].
  destruct (engine_calls_move_only_the_state _ _ _ _ (VoteOnDispute 0 true) _ _ I H)
    as [Hlog _].
  exact Hlog.
Defined.

(** *** The first vote (C1) *)

(** C1 as amended.  Resolution triggers exactly when, after a vote is
    recorded, one tally strictly exceeds half (integer division) of the
    number of votes on record for the dispute; the engine keeps no count of
    registered arbitrators.
    - A successful vote appends the voter and adds one to the tally of its
      side; the dispute is resolved afterwards exactly when [athleteVotes] or
      [sponsorVotes] exceeds half the length of the voter list, and then in
      the athlete's favor exactly when [athleteVotes > sponsorVotes].
    - A dispute returned by [createDispute] has been created (its id is below
      [disputeCount]), is unresolved, and has no votes on record, provided no
      vote is on record under its id when it is created.
    - On a created dispute with no votes on record the first successful vote
      resolves it at once in that voter's direction (1 > 1 / 2 = 0), and from
      then on, whatever calls follow, its record stays as it is and every
      further [voteOnDispute] on it fails: with "Dispute already resolved" for
      an arbitrator, with "Only arbitrator can vote" for anybody else.  So on
      such a dispute, with votes (athleteFavor, athleteFavor) as with
      (athleteFavor, sponsorFavor), the dispute is resolved in the athlete's
      favor by the first vote and the second vote is refused; it does not
      remain Open. *)
Theorem C1_first_vote_closes_a_created_dispute :
  ∀ (v : Variant) (this : address),
    (∀ L D sender d favor L' D',
        voteOnDispute v this L D sender d favor = Ok (L', D') →
        let before := disputeAt D d in
        let after := disputeAt D' d in
        let half := N.of_nat (length (votedArbitrators after)) / 2 in
        votedArbitrators after = votedArbitrators before ++ [sender]
        ∧ athleteVotes after = athleteVotes before + (if favor then 1 else 0)
        ∧ sponsorVotes after = sponsorVotes before + (if favor then 0 else 1)
        ∧ resolved after
          = ((half <? athleteVotes after) || (half <? sponsorVotes after))
        ∧ (resolved after = true →
           athleteFavor after = (sponsorVotes after <? athleteVotes after)))
    ∧ (∀ L D sender now id ev why L' D' d,
        createDispute v this L D sender now id ev why = Ok (L', D', d) →
        votedArbitrators (disputeAt D d) = [] →
        athleteVotes (disputeAt D d) = 0 →
        sponsorVotes (disputeAt D d) = 0 →
        d < disputeCount D'
        ∧ resolved (disputeAt D' d) = false
        ∧ votedArbitrators (disputeAt D' d) = []
        ∧ athleteVotes (disputeAt D' d) = 0
        ∧ sponsorVotes (disputeAt D' d) = 0)
    ∧ (∀ W a1 d favor W1 ret,
        d < disputeCount (engine W) →
        votedArbitrators (disputeAt (engine W) d) = [] →
        athleteVotes (disputeAt (engine W) d) = 0 →
        sponsorVotes (disputeAt (engine W) d) = 0 →
        dispatch v this W a1 (VoteOnDispute d favor) = Ok (W1, ret) →
        resolved (disputeAt (engine W1) d) = true
        ∧ athleteFavor (disputeAt (engine W1) d) = favor
        ∧ votedArbitrators (disputeAt (engine W1) d) = [a1]
        ∧ ∀ txs,
            let W2 := (run v this W1 txs).1 in
            disputeAt (engine W2) d = disputeAt (engine W1) d
            ∧ ∀ a2 favor2,
                dispatch v this W2 a2 (VoteOnDispute d favor2)
                = Err (Revert (if roles (engine W2) ARBITRATOR_ROLE a2
                               then "Dispute already resolved"
                               else "Only arbitrator can vote"))).
Proof.
  intros v this. split_and!.
  - intros L D sender d favor L' D' H before after half.
    apply voteOnDispute_Ok in H
      as (_ & _ & x & Hrec & Hvoted & Ha & Hs & Hres & Hfav & _ & _).
    apply recordVote_Ok in Hrec as (_ & _ & Hvoted' & Ha' & Hs').
    subst before after half. rewrite Hres, Hvoted, Ha, Hs.
    split_and!; try done.
    intros Hmaj. by apply Hfav.
  - intros L D sender now id ev why L' D' d H Hv Ha Hs.
    apply createDispute_Ok in H as (_ & _ & Hd & Hcount & _ & _ & _ & Hnew).
    rewrite Hnew, Hcount. simpl. split_and!; [lia | done | done | done | done].
  - intros W a1 d favor W1 ret Hd Hv Ha Hs H.
    cbn [dispatch] in H.
    destruct (voteOnDispute v this (ledger W) (engine W) a1 d favor)
      as [[L1 D1]|f] eqn:Hvote; [|discriminate].
    injection H as <- <-. simpl.
    destruct (first_vote_decides _ _ _ _ _ _ _ _ _ Hvote Hv Ha Hs)
      as (Hres & Hfav & Hvoted & _).
    apply voteOnDispute_Ok in Hvote as (_ & _ & _ & _ & _ & _ & _ & _ & _ & _ & _ & Hcount).
    split_and!; [done | done | done |].
    intros txs.
    set (W2 := (run v this {| ledger := L1; engine := D1 |} txs).1).
    assert (disputeAt (engine W2) d = disputeAt D1 d) as Hsame.
    { subst W2.
      assert (d < disputeCount (engine {| ledger := L1; engine := D1 |})) as Hd1
        by (simpl; lia).
      assert (resolved (disputeAt (engine {| ledger := L1; engine := D1 |}) d)
              = true) as Hres1 by done.
      change (disputeAt D1 d)
        with (disputeAt (engine {| ledger := L1; engine := D1 |}) d).
      revert Hd1 Hres1. generalize {| ledger := L1; engine := D1 |}.
      clear. induction txs as [|[sender c] txs IH]; intros W Hd Hres; simpl; [done|].
      destruct (dispatch v this W sender c) as [[W' ret]|f] eqn:Hstep;
        [|by apply IH].
      destruct (dispatch_keeps_resolved _ _ _ _ _ _ _ d Hstep Hd Hres)
        as [Heq Hd'].
      specialize (IH W'). destruct (run v this W' txs) as [Wf ids]. simpl in *.
      rewrite IH; [done | done | congruence]. }
    split; [done|].
    intros a2 favor2. unfold voteOnDispute.
    destruct (roles (engine W2) ARBITRATOR_ROLE a2); simpl; [|done].
    by rewrite Hsame, Hres.
Qed.

(** Dispute 0 of the sample was created with no votes on record.  The first
    arbitrator votes for the athlete: the dispute is resolved for the athlete,
    and the second arbitrator's vote for the sponsor is refused. *)
Lemma C1_witness_open_dispute :
  ∃ W1,
    dispatch BasicVariant Sample.engineAddress Sample.openDispute
      Sample.arbiter1 (VoteOnDispute 0 true) = Ok (W1, None)
    ∧ resolved (disputeAt (engine W1) 0) = true
    ∧ athleteFavor (disputeAt (engine W1) 0) = true
    ∧ dispatch BasicVariant Sample.engineAddress W1 Sample.arbiter2
        (VoteOnDispute 0 false) = Err (Revert "Dispute already resolved").
Proof.
  destruct (dispatch BasicVariant Sample.engineAddress Sample.openDispute
              Sample.arbiter1 (VoteOnDispute 0 true))
    as [[W1 ret]|f] eqn:H; [|vm_compute in H; discriminate].
  destruct (C1_first_vote_closes_a_created_dispute BasicVariant
              Sample.engineAddress) as (_ & _ & Hfirst).
  destruct (Hfirst Sample.openDispute Sample.arbiter1 0 true W1 ret
              eq_refl eq_refl eq_refl eq_refl H) as (Hres & Hfav & _ & Hlater).
  destruct (Hlater []) as [_ Hvote]. specialize (Hvote Sample.arbiter2 false).
  simpl in Hvote.
  assert (ret = None ∧ roles (engine W1) ARBITRATOR_ROLE Sample.arbiter2 = true)
    as [-> Hrole].
  { vm_compute in H. injection H as <- <-. split; reflexivity. }
  rewrite Hrole in Hvote.
  exists W1. split_and!; [reflexivity | exact Hres | exact Hfav | exact Hvote].
Defined.

(** Why the rule is about disputes created with no votes on record: dispute 1
    of this run was voted on before it was created; it is a created dispute,
    both votes were accepted, and it is still unresolved, at one vote each. *)
Example reopened_dispute_stays_open :
  1 < disputeCount (engine reopenedDispute)
  ∧ resolved (disputeAt (engine reopenedDispute) 1) = false
  ∧ votedArbitrators (disputeAt (engine reopenedDispute) 1)
    = [Sample.arbiter1; Sample.arbiter2]
  ∧ athleteVotes (disputeAt (engine reopenedDispute) 1) = 1
  ∧ sponsorVotes (disputeAt (engine reopenedDispute) 1) = 1.
Proof. vm_compute. by split_and!. Qed.

End DisputeMore.

(** ** The token registry *)

Module TokenMore.
Import SponsorshipNFT TokenFacts.

(** A token that exists keeps existing, with its contract id, whatever one
    call does; and its owner changes only by a transfer of that token. *)
Lemma dispatch_keeps_token S sender c S' ret t :
  dispatch S sender c = Ok (S', ret) →
  _exists S t = true →
  _exists S' t = true ∧ contractIdOfAt S' t = contractIdOfAt S t.
Proof.
  intros H Ht.
  destruct c; unfold_token H; open_calls; try done.
  - apply negb_true_iff in Hreq2.
    assert (increment (_tokenIds S) ≠ t) as Hne by congruence.
    unfold _exists, ownerAt, contractIdOfAt in *; simpl.
    by rewrite !lookup_insert_ne.
  - split; [|done]. unfold _exists, ownerAt in *; simpl.
    destruct (decide (tokenId = t)) as [->|Hne].
    + by rewrite lookup_insert_eq.
    + by rewrite lookup_insert_ne.
Qed.

(** X16.  Tokens are never burnt and never re-labelled: a token that exists
    still exists after any sequence of calls, and [getContractId] keeps
    returning the contract id it was minted for. *)
Theorem tokens_keep_their_contract :
  ∀ (txs : list (address * Call)) (S : Storage) (t : uint256),
    _exists S t = true →
    _exists (run S txs).1 t = true
    ∧ getContractId (run S txs).1 t = Ok (contractIdOfAt S t).
Proof.
  intros txs. induction txs as [|[sender c] txs IH]; intros S t Ht; simpl.
  { unfold getContractId. by rewrite Ht. }
  destruct (dispatch S sender c) as [[S' ret]|f] eqn:Hstep; [|by apply IH].
  destruct (dispatch_keeps_token _ _ _ _ _ t Hstep Ht) as [Ht' Hid].
  specialize (IH S' t Ht'). destruct (run S' txs) as [Sf ids]. simpl in *.
  by rewrite <- Hid.
Qed.

(** Token 1 of the sample registry stands for contract 0, also after it is
    handed to the athlete and a third token is minted. *)
Lemma tokens_keep_witness :
  getContractId
    (run Sample.twoTokens
       [ (Sample.aSponsor, TransferFrom false Sample.aSponsor Sample.anAthlete 1);
         Sample.mint 7 ]).1 1 = Ok 0.
Proof.
  destruct (tokens_keep_their_contract
              [ (Sample.aSponsor, TransferFrom false Sample.aSponsor Sample.anAthlete 1);
                Sample.mint 7 ]
              Sample.twoTokens 1 eq_refl) as [_ Hid].
  exact Hid.
Defined.

(** X17.  A mint ties a new token to its contract, both ways.  A successful
    [mintSponsorshipNFT] was sent by a minter for a contract id without a
    token, to a non-zero address; the token id returned is the counter after
    its increment and did not exist; afterwards it belongs to [to],
    [getContractId] of it returns the contract id, [tokenIdOf] of the contract
    id is the token, its URI is the one given, and every other token has the
    owner it had. *)
Theorem mint_ties_token_and_contract :
  ∀ (S : Storage) (sender to : address) (id : uint256) (uri : string)
    (athlete sponsor : address) (S' : Storage) (t : uint256),
    mintSponsorshipNFT S sender to id uri athlete sponsor = Ok (S', t) →
    roles S MINTER_ROLE sender = true
    ∧ tokenIdOfAt S id = 0 ∧ to ≠ 0
    ∧ t = increment (_tokenIds S) ∧ _tokenIds S' = t
    ∧ _exists S t = false
    ∧ ownerAt S' t = to
    ∧ getContractId S' t = Ok id
    ∧ tokenIdOfAt S' id = t
    ∧ tokenURIs S' !! t = Some uri
    ∧ ∀ t', t' ≠ t → ownerAt S' t' = ownerAt S t'.
Proof.
  intros S sender to id uri athlete sponsor S' t H.
  unfold mintSponsorshipNFT in H. open_calls.
  apply N.eqb_eq in Hreq0. apply negb_true_iff, N.eqb_neq in Hreq1.
  apply negb_true_iff in Hreq2.
  unfold getContractId, _exists, ownerAt, tokenIdOfAt, contractIdOfAt in *; simpl.
  rewrite !lookup_insert_eq; simpl.
  assert (negb (to =? 0) = true) as -> by (by apply negb_true_iff, N.eqb_neq).
  split_and!; try done.
  intros t' Hne. by rewrite lookup_insert_ne.
Qed.

(** The first mint on a fresh registry: token 1, for contract 0, owned by the
    sponsor. *)
Lemma mint_ties_witness :
  ∃ S', mintSponsorshipNFT (deploy Sample.admin) Sample.admin Sample.aSponsor 0
          "ipfs://deal" Sample.anAthlete Sample.aSponsor = Ok (S', 1)
        ∧ ownerAt S' 1 = Sample.aSponsor ∧ getContractId S' 1 = Ok 0.
Proof.
  destruct (mintSponsorshipNFT (deploy Sample.admin) Sample.admin Sample.aSponsor 0
              "ipfs://deal" Sample.anAthlete Sample.aSponsor)
    as [[S' t]|f] eqn:H; [|vm_compute in H; discriminate].
  destruct (mint_ties_token_and_contract _ _ _ _ _ _ _ _ _ H)
    as (_ & _ & _ & Ht & _ & _ & Hown & Hid & _).
  assert (t = 1) as -> by (rewrite Ht; reflexivity).
  exists S'. split_and!; [reflexivity | exact Hown | exact Hid].
Defined.

(** X18.  Royalties follow the owner.  [recordRoyaltyPayment] succeeds exactly
    for the current owner of an existing token, and it is refused with "Token
    does not exist" for a token without owner and with "Only token owner can
    record royalties" for anybody else.  After a successful [transferFrom] of
    the token, the receiver is the one who can record royalties on it, and
    the former owner (if not the receiver) no longer can. *)
Theorem royalties_follow_the_owner :
  ∀ (S : Storage) (t : uint256) (recipient : address) (amt : uint256),
    (∀ sender,
        recordRoyaltyPayment S sender t recipient amt
        = (if negb (_exists S t) then Err (Revert "Token does not exist")
           else if sender =? ownerAt S t then Ok tt
           else Err (Revert "Only token owner can record royalties")))
    ∧ ∀ sender approved from to S',
        transferFrom S sender approved from to t = Ok S' →
        from = ownerAt S t ∧ to ≠ 0
        ∧ (sender = from ∨ approved = true)
        ∧ ownerAt S' t = to
        ∧ recordRoyaltyPayment S' to t recipient amt = Ok tt
        ∧ (from ≠ to →
           recordRoyaltyPayment S' from t recipient amt
           = Err (Revert "Only token owner can record royalties")).
Proof.
  intros S t recipient amt. split.
  - intros sender. unfold recordRoyaltyPayment.
    destruct (_exists S t); simpl; [|done]. by destruct (sender =? ownerAt S t).
  - intros sender approved from to S' H. unfold transferFrom in H. open_calls.
    apply N.eqb_eq in Hreq1. apply negb_true_iff in Hreq2.
    unfold recordRoyaltyPayment, _exists, ownerAt in *; simpl.
    rewrite lookup_insert_eq; simpl. rewrite Hreq2, N.eqb_refl. simpl.
    apply N.eqb_neq in Hreq2.
    split_and!; try done.
    + apply orb_true_iff in Hreq0 as [->%N.eqb_eq | ->]; auto.
    + intros Hne. apply N.eqb_neq in Hne. by rewrite Hne.
Qed.

(** The sponsor hands token 1 of the sample registry to the athlete: the
    athlete can record royalties on it now. *)
Lemma royalties_witness :
  ∃ S', transferFrom Sample.twoTokens Sample.aSponsor false Sample.aSponsor
          Sample.anAthlete 1 = Ok S'
        ∧ recordRoyaltyPayment S' Sample.anAthlete 1 Sample.aSponsor 5 = Ok tt.
Proof.
  destruct (transferFrom Sample.twoTokens Sample.aSponsor false Sample.aSponsor
              Sample.anAthlete 1) as [S'|f] eqn:H; [|vm_compute in H; discriminate].
  exists S'. split; [reflexivity|].
  destruct (royalties_follow_the_owner Sample.twoTokens 1 Sample.aSponsor 5)
    as [_ Hmove].
  destruct (Hmove _ _ _ _ _ H) as (_ & _ & _ & _ & Hok & _).
  exact Hok.
Defined.

End TokenMore.

(** ** The factories *)

Lemma exec_count_mono v e L sender c L' ret :
  exec v e L sender c = Ok (L', ret) → contractCount L ≤ contractCount L'.
Proof.
  intros H. destruct (exec_count _ _ _ _ _ _ _ H) as [[_ ->] | (_ & -> & _)]; lia.
Qed.

(** No call writes the parties of an id that is still unassigned after it. *)
Lemma exec_keeps_blank v e L sender c L' ret :
  exec v e L sender c = Ok (L', ret) →
  blankBeyondCount L → blankBeyondCount L'.
Proof.
  intros H Hblank id Hid.
  pose proof (exec_count_mono _ _ _ _ _ _ _ H) as Hmono.
  destruct (Hblank id) as [Ha Hs]; [lia|].
  enough (athlete (contractAt L' id) = athlete (contractAt L id)
          ∧ sponsor (contractAt L' id) = sponsor (contractAt L id)) as [-> ->]
    by done.
  clear Ha Hs Hblank Hmono.
  destruct v, c; unfold_entry H; open_calls;
    repeat match goal with
    | Ha : checked_add _ _ = Ok _ |- _ => apply checked_add_Ok in Ha as [-> _]
    end;
    revert Hid; same_contract id;
    rewrite ?contractAt_set_acl, ?contractAt_set_contractCount; simpl;
    try lia;
    try (match goal with
         | |- context [if ?b then _ else _] => destruct b
         end);
    done.
Qed.

Lemma setRole_true (t : RoleTable) r a b r' a' :
  setRole t r a b r' a' = true → (r' = r ∧ a' = a ∧ b = true) ∨ t r' a' = true.
Proof.
  unfold setRole. destruct (decide (r' = r)) as [->|?]; [|auto].
  destruct (N.eqb_spec a' a) as [->|?]; [|auto]. intros ->. auto.
Qed.

Lemma setRole_same (t : RoleTable) r a b : setRole t r a b r a = b.
Proof. unfold setRole. by rewrite decide_True, N.eqb_refl. Qed.

Lemma deploy_blank v deployer : blankBeyondCount (deploy v deployer).
Proof.
  intros id _. unfold contractAt. destruct v; simpl; by rewrite lookup_empty.
Qed.

Lemma tokens_deploy_roles deployer :
  onlyRoleHolder (SponsorshipNFT.deploy deployer) deployer.
Proof.
  intros r a H. simpl in H.
  apply setRole_true in H as [(_ & -> & _) | H]; [done|].
  apply setRole_true in H as [(_ & -> & _) | H]; [done | discriminate].
Qed.

(** A call sent to the registry by an account without roles: nothing is
    minted, and nobody gains a role. *)
Lemma tokens_dispatch_external S owner sender c S' ret :
  SponsorshipNFT.dispatch S sender c = Ok (S', ret) →
  sender ≠ owner →
  onlyRoleHolder S owner →
  onlyRoleHolder S' owner
  ∧ ∀ t, SponsorshipNFT._exists S' t = true →
         SponsorshipNFT._exists S t = true
         ∧ SponsorshipNFT.contractIdOfAt S' t = SponsorshipNFT.contractIdOfAt S t.
Proof.
  intros H Hne Hroles.
  destruct c; TokenFacts.unfold_token H; open_calls;
    try (by apply Hroles in Hreq); try done.
  - split; [done|]. intros t.
    unfold SponsorshipNFT._exists, SponsorshipNFT.ownerAt in *; simpl.
    destruct (decide (tokenId = t)) as [->|Hn].
    + rewrite lookup_insert_eq. done.
    + rewrite lookup_insert_ne by done. done.
  - split; [|done]. intros r a Hr. simpl in Hr.
    apply setRole_true in Hr as [(_ & _ & ?) | Hr]; [done | by eapply Hroles].
Qed.

(** A mint sent by the factory: the new token stands for [id]; the others are
    as they were, and so are the roles. *)
Lemma tokens_mint_inv S sender to id uri a s S' t :
  SponsorshipNFT.mintSponsorshipNFT S sender to id uri a s = Ok (S', t) →
  to ≠ 0
  ∧ SponsorshipNFT.roles S' = SponsorshipNFT.roles S
  ∧ ∀ t', SponsorshipNFT._exists S' t' = true →
          (t' = t ∧ SponsorshipNFT.contractIdOfAt S' t' = id)
          ∨ (SponsorshipNFT._exists S t' = true
             ∧ SponsorshipNFT.contractIdOfAt S' t' = SponsorshipNFT.contractIdOfAt S t').
Proof.
  intros H. unfold SponsorshipNFT.mintSponsorshipNFT in H. open_calls.
  apply negb_true_iff, N.eqb_neq in Hreq1.
  split_and!; [done | done |]. intros t'.
  unfold SponsorshipNFT._exists, SponsorshipNFT.ownerAt,
    SponsorshipNFT.contractIdOfAt; simpl.
  destruct (decide (t' = SponsorshipNFT.increment (SponsorshipNFT._tokenIds S)))
    as [->|Hn].
  - rewrite !lookup_insert_eq. auto.
  - rewrite !lookup_insert_ne by done. auto.
Qed.

Module BasicFactoryFacts.
Import BasicFactory.

Ltac unfold_factory H :=
  unfold createSponsorshipContract, mintContractNFT, registerUser, addRole,
    verifyUser, onlyAdmin, withFactory in H.

Section Deployment.
Context (v : Variant) (this : address).

(** The factory's [createContract] is the ledger's, sent by the factory. *)
Lemma ledger_createContract_exec L a s h tv sd ed pt arbs L' id :
  ledger_createContract v this L a s h tv sd ed pt arbs = Ok (L', id) →
  exec v env0 L this (CreateContract a s h tv sd ed pt arbs) = Ok (L', Some id).
Proof.
  unfold ledger_createContract. intros H. destruct v; cbn [exec]; by rewrite H.
Qed.

(** The invariant that ties the registry to the ledger. *)
Lemma basic_dispatch_keeps_tokens W sender c W' ret :
  dispatch v this W sender c = Ok (W', ret) →
  sender ≠ 0 → sender ≠ this →
  blankBeyondCount (ledger W) ∧ onlyRoleHolder (tokens W) this
  ∧ tokensNameContracts (ledger W) (tokens W) →
  blankBeyondCount (ledger W') ∧ onlyRoleHolder (tokens W') this
  ∧ tokensNameContracts (ledger W') (tokens W').
Proof.
  intros H H0 Hthis (Hblank & Hroles & Hnames).
  destruct c; cbn [dispatch] in H; unfold_factory H; open_calls; simpl;
    try (split_and!; done).
  - (* createSponsorshipContract *)
    match goal with
    | Hc : ledger_createContract _ _ _ _ _ _ _ _ _ _ _ = Ok _ |- _ =>
        apply ledger_createContract_exec in Hc; rename Hc into Hcall
    end.
    split_and!; [by eapply exec_keeps_blank | done |].
    intros t Ht. apply Hnames in Ht.
    pose proof (exec_count_mono _ _ _ _ _ _ _ Hcall). lia.
  - (* mintContractNFT *)
    match goal with
    | Hc : SponsorshipNFT.mintSponsorshipNFT _ _ _ _ _ _ _ = Ok _ |- _ =>
        apply tokens_mint_inv in Hc as (Hto & Hr & Hnew)
    end.
    split_and!; [done | intros r a; rewrite Hr; apply Hroles |].
    intros t Ht. destruct (Hnew t Ht) as [[-> ->] | [Hold ->]]; [|by apply Hnames].
    destruct (N.lt_ge_cases contractId (contractCount (ledger W))) as [|Hge];
      [done|].
    destruct (Hblank _ Hge) as [Ha Hs].
    unfold getContractDetails in Hreq; simpl in Hreq. rewrite Ha, Hs in Hreq.
    apply orb_true_iff in Hreq as [?%N.eqb_eq | ?%N.eqb_eq]; done.
  - (* a call to the ledger *)
    match goal with
    | Hc : exec _ _ _ _ _ = Ok _ |- _ => rename Hc into Hcall
    end.
    split_and!; [by eapply exec_keeps_blank | done |].
    intros t Ht. apply Hnames in Ht.
    pose proof (exec_count_mono _ _ _ _ _ _ _ Hcall). lia.
  - (* a call to the registry *)
    match goal with
    | Hc : SponsorshipNFT.dispatch _ _ _ = Ok _ |- _ =>
        destruct (tokens_dispatch_external _ _ _ _ _ _ Hc Hthis Hroles)
          as [Hroles' Hold]
    end.
    split_and!; [done | done |].
    intros t Ht. destruct (Hold t Ht) as [Hex ->]. by apply Hnames.
Qed.

(** What one call does to the record of a registered user. *)
Lemma dispatch_keeps_user W sender c W' ret user :
  dispatch v this W sender c = Ok (W', ret) →
  registered (factory W) user = true →
  registered (factory W') user = true
  ∧ name (userAt (factory W') user) = name (userAt (factory W) user)
  ∧ profileIPFSHash (userAt (factory W') user)
    = profileIPFSHash (userAt (factory W) user)
  ∧ (verified (userAt (factory W) user) = true →
     verified (userAt (factory W') user) = true)
  ∧ ∀ role, isUserInRole (factory W) user role = true →
            isUserInRole (factory W') user role = true.
Proof.
  intros H Hreg.
  destruct c; cbn [dispatch] in H; unfold_factory H; open_calls; simpl;
    try (split_and!; done);
    unfold registered, isUserInRole, userAt in *; simpl;
    (destruct (decide (user0 = user)) as [->|Hne];
     [ rewrite ?lookup_insert_eq; simpl
     | rewrite ?lookup_insert_ne by done; split_and!; done ]).
  - rewrite Hreg in Hreq. done.
  - split_and!; try done. intros role0 Hr.
    destruct (decide (role = role0)) as [->|Hn];
      [by rewrite lookup_insert_eq | by rewrite lookup_insert_ne].
  - split_and!; done.
Qed.

End Deployment.

(** X19.  Tokens stand for created contracts.  On a first-variant factory run
    from its deployment by accounts (none of them the zero address or the
    factory itself), calling the factory, the ledger or the registry in any
    order: nobody but the factory holds a role on the registry, and every
    token that exists carries the id of a contract that the ledger has
    created. *)
Theorem basic_factory_tokens_name_contracts :
  ∀ (v : Variant) (this deployer : address) (txs : list (address * Call)),
    external this txs →
    let W := run v this (construct v this deployer) txs in
    onlyRoleHolder (tokens W) this
    ∧ tokensNameContracts (ledger W) (tokens W).
Proof.
  intros v this deployer txs Hext W.
  enough (blankBeyondCount (ledger W) ∧ onlyRoleHolder (tokens W) this
          ∧ tokensNameContracts (ledger W) (tokens W)) as (_ & ? & ?) by done.
  subst W.
  assert (blankBeyondCount (ledger (construct v this deployer))
          ∧ onlyRoleHolder (tokens (construct v this deployer)) this
          ∧ tokensNameContracts (ledger (construct v this deployer))
              (tokens (construct v this deployer))) as H0.
  { split_and!; [apply deploy_blank | apply tokens_deploy_roles |].
    intros t Ht. unfold SponsorshipNFT._exists, SponsorshipNFT.ownerAt in Ht.
    simpl in Ht. by rewrite lookup_empty in Ht. }
  revert H0. generalize (construct v this deployer).
  induction Hext as [|[sender c] txs [Hs0 Hst] Hext IH]; intros W HW; simpl; [done|].
  simpl in Hs0, Hst.
  destruct (dispatch v this W sender c) as [[W' ret]|f] eqn:Hstep; [|by apply IH].
  apply IH. by eapply basic_dispatch_keeps_tokens.
Qed.

(** The sample deal: the one token stands for contract 0, the only contract. *)
Lemma basic_factory_tokens_witness :
  let W := run BasicVariant FactorySample.factoryAddress FactorySample.basicStart
             FactorySample.basicDeal in
  SponsorshipNFT._exists (tokens W) 1 = true
  ∧ SponsorshipNFT.contractIdOfAt (tokens W) 1 < contractCount (ledger W).
Proof.
  split; [reflexivity|].
  destruct (basic_factory_tokens_name_contracts BasicVariant
              FactorySample.factoryAddress Sample.admin FactorySample.basicDeal)
    as [_ Hnames].
  { repeat constructor; discriminate. }
  exact (Hnames 1 eq_refl).
Defined.

(** X20.  A profile of the first-variant factory is written once.  For a
    registered user, whatever calls follow: the user stays registered, the
    name and the profile reference that [getUser] returns never change (there
    is no entry point to amend them), [verified] and the roles, once set, stay
    set, and every further [registerUser] for that address fails with
    "Already registered". *)
Theorem basic_factory_profiles_are_written_once :
  ∀ (v : Variant) (this : address) (txs : list (address * Call)) (W : World)
    (user : address),
    registered (factory W) user = true →
    let F := factory W in
    let F' := factory (run v this W txs) in
    registered F' user = true
    ∧ (getUser F' user).1 = (getUser F user).1
    ∧ ((getUser F user).2 = true → (getUser F' user).2 = true)
    ∧ (∀ role, isUserInRole F user role = true → isUserInRole F' user role = true)
    ∧ ∀ sender role name profileIPFSHash,
        registerUser F' sender user role name profileIPFSHash
        = Err (Revert "Already registered").
Proof.
  intros v this txs W user Hreg F F'.
  enough (registered F' user = true
          ∧ name (userAt F' user) = name (userAt F user)
          ∧ profileIPFSHash (userAt F' user) = profileIPFSHash (userAt F user)
          ∧ (verified (userAt F user) = true → verified (userAt F' user) = true)
          ∧ ∀ role, isUserInRole F user role = true →
                    isUserInRole F' user role = true)
    as (Hreg' & Hn & Hp & Hv & Hr).
  { unfold getUser; simpl. split_and!; try done.
    - by rewrite Hn, Hp.
    - intros. unfold registerUser. by rewrite Hreg'. }
  subst F F'. revert W Hreg.
  induction txs as [|[sender c] txs IH]; intros W Hreg; simpl; [done|].
  destruct (dispatch v this W sender c) as [[W' ret]|f] eqn:Hstep; [|by apply IH].
  destruct (dispatch_keeps_user _ _ _ _ _ _ _ user Hstep Hreg)
    as (Hreg' & Hn & Hp & Hv & Hr).
  destruct (IH W' Hreg') as (? & Hn' & Hp' & Hv' & Hr').
  split_and!; [done | congruence | congruence | auto | auto].
Qed.

(** The athlete of the sample is registered as "Ada"; the admin verifies her
    and she tries to register again under another name: she is still "Ada". *)
Lemma basic_factory_profiles_witness :
  (getUser
     (factory
        (run BasicVariant FactorySample.factoryAddress FactorySample.basicRegistered
           [ (Sample.admin, VerifyUser Sample.anAthlete);
             (Sample.anAthlete, RegisterUser Sample.anAthlete 2 "Eve" "QmEve") ]))
     Sample.anAthlete).1
  = ("Ada"%string, "QmAda"%string).
Proof.
  destruct (basic_factory_profiles_are_written_once BasicVariant
              FactorySample.factoryAddress
              [ (Sample.admin, VerifyUser Sample.anAthlete);
                (Sample.anAthlete, RegisterUser Sample.anAthlete 2 "Eve" "QmEve") ]
              FactorySample.basicRegistered Sample.anAthlete eq_refl)
    as (_ & Hsame & _).
  exact Hsame.
Defined.


(** X21.  Who can do what on the first-variant factory.  The admin is the
    deployer for good: no call changes it.  A user becomes registered only
    through [registerUser] sent by that user or by the admin, which records
    the given name and profile, unverified, with the one role asked for
    (whatever role that is).  [verified] is set only by [verifyUser] sent by
    the admin, for a registered user.  A role is gained only through
    [addRole] sent by the admin, or at registration. *)
Theorem basic_factory_admin_powers :
  ∀ (v : Variant) (this : address) (W : World) (sender : address) (c : Call)
    (W' : World) (ret : option uint256),
    dispatch v this W sender c = Ok (W', ret) →
    let F := factory W in
    let F' := factory W' in
    admin F' = admin F
    ∧ ∀ user,
        (registered F' user = true → registered F user = false →
         ∃ role n p,
           c = RegisterUser user role n p
           ∧ (sender = user ∨ sender = admin F)
           ∧ getUser F' user = (n, p, false)
           ∧ isUserInRole F' user role = true)
        ∧ ((getUser F' user).2 = true → (getUser F user).2 = false →
           c = VerifyUser user ∧ sender = admin F ∧ registered F user = true)
        ∧ ∀ role,
            isUserInRole F' user role = true → isUserInRole F user role = false →
            registered F' user = true
            ∧ ((c = AddRole user role ∧ sender = admin F)
               ∨ ∃ n p, c = RegisterUser user role n p).
Proof.
  intros v this W sender c W' ret H F F'. subst F F'.
  destruct c; cbn [dispatch] in H; unfold_factory H; open_calls; simpl;
    try (split; [done|]; intros user1; split_and!; [congruence | congruence |];
         intros; congruence);
    (split; [done|]); intros user1;
    unfold registered, isUserInRole, getUser, userAt in *; simpl;
    (destruct (decide (user = user1)) as [->|Hne];
     [ rewrite ?lookup_insert_eq; simpl
     | rewrite ?lookup_insert_ne by done;
       split_and!; [congruence | congruence | intros; congruence] ]).
  - (* registerUser *)
    apply negb_true_iff in Hreq.
    split_and!.
    + intros _ _. exists role, name0, profileIPFSHash0. split_and!; try done.
      * apply orb_true_iff in Hreq0 as [?%N.eqb_eq | ?%N.eqb_eq]; auto.
      * by rewrite lookup_insert_eq.
    + done.
    + intros role0 Hr Hold. split; [done|]. right.
      destruct (decide (role = role0)) as [->|Hn]; [eauto|].
      rewrite lookup_insert_ne in Hr by done. congruence.
  - (* addRole *)
    apply N.eqb_eq in Hreq.
    split_and!; [congruence | congruence |].
    intros role0 Hr Hold. split; [done|]. left.
    destruct (decide (role = role0)) as [->|Hn]; [done|].
    rewrite lookup_insert_ne in Hr by done. congruence.
  - (* verifyUser *)
    apply N.eqb_eq in Hreq.
    split_and!; [congruence | done | intros; congruence].
Qed.

(** The athlete registers herself on the sample factory: she is then
    registered as "Ada", unverified, in the role she asked for. *)
Lemma basic_factory_admin_witness :
  admin (factory FactorySample.basicRegistered) = Sample.admin
  ∧ getUser (factory FactorySample.basicRegistered) Sample.anAthlete
    = ("Ada"%string, "QmAda"%string, false).
Proof.
  destruct (dispatch BasicVariant FactorySample.factoryAddress
              FactorySample.basicStart Sample.anAthlete
              (RegisterUser Sample.anAthlete 1 "Ada" "QmAda"))
    as [[W' ret]|f] eqn:H; [|vm_compute in H; discriminate].
  assert (W' = FactorySample.basicRegistered) as HW.
  { unfold FactorySample.basicRegistered. cbn [run]. by rewrite H. }
  destruct (basic_factory_admin_powers _ _ _ _ _ _ _ H) as [Hadmin Huser].
  destruct (Huser Sample.anAthlete) as (Hreg & _ & _).
  rewrite HW in *.
  destruct (Hreg eq_refl eq_refl) as (role & n & p & [= <- <- <-] & _ & Hget & _).
  split; [exact Hadmin | exact Hget].
Defined.

End BasicFactoryFacts.

Module RoleGatedFactoryFacts.
Import RoleGatedFactory.

Ltac unfold_factory H :=
  unfold registerUser, verifyUser, createSponsorshipContract, mintContractNFT,
    grantRole, revokeRole, renounceRole, withFactory in H.

Section Deployment.
Context (this : address).

(** The constructor always goes through. *)
Lemma construct_Ok deployer :
  construct this deployer
  = Ok {| factory := {| userInfo := ∅; userRoles := ∅;
                        roles := setRole noRoles DEFAULT_ADMIN_ROLE deployer true |};
          ledger := RoleGated.deploy this;
          tokens := SponsorshipNFT.set_roles (SponsorshipNFT.deploy this)
                      (setRole (SponsorshipNFT.roles (SponsorshipNFT.deploy this))
                         MINTER_ROLE this true) |}.
Proof.
  unfold construct, SponsorshipNFT.grantRole.
  assert (SponsorshipNFT.roles (SponsorshipNFT.deploy this) DEFAULT_ADMIN_ROLE this
          = true) as ->; [|reflexivity].
  simpl. unfold setRole. rewrite decide_False by done.
  by rewrite decide_True, N.eqb_refl.
Qed.

(** The calls that the factory passes on to the ledger are the ledger's own,
    sent by the factory. *)
Lemma createContract_exec L a s h tv sd ed pt arbs L' id :
  RoleGated.createContract L this a s h tv sd ed pt arbs = Ok (L', id) →
  exec RoleGatedVariant env0 L this (CreateContract a s h tv sd ed pt arbs)
  = Ok (L', Some id).
Proof. intros H. cbn [exec]. by rewrite H. Qed.

Lemma grantRole_exec L role user L' :
  RoleGated.grantRole L this role user = Ok L' →
  exec RoleGatedVariant env0 L this (GrantRole role user) = Ok (L', None).
Proof. intros H. cbn [exec]. by rewrite H. Qed.

Lemma getUserContracts_push F u id user id' :
  id' ∈ getUserContracts (pushContract F u id) user →
  id' ∈ getUserContracts F user ∨ (user = u ∧ id' = id).
Proof.
  unfold getUserContracts, pushContract, set_userInfo, userInfoAt; simpl.
  destruct (decide (u = user)) as [->|Hne].
  - rewrite lookup_insert_eq; simpl.
    intros [? | ->%list_elem_of_singleton]%elem_of_app; auto.
  - rewrite lookup_insert_ne by done. auto.
Qed.

(** The invariant that ties the registry and the lists to the ledger. *)
Lemma role_gated_dispatch_keeps_tokens W sender c W' ret :
  dispatch this W sender c = Ok (W', ret) →
  sender ≠ this →
  blankBeyondCount (ledger W) ∧ onlyRoleHolder (tokens W) this
  ∧ tokensNameContracts (ledger W) (tokens W) →
  blankBeyondCount (ledger W') ∧ onlyRoleHolder (tokens W') this
  ∧ tokensNameContracts (ledger W') (tokens W').
Proof.
  intros H Hthis (Hblank & Hroles & Hnames).
  assert (∀ e lc L' r,
            exec RoleGatedVariant e (ledger W) sender lc = Ok (L', r)
            ∨ exec RoleGatedVariant e (ledger W) this lc = Ok (L', r) →
            blankBeyondCount L' ∧ onlyRoleHolder (tokens W) this
            ∧ tokensNameContracts L' (tokens W)) as Hledger.
  { intros e lc L' r [Hcall | Hcall];
      (split_and!; [by eapply exec_keeps_blank | done |]);
      intros t Ht; apply Hnames in Ht;
      pose proof (exec_count_mono _ _ _ _ _ _ _ Hcall); lia. }
  destruct c; cbn [dispatch] in H; unfold_factory H; open_calls; simpl;
    try (split_and!; done).
  - (* registerUser *)
    match goal with
    | Hc : RoleGated.grantRole _ _ _ _ = Ok _ |- _ => apply grantRole_exec in Hc
    end. eauto.
  - (* createSponsorshipContract *)
    match goal with
    | Hc : RoleGated.createContract _ _ _ _ _ _ _ _ _ _ = Ok _ |- _ =>
        apply createContract_exec in Hc
    end. eauto.
  - (* mintContractNFT *)
    match goal with
    | Hc : SponsorshipNFT.mintSponsorshipNFT _ _ _ _ _ _ _ = Ok _ |- _ =>
        apply tokens_mint_inv in Hc as (Hto & Hr & Hnew)
    end.
    split_and!; [done | intros r a; rewrite Hr; apply Hroles |].
    intros t Ht. destruct (Hnew t Ht) as [[-> ->] | [Hold ->]]; [|by apply Hnames].
    destruct (N.lt_ge_cases contractId (contractCount (ledger W))) as [|Hge];
      [done|].
    destruct (Hblank _ Hge) as [_ Hs]. unfold getContractDetails in Hto.
    simpl in Hto. by rewrite Hs in Hto.
  - (* a call to the ledger *)
    eauto.
  - (* a call to the registry *)
    match goal with
    | Hc : SponsorshipNFT.dispatch _ _ _ = Ok _ |- _ =>
        destruct (tokens_dispatch_external _ _ _ _ _ _ Hc Hthis Hroles)
          as [Hroles' Hold]
    end.
    split_and!; [done | done |].
    intros t Ht. destruct (Hold t Ht) as [Hex ->]. by apply Hnames.
Qed.

Lemma dispatch_keeps_lists W sender c W' ret :
  dispatch this W sender c = Ok (W', ret) →
  listsNameContracts W → listsNameContracts W'.
Proof.
  intros H Hlists.
  assert (∀ F', (∀ user, contracts (userInfoAt F' user)
                         = contracts (userInfoAt (factory W) user)) →
                ∀ L', contractCount (ledger W) ≤ contractCount L' →
                listsNameContracts {| factory := F'; ledger := L'; tokens := tokens W' |})
    as Hsame.
  { intros F' HF L' HL user id. unfold getUserContracts; simpl. rewrite HF.
    intros Hin. apply Hlists in Hin. lia. }
  assert (∀ user info,
            contracts info = contracts (userInfoAt (factory W) user) →
            ∀ user', contracts (userInfoAt (set_userInfo (factory W) user info) user')
                     = contracts (userInfoAt (factory W) user')) as Hset.
  { intros user info Hinfo user'. unfold userInfoAt, set_userInfo; simpl.
    destruct (decide (user = user')) as [->|Hne];
      [by rewrite lookup_insert_eq | by rewrite lookup_insert_ne]. }
  destruct c; cbn [dispatch] in H; unfold_factory H; open_calls; simpl.
  - (* registerUser *)
    match goal with
    | Hc : RoleGated.grantRole _ _ _ _ = Ok _ |- _ =>
        apply grantRole_exec, exec_count_mono in Hc
    end.
    intros user' id. unfold getUserContracts, userInfoAt; simpl.
    destruct (decide (user = user')) as [->|Hne];
      [rewrite lookup_insert_eq | rewrite lookup_insert_ne by done];
      simpl; intros Hin; apply Hlists in Hin; lia.
  - (* verifyUser *)
    intros user' id. unfold getUserContracts; simpl. rewrite Hset by done.
    apply Hlists.
  - (* createSponsorshipContract *)
    match goal with
    | Hc : RoleGated.createContract _ _ _ _ _ _ _ _ _ _ = Ok _ |- _ =>
        apply createContract_exec in Hc; rename Hc into Hcall
    end.
    destruct (exec_count _ _ _ _ _ _ _ Hcall)
      as [[[=] _] | ([= ->] & Hcount & _)].
    intros user' id; simpl. rewrite Hcount.
    assert (∀ F, (∀ who i, i ∈ getUserContracts F who →
                           i < contractCount (ledger W) + 1) →
                 ∀ a who i,
                   i ∈ getUserContracts
                         (pushContract F a (contractCount (ledger W))) who →
                   i < contractCount (ledger W) + 1) as Hpush.
    { intros F HF a who i [Hin | [_ ->]]%getUserContracts_push;
        [by eapply HF | lia]. }
    assert (∀ who i, i ∈ getUserContracts (factory W) who →
                     i < contractCount (ledger W) + 1) as H1.
    { intros who i Hin. apply Hlists in Hin. lia. }
    destruct (_ && _); eauto.
  - (* mintContractNFT *)
    intros user' id. apply Hlists.
  - (* updateUserProfile *)
    intros user' id. unfold getUserContracts, updateUserProfile; simpl.
    rewrite Hset by done. apply Hlists.
  - intros user' id. apply Hlists.
  - intros user' id. apply Hlists.
  - intros user' id. apply Hlists.
  - (* a call to the ledger *)
    match goal with
    | Hc : exec _ _ _ _ _ = Ok _ |- _ => apply exec_count_mono in Hc
    end.
    intros user' id Hin. apply Hlists in Hin. simpl in *. lia.
  - intros user' id. apply Hlists.
Qed.

End Deployment.

(** X22.  Tokens stand for created contracts, also with the second-variant
    factory.  Run from its deployment by accounts other than the factory
    itself, calling the factory, the ledger or the registry in any order:
    nobody but the factory holds a role on the registry, and every token that
    exists carries the id of a contract that the ledger has created (a mint
    for an id that was never assigned stops at "ERC721: mint to the zero
    address", if not before). *)
Theorem role_gated_factory_tokens_name_contracts :
  ∀ (this deployer : address) (W0 : World) (txs : list (address * Call)),
    construct this deployer = Ok W0 →
    external this txs →
    let W := run this W0 txs in
    onlyRoleHolder (tokens W) this
    ∧ tokensNameContracts (ledger W) (tokens W).
Proof.
  intros this deployer W0 txs H0 Hext W.
  enough (blankBeyondCount (ledger W) ∧ onlyRoleHolder (tokens W) this
          ∧ tokensNameContracts (ledger W) (tokens W)) as (_ & ? & ?) by done.
  subst W. rewrite construct_Ok in H0. injection H0 as <-.
  match goal with
  | |- context [run this ?W0 txs] =>
      assert (blankBeyondCount (ledger W0) ∧ onlyRoleHolder (tokens W0) this
              ∧ tokensNameContracts (ledger W0) (tokens W0)) as HW0;
      [|revert HW0; generalize W0]
  end.
  { split_and!.
    - apply (deploy_blank RoleGatedVariant).
    - intros r a Hr. simpl in Hr.
      apply setRole_true in Hr as [(_ & -> & _) | Hr]; [done|].
      by apply (tokens_deploy_roles this r a).
    - intros t Ht. unfold SponsorshipNFT._exists, SponsorshipNFT.ownerAt in Ht.
      simpl in Ht. by rewrite lookup_empty in Ht. }
  induction Hext as [|[sender c] txs Hst Hext IH]; intros W HW; simpl; [done|].
  simpl in Hst.
  destruct (dispatch this W sender c) as [[W' ret]|f] eqn:Hstep; [|by apply IH].
  apply IH. by eapply role_gated_dispatch_keeps_tokens.
Qed.

(** The sample deal on the second-variant factory: the one token stands for
    contract 0, the only contract. *)
Lemma role_gated_factory_tokens_witness :
  let W := run FactorySample.factoryAddress FactorySample.roleGatedStart
             (FactorySample.roleGatedRegistration ++ FactorySample.roleGatedDeal) in
  SponsorshipNFT._exists (tokens W) 1 = true
  ∧ SponsorshipNFT.contractIdOfAt (tokens W) 1 < contractCount (ledger W).
Proof.
  split; [reflexivity|].
  destruct (role_gated_factory_tokens_name_contracts FactorySample.factoryAddress
              Sample.admin FactorySample.roleGatedStart
              (FactorySample.roleGatedRegistration ++ FactorySample.roleGatedDeal)
              eq_refl)
    as [_ Hnames].
  { repeat constructor; discriminate. }
  exact (Hnames 1 eq_refl).
Defined.

(** X23.  The contract lists of the second-variant factory name created
    contracts: from its deployment on, whatever calls are made by whomever,
    every id that [getUserContracts] returns for any address is below the
    contract counter of the ledger. *)
Theorem role_gated_factory_lists_name_contracts :
  ∀ (this deployer : address) (W0 : World) (txs : list (address * Call)),
    construct this deployer = Ok W0 →
    listsNameContracts (run this W0 txs).
Proof.
  intros this deployer W0 txs H0.
  rewrite construct_Ok in H0. injection H0 as <-.
  match goal with
  | |- context [run this ?W0 txs] =>
      assert (listsNameContracts W0) as HW0; [|revert HW0; generalize W0]
  end.
  { intros user id Hin. unfold getUserContracts, userInfoAt in Hin. simpl in Hin.
    rewrite lookup_empty in Hin. simpl in Hin. by apply elem_of_nil in Hin. }
  induction txs as [|[sender c] txs IH]; intros W HW; simpl; [done|].
  destruct (dispatch this W sender c) as [[W' ret]|f] eqn:Hstep; [|by apply IH].
  apply IH. by eapply dispatch_keeps_lists.
Qed.

(** After the sample deal the sponsor's list is [0], and one contract
    exists. *)
Lemma role_gated_factory_lists_witness :
  let W := run FactorySample.factoryAddress FactorySample.roleGatedStart
             (FactorySample.roleGatedRegistration ++ FactorySample.roleGatedDeal) in
  getUserContracts (factory W) Sample.aSponsor = [0]
  ∧ 0 < contractCount (ledger W).
Proof.
  split; [reflexivity|].
  apply (role_gated_factory_lists_name_contracts FactorySample.factoryAddress
           Sample.admin FactorySample.roleGatedStart
           (FactorySample.roleGatedRegistration ++ FactorySample.roleGatedDeal)
           eq_refl Sample.aSponsor 0).
  vm_compute. by left.
Defined.

(** X24.  [registerUser] of the second variant grants on both contracts.  When
    it succeeds, the caller is an admin of the factory, the user did not have
    the role on the factory, and the factory is an admin of the ledger;
    afterwards the user has the role on the factory and on the ledger, the
    role is appended to [getUserRoles], the name and the profile are the ones
    given, the verification flag, the contract list and the registry are
    untouched; and registering the same role for the same user once more
    fails: with "User already has this role" for an admin, with "Admin role
    required" for anybody else. *)
Theorem registerUser_grants_on_factory_and_ledger :
  ∀ (this : address) (W : World) (sender user : address) (role : Role)
    (n p : string) (W' : World),
    registerUser this W sender user role n p = Ok W' →
    let F := factory W in
    let F' := factory W' in
    hasUserRole F sender DEFAULT_ADMIN_ROLE = true
    ∧ hasUserRole F user role = false
    ∧ hasRole (ledger W) DEFAULT_ADMIN_ROLE this = true
    ∧ hasUserRole F' user role = true
    ∧ hasRole (ledger W') role user = true
    ∧ getUserRoles F' user = getUserRoles F user ++ [role]
    ∧ name (userInfoAt F' user) = n
    ∧ profileIPFSHash (userInfoAt F' user) = p
    ∧ isVerified (userInfoAt F' user) = isVerified (userInfoAt F user)
    ∧ getUserContracts F' user = getUserContracts F user
    ∧ tokens W' = tokens W
    ∧ ∀ sender' n' p',
        registerUser this W' sender' user role n' p'
        = Err (Revert (if hasUserRole F' sender' DEFAULT_ADMIN_ROLE
                       then "User already has this role"
                       else "Admin role required")).
Proof.
  intros this W sender user role n p W' H F F'. subst F F'.
  unfold registerUser in H. open_calls.
  apply negb_true_iff in Hreq0.
  unfold RoleGated.grantRole, RoleGated.onlyAdmin in Hrun. open_calls.
  unfold hasUserRole, hasRole, getUserRoles, getUserContracts, userInfoAt,
    userRolesAt; simpl.
  rewrite !lookup_insert_eq, !setRole_same. simpl.
  split_and!; try done.
  intros sender' n' p'. unfold registerUser; simpl.
  destruct (setRole _ _ _ _ DEFAULT_ADMIN_ROLE sender'); simpl; [|done].
  by rewrite setRole_same.
Qed.

(** The admin of the sample registers the athlete: she has the athlete role
    on the factory and on the ledger. *)
Lemma registerUser_witness :
  ∃ W', registerUser FactorySample.factoryAddress FactorySample.roleGatedStart
          Sample.admin Sample.anAthlete ATHLETE_ROLE "Ada" "QmAda" = Ok W'
        ∧ hasUserRole (factory W') Sample.anAthlete ATHLETE_ROLE = true
        ∧ hasRole (ledger W') ATHLETE_ROLE Sample.anAthlete = true.
Proof.
  destruct (registerUser FactorySample.factoryAddress FactorySample.roleGatedStart
              Sample.admin Sample.anAthlete ATHLETE_ROLE "Ada" "QmAda")
    as [W'|f] eqn:H; [|vm_compute in H; discriminate].
  exists W'. split; [reflexivity|].
  destruct (registerUser_grants_on_factory_and_ledger _ _ _ _ _ _ _ _ H)
    as (_ & _ & _ & Hf & Hl & _).
  split; [exact Hf | exact Hl].
Defined.

(** X25.  The user records of the second-variant factory.  Whatever one
    successful call is: a verification flag that is set stays set, and it is
    set only by [verifyUser] sent by an admin of the factory; the name and the
    profile of a user change only by the user's own [updateUserProfile] or by
    a [registerUser] for that user sent by an admin; and the contract list
    and the role list of a user only grow at their end. *)
Theorem role_gated_factory_user_records :
  ∀ (this : address) (W : World) (sender : address) (c : Call) (W' : World)
    (ret : option uint256),
    dispatch this W sender c = Ok (W', ret) →
    ∀ user,
      let i := userInfoAt (factory W) user in
      let i' := userInfoAt (factory W') user in
      (isVerified i = true → isVerified i' = true)
      ∧ (isVerified i' = true → isVerified i = false →
         c = VerifyUser user
         ∧ hasUserRole (factory W) sender DEFAULT_ADMIN_ROLE = true)
      ∧ ((name i', profileIPFSHash i') ≠ (name i, profileIPFSHash i) →
         (sender = user ∧ ∃ n p, c = UpdateUserProfile n p)
         ∨ (hasUserRole (factory W) sender DEFAULT_ADMIN_ROLE = true
            ∧ ∃ role n p, c = RegisterUser user role n p))
      ∧ contracts i `prefix_of` contracts i'
      ∧ getUserRoles (factory W) user `prefix_of` getUserRoles (factory W') user.
Proof.
  intros this W sender c W' ret H user1 i i'. subst i i'.
  assert (∀ F a id,
            (∀ who, isVerified (userInfoAt (pushContract F a id) who)
                    = isVerified (userInfoAt F who)
                  ∧ name (userInfoAt (pushContract F a id) who)
                    = name (userInfoAt F who)
                  ∧ profileIPFSHash (userInfoAt (pushContract F a id) who)
                    = profileIPFSHash (userInfoAt F who)
                  ∧ contracts (userInfoAt F who)
                    `prefix_of` contracts (userInfoAt (pushContract F a id) who))
            ∧ userRoles (pushContract F a id) = userRoles F) as Hpush.
  { intros F a id. split; [|done]. intros who.
    unfold pushContract, set_userInfo, userInfoAt; simpl.
    destruct (decide (a = who)) as [->|Hne].
    - rewrite lookup_insert_eq; simpl. split_and!; try done.
      by apply prefix_app_r.
    - rewrite lookup_insert_ne by done. done. }
  destruct c; cbn [dispatch] in H; unfold_factory H; open_calls;
    unfold hasUserRole, getUserRoles, userRolesAt; simpl;
    try (split_and!; [done | congruence | congruence | done | done]).
  - (* registerUser *)
    unfold userInfoAt; simpl.
    destruct (decide (user = user1)) as [->|Hne].
    + rewrite !lookup_insert_eq; simpl.
      split_and!; [done | congruence | eauto 10 | done | by apply prefix_app_r].
    + rewrite !lookup_insert_ne by done.
      split_and!; [done | congruence | congruence | done | done].
  - (* verifyUser *)
    unfold userInfoAt; simpl.
    destruct (decide (user = user1)) as [->|Hne].
    + rewrite !lookup_insert_eq; simpl.
      split_and!; [done | done | congruence | done | done].
    + rewrite !lookup_insert_ne by done.
      split_and!; [done | congruence | congruence | done | done].
  - (* createSponsorshipContract *)
    match goal with
    | |- context [pushContract (pushContract (pushContract ?F ?a ?id) ?s ?id) _ _] =>
        destruct (Hpush F a id) as [H1 R1];
        destruct (Hpush (pushContract F a id) s id) as [H2 R2];
        destruct (Hpush (pushContract (pushContract F a id) s id) sender id)
          as [H3 R3];
        destruct (H1 user1) as (V1 & N1 & P1 & C1);
        destruct (H2 user1) as (V2 & N2 & P2 & C2);
        destruct (H3 user1) as (V3 & N3 & P3 & C3)
    end.
    destruct (_ && _); simpl.
    + rewrite V3, V2, V1, N3, N2, N1, P3, P2, P1.
      split_and!; [done | congruence | congruence | | done].
      etrans; [exact C1|]. etrans; [exact C2 | exact C3].
    + rewrite V2, V1, N2, N1, P2, P1.
      split_and!; [done | congruence | congruence | by etrans | done].
  - (* updateUserProfile *)
    unfold updateUserProfile, userInfoAt; simpl.
    destruct (decide (sender = user1)) as [->|Hne].
    + rewrite !lookup_insert_eq; simpl.
      split_and!; [done | congruence | eauto 10 | done | done].
    + rewrite !lookup_insert_ne by done.
      split_and!; [done | congruence | congruence | done | done].
  - (* grantRole, revokeRole, renounceRole: the role table only *)
    unfold set_roles, userInfoAt; simpl.
    split_and!; [done | congruence | congruence | done | done].
  - unfold set_roles, userInfoAt; simpl.
    split_and!; [done | congruence | congruence | done | done].
  - unfold set_roles, userInfoAt; simpl.
    split_and!; [done | congruence | congruence | done | done].
Qed.

(** The athlete of the sample renames herself: she, and nobody else, is then
    on record under the new name. *)
Lemma role_gated_factory_records_witness :
  let W := run FactorySample.factoryAddress FactorySample.roleGatedStart
             FactorySample.roleGatedRegistration in
  ∃ W', dispatch FactorySample.factoryAddress W Sample.anAthlete
          (UpdateUserProfile "Ada L." "QmAda2") = Ok (W', None)
        ∧ isVerified (userInfoAt (factory W') Sample.anAthlete) = false.
Proof.
  eexists. split; [reflexivity|].
  destruct (role_gated_factory_user_records FactorySample.factoryAddress
              (run FactorySample.factoryAddress FactorySample.roleGatedStart
                 FactorySample.roleGatedRegistration)
              Sample.anAthlete (UpdateUserProfile "Ada L." "QmAda2") _ None eq_refl
              Sample.anAthlete) as (_ & Hv & _).
  apply not_true_is_false. intros Hnow.
  destruct (Hv Hnow eq_refl) as [[=] _].
Defined.


Lemma getUserContracts_pushed F a id who i :
  i ∈ getUserContracts F who ∨ (who = a ∧ i = id) →
  i ∈ getUserContracts (pushContract F a id) who.
Proof.
  unfold getUserContracts, pushContract, set_userInfo, userInfoAt; simpl.
  destruct (decide (a = who)) as [->|Hne].
  - rewrite lookup_insert_eq; simpl. intros [Hin | [_ ->]]; apply elem_of_app;
      [by left | right; by apply list_elem_of_singleton].
  - rewrite lookup_insert_ne by done. intros [Hin | [-> _]]; done.
Qed.

Ltac solve_pushed :=
  apply getUserContracts_pushed; first [ by right | left; solve_pushed ].

(** X26.  [createSponsorshipContract] of the second variant is checked twice,
    by the factory on its own role table and by the ledger on the ledger's,
    where the caller is the factory.  When it succeeds: on the factory the
    athlete has the athlete role or the caller the agent role, and the sponsor
    the sponsor role; on the ledger the athlete has the athlete role or the
    factory itself the agent role, and the sponsor the sponsor role; the start
    date is before the end date.  The id returned is the ledger's counter,
    [getContractDetails] of it reports the arguments in state Draft, the id is
    on the contract list of the athlete, of the sponsor and of a calling
    agent, and the registry is untouched. *)
Theorem createSponsorshipContract_is_checked_twice :
  ∀ (this : address) (W : World) (sender a s : address) (h : string)
    (tv sd ed : uint256) (pt : address) (arbs : list address) (W' : World)
    (id : uint256),
    createSponsorshipContract this W sender a s h tv sd ed pt arbs = Ok (W', id) →
    let F := factory W in
    let L := ledger W in
    (hasUserRole F a ATHLETE_ROLE = true ∨ hasUserRole F sender AGENT_ROLE = true)
    ∧ hasUserRole F s SPONSOR_ROLE = true
    ∧ (hasRole L ATHLETE_ROLE a = true ∨ hasRole L AGENT_ROLE this = true)
    ∧ hasRole L SPONSOR_ROLE s = true
    ∧ sd < ed
    ∧ id = contractCount L
    ∧ contractCount (ledger W') = id + 1
    ∧ getContractDetails (ledger W') id
      = {| d_athlete := a; d_sponsor := s; d_contractIPFSHash := h;
           d_totalValue := tv; d_startDate := sd; d_endDate := ed;
           d_state := ContractState.Draft; d_paymentToken := pt |}
    ∧ id ∈ getUserContracts (factory W') a
    ∧ id ∈ getUserContracts (factory W') s
    ∧ (hasUserRole F sender AGENT_ROLE = true →
       id ∈ getUserContracts (factory W') sender)
    ∧ tokens W' = tokens W.
Proof.
  intros this W sender a s h tv sd ed pt arbs W' id H F L. subst F L.
  unfold createSponsorshipContract in H. open_calls.
  match goal with
  | Hc : RoleGated.createContract _ _ _ _ _ _ _ _ _ _ = Ok _ |- _ =>
      unfold RoleGated.createContract in Hc; open_calls
  end.
  match goal with
  | Ha : checked_add _ _ = Ok _ |- _ => apply checked_add_Ok in Ha as [-> _]
  end.
  unfold hasUserRole, hasRole, getContractDetails in *. simpl.
  rewrite contractAt_store_eq. simpl.
  repeat match goal with
  | Hb : _ || _ = true |- _ => apply orb_true_iff in Hb
  | Hb : (_ <? _) = true |- _ => apply N.ltb_lt in Hb
  end.
  split_and!; try done.
  - destruct (_ && _); solve_pushed.
  - destruct (_ && _); solve_pushed.
  - intros Hagent.
    match goal with
    | |- context [roles ?F2 AGENT_ROLE sender] =>
        change (roles F2 AGENT_ROLE sender) with (roles (factory W) AGENT_ROLE sender)
    end.
    rewrite Hagent. simpl.
    destruct (N.eqb_spec sender a) as [->|Hna]; simpl; [solve_pushed|].
    destruct (N.eqb_spec sender s) as [->|Hns]; simpl; solve_pushed.
Qed.

(** The registered athlete of the sample creates contract 0 through the
    factory: it is on her list and on the sponsor's. *)
Lemma createSponsorshipContract_witness :
  let W := run FactorySample.factoryAddress FactorySample.roleGatedStart
             FactorySample.roleGatedRegistration in
  ∃ W', createSponsorshipContract FactorySample.factoryAddress W Sample.anAthlete
          Sample.anAthlete Sample.aSponsor "QmContract" 100 1000 2000
          Sample.aToken [Sample.arbiter1] = Ok (W', 0)
        ∧ 0 ∈ getUserContracts (factory W') Sample.anAthlete
        ∧ 0 ∈ getUserContracts (factory W') Sample.aSponsor.
Proof.
  intros W.
  destruct (createSponsorshipContract FactorySample.factoryAddress W
              Sample.anAthlete Sample.anAthlete Sample.aSponsor "QmContract"
              100 1000 2000 Sample.aToken [Sample.arbiter1])
    as [[W' id]|f] eqn:H; [|vm_compute in H; discriminate].
  destruct (createSponsorshipContract_is_checked_twice _ _ _ _ _ _ _ _ _ _ _ _ _ H)
    as (_ & _ & _ & _ & _ & Hid & _ & _ & Ha & Hs & _).
  assert (id = 0) as -> by (rewrite Hid; reflexivity).
  exists W'. split_and!; [reflexivity | exact Ha | exact Hs].
Defined.

End RoleGatedFactoryFacts.

(** ** Creation *)

(** X27.  What [createContract] writes is what [getContractDetails] reads.  A
    successful [createContract] (either variant) had a start date before its
    end date, non-zero parties in the basic variant, and in the role-gated
    one a sponsor with the sponsor role and an athlete with the athlete role
    or a caller with the agent role; it returns the contract counter, which it
    increments; [getContractDetails] of the new id reports the arguments in
    state Draft; the arbitrators are as given; whatever milestones and
    amendment history the id held are left in place; and no other contract is
    touched. *)
Theorem createContract_writes_what_details_read :
  ∀ (v : Variant) (e : Env) (L : Ledger) (sender a s : address) (h : string)
    (tv sd ed : uint256) (pt : address) (arbs : list address) (L' : Ledger)
    (ret : option uint256),
    exec v e L sender (CreateContract a s h tv sd ed pt arbs) = Ok (L', ret) →
    let id := contractCount L in
    sd < ed
    ∧ match v with
      | BasicVariant => a ≠ 0 ∧ s ≠ 0
      | RoleGatedVariant =>
          hasRole L SPONSOR_ROLE s = true
          ∧ (hasRole L ATHLETE_ROLE a = true ∨ hasRole L AGENT_ROLE sender = true)
      end
    ∧ ret = Some id
    ∧ contractCount L' = id + 1
    ∧ getContractDetails L' id
      = {| d_athlete := a; d_sponsor := s; d_contractIPFSHash := h;
           d_totalValue := tv; d_startDate := sd; d_endDate := ed;
           d_state := ContractState.Draft; d_paymentToken := pt |}
    ∧ arbitrators (contractAt L' id) = arbs
    ∧ milestones (contractAt L' id) = milestones (contractAt L id)
    ∧ updateHistory (contractAt L' id) = updateHistory (contractAt L id)
    ∧ (∀ id', id' ≠ id → contractAt L' id' = contractAt L id')
    ∧ released L' = released L ∧ acl L' = acl L.
Proof.
  intros v e L sender a s h tv sd ed pt arbs L' ret H id. subst id.
  destruct v; unfold_entry H; open_calls;
    match goal with
    | Ha : checked_add _ _ = Ok _ |- _ => apply checked_add_Ok in Ha as [-> _]
    end;
    unfold getContractDetails, hasRole in *; rewrite contractAt_store_eq; simpl;
    repeat match goal with
    | Hb : _ || _ = true |- _ => apply orb_true_iff in Hb
    | Hb : _ && _ = true |- _ => apply andb_true_iff in Hb as [? ?]
    | Hb : negb _ = true |- _ => apply negb_true_iff in Hb
    | Hb : (_ <? _) = true |- _ => apply N.ltb_lt in Hb
    | Hb : (_ =? _) = false |- _ => apply N.eqb_neq in Hb
    end;
    split_and!; try done;
    intros id' Hne; by rewrite contractAt_store_ne.
Qed.

(** The sample contract as created on the basic ledger. *)
Lemma createContract_witness :
  getContractDetails (Sample.created BasicVariant) 0
  = {| d_athlete := Sample.anAthlete; d_sponsor := Sample.aSponsor;
       d_contractIPFSHash := "QmContract"; d_totalValue := 100;
       d_startDate := 1000; d_endDate := 2000;
       d_state := ContractState.Draft; d_paymentToken := 0 |}.
Proof.
  destruct (exec BasicVariant env0 (deploy BasicVariant Sample.admin)
              Sample.anAthlete
              (CreateContract Sample.anAthlete Sample.aSponsor "QmContract" 100
                 1000 2000 0 [Sample.arbiter1]))
    as [[L' ret]|f] eqn:H; [|vm_compute in H; discriminate].
  destruct (createContract_writes_what_details_read _ _ _ _ _ _ _ _ _ _ _ _ _ _ H)
    as (_ & _ & _ & _ & Hd & _).
  assert (Sample.created BasicVariant = L') as ->; [|exact Hd].
  vm_compute in H. injection H as <- _. reflexivity.
Defined.
